(** * Verification of the credential-free Reddit scout
    (tools/content-suite/reddit_scout_noapi.py)

    Part I embeds the program: the query sanitizer, the parsing of a query
    plan, the fetch client, the validation pass and the two-phase fan-out
    search engine.  Part II gives the vocabulary in which their properties
    are stated and the worlds the examples run in.  Part III proves the
    properties. *)

From Stdlib Require Import ZArith Lia Bool List Ascii String Floats Uint63.
From stdpp Require Import base gmap strings list pretty.
Import ListNotations.

Local Open Scope string_scope.
Local Open Scope list_scope.
Local Open Scope Z_scope.

(* ===================================================================== *)
(** * Part I.  The program                                              *)
(* ===================================================================== *)

(** ** 1. Query sanitizer: [_sanitize_query] *)

(** A Python [str] is modelled by its list of characters.  The character
    classes are those of the [re] module on ASCII text: [\s] is
    TAB, LF, VT, FF, CR, FS, GS, RS, US and SPACE, and [\w] is
    [A-Za-z0-9_]. *)

(** A Python [str] is modelled by its list of characters.  The character
    classes are those of the [re] module on ASCII text: [\s] is
    TAB, LF, VT, FF, CR, FS, GS, RS, US and SPACE, and [\w] is
    [A-Za-z0-9_]. *)
Definition chars := list ascii.

Definition is_space (c : ascii) : bool :=
  let n := N_of_ascii c in
  ((9 <=? n) && (n <=? 13) || (28 <=? n) && (n <=? 32))%N.

Definition is_word (c : ascii) : bool :=
  let n := N_of_ascii c in
  ((48 <=? n) && (n <=? 57) || (65 <=? n) && (n <=? 90)
   || (97 <=? n) && (n <=? 122) || (n =? 95))%N.

Definition is_paren (c : ascii) : bool :=
  Ascii.eqb c "("%char || Ascii.eqb c ")"%char.

(** [\w] lookahead: is the next character a word character?  The end of
    the string counts as a non-word position, as for [\b]. *)
Definition head_is_word (s : chars) : bool :=
  match s with
  | [] => false
  | c :: _ => is_word c
  end.

(** Does the pattern [\bAND\b] match at the head of [s], when the
    character before it is a word character iff [pw]? *)
Definition fires (pw : bool) (s : chars) : bool :=
  match s with
  | a :: n :: d :: r =>
      negb pw && Ascii.eqb a "A"%char && Ascii.eqb n "N"%char
      && Ascii.eqb d "D"%char && negb (head_is_word r)
  | _ => false
  end.

(** [re.sub(r'\bAND\b', '', query)]: a left-to-right scan that drops every
    non-overlapping match; [pw] tells whether the previous character of the
    subject string is a word character. *)
Fixpoint re_sub_AND (pw : bool) (s : chars) : chars :=
  match s with
  | [] => []
  | c :: t =>
      match t with
      | n :: d :: r =>
          if negb pw && Ascii.eqb c "A"%char && Ascii.eqb n "N"%char
             && Ascii.eqb d "D"%char && negb (head_is_word r)
          then re_sub_AND true r
          else c :: re_sub_AND (is_word c) t
      | _ => c :: re_sub_AND (is_word c) t
      end
  end.

(** [re.sub(r'[()]', '', query)] *)
Fixpoint re_sub_parens (s : chars) : chars :=
  match s with
  | [] => []
  | c :: t => if is_paren c then re_sub_parens t else c :: re_sub_parens t
  end.

(** [re.sub(r'\s+', ' ', query)]: every maximal run of whitespace becomes
    one space; [in_ws] tells whether the scan is inside such a run. *)
Fixpoint re_sub_ws (in_ws : bool) (s : chars) : chars :=
  match s with
  | [] => []
  | c :: t =>
      if is_space c
      then (if in_ws then re_sub_ws true t else " "%char :: re_sub_ws true t)
      else c :: re_sub_ws false t
  end.

(** [str.lstrip()], [str.rstrip()] and [str.strip()] *)
Fixpoint lstrip (s : chars) : chars :=
  match s with
  | [] => []
  | c :: t => if is_space c then lstrip t else s
  end.

Fixpoint rstrip (s : chars) : chars :=
  match s with
  | [] => []
  | c :: t =>
      match rstrip t with
      | [] => if is_space c then [] else [c]
      | r => c :: r
      end
  end.

Definition strip (s : chars) : chars := rstrip (lstrip s).

Definition sanitize_chars (query : chars) : chars :=
  let query := re_sub_AND false query in
  let query := re_sub_parens query in
  strip (re_sub_ws false query).

Definition _sanitize_query (query : string) : string :=
  string_of_list_ascii (sanitize_chars (list_ascii_of_string query)).

(** ** 2. Query plans: [QueryPlan] and [_parse_query_plan] *)

(** The [QueryPlan] dataclass; [sub_queries] is a [dict] from subreddit name
    to its list of queries. *)
Record QueryPlan := mkQueryPlan {
  intent : string;
  subreddits : list string;
  sub_queries : gmap string (list string);
  global_queries : list string;
  mode : string;
  source : string
}.

(** [QueryPlan.queries_for_sub]: the subreddit's own list when the key is
    present and the list is non-empty, [global_queries] otherwise. *)
Definition queries_for_sub (plan : QueryPlan) (sub_name : string) : list string :=
  match sub_queries plan !! sub_name with
  | Some (q :: qs) => q :: qs
  | _ => global_queries plan
  end.

(** The fields [_parse_query_plan] reads from the decoded JSON object, each
    with the default of its [parsed.get]. *)
Record ParsedPlan := mkParsedPlan {
  p_subreddits : list string;
  p_sub_queries : gmap string (list string);
  p_global_queries : list string;
  p_intent : string
}.

(** [global_queries[:2] if global_queries else [intent]] *)
Definition guard_default (global_queries : list string) (intent : string) : list string :=
  match global_queries with
  | [] => [intent]
  | _ => take 2 global_queries
  end.

(** One turn of the empty-field guard loop:
    [if sub not in sub_queries or not sub_queries[sub]: sub_queries[sub] = ...] *)
Definition guard_step (global_queries : list string) (intent : string)
    (sq : gmap string (list string)) (sub : string) : gmap string (list string) :=
  match sq !! sub with
  | Some (_ :: _) => sq
  | _ => <[sub := guard_default global_queries intent]> sq
  end.

(** [_parse_query_plan] from the point where the response text has been
    decoded: [parsed] is [None] when the text is empty or no extraction
    strategy yields a non-empty JSON object. *)
Definition _parse_query_plan (parsed : option ParsedPlan) (mode : string)
    : option QueryPlan :=
  match parsed with
  | None => None
  | Some p =>
      match p_subreddits p with
      | [] => None
      | subs =>
          let sq := fold_left (guard_step (p_global_queries p) (p_intent p))
                              subs (p_sub_queries p) in
          Some {| intent := p_intent p;
                  subreddits := subs;
                  sub_queries := sq;
                  global_queries :=
                    match p_global_queries p with
                    | [] => [p_intent p]
                    | g => g
                    end;
                  mode := mode;
                  source := "llm" |}
      end
  end.

(** ** 3. The fetch client: [_fetch_json] *)

(** Python exceptions that the modelled code can meet.  [OtherError] stands
    for any exception outside the classes the code names. *)
Inductive PyExc :=
  | RequestException
  | ValueError
  | IndexError
  | ZeroDivisionError
  | OtherError.

Inductive Result (A : Type) :=
  | Ok (a : A)
  | Raise (e : PyExc).

Arguments Ok {A} a.

Arguments Raise {A} e.

(** [needle in hay] on strings *)
Fixpoint str_contains (needle hay : string) : bool :=
  match hay with
  | EmptyString => String.prefix needle hay
  | String _ t => String.prefix needle hay || str_contains needle t
  end.

Definition _429_BACKOFF_DELAYS : list Z := [5; 10; 20].

(** What the client observes of its environment, in order. *)
Inductive NetEvent :=
  | EvGet (url : string)
  | EvSleep (seconds : Z).

Section FetchClient.

(** The network and the decoded JSON values are left abstract. *)
Variable World : Type.
Variable Json : Type.

(** The parts of a [requests.Response] that [_fetch_json] reads:
    [json_body] is [None] when [resp.json()] fails to decode. *)
Record Response := mkResponse {
  status_code : Z;
  content_type : string;
  json_body : option Json
}.

(** [session.get(url, params=params, timeout=30)] either returns a response
    or raises; [time.sleep(delay)] only advances the world. *)
Variable session_get :
  World -> string -> option (list (string * string)) -> Result Response * World.
Variable time_sleep : World -> Z -> World.

(** The world together with the record of what the client did to it. *)
Record Net := mkNet { net_world : World; net_trace : list NetEvent }.

Definition do_get (st : Net) (url : string) (params : option (list (string * string)))
    : Result Response * Net :=
  let '(r, w) := session_get (net_world st) url params in
  (r, {| net_world := w; net_trace := net_trace st ++ [EvGet url] |}).

Definition do_sleep (st : Net) (delay : Z) : Net :=
  {| net_world := time_sleep (net_world st) delay;
     net_trace := net_trace st ++ [EvSleep delay] |}.

(** [resp.raise_for_status()]: [HTTPError], a [RequestException], on a
    4xx or 5xx status. *)
Definition raise_for_status (resp : Response) : Result unit :=
  if (400 <=? status_code resp) && (status_code resp <? 600)
  then Raise RequestException else Ok tt.

(** [resp.json()]: a decode failure is a [ValueError]. *)
Definition resp_json (resp : Response) : Result Json :=
  match json_body resp with
  | Some j => Ok j
  | None => Raise ValueError
  end.

(** The two [except] clauses of the [try]: both return [None]; any other
    exception propagates. *)
Definition handle (e : PyExc) (st : Net) : Result (option Json) * Net :=
  match e with
  | RequestException => (Ok None, st)
  | ValueError => (Ok None, st)
  | _ => (Raise e, st)
  end.

(** The body of [for attempt in range(len(_429_BACKOFF_DELAYS) + 1)]. *)
Fixpoint fetch_attempts (attempts : list nat) (url : string)
    (params : option (list (string * string))) (st : Net)
    : Result (option Json) * Net :=
  match attempts with
  | [] => (Ok None, st)
  | attempt :: rest =>
      let '(r, st) := do_get st url params in
      match r with
      | Raise e => handle e st
      | Ok resp =>
          if status_code resp =? 429 then
            if (attempt <? length _429_BACKOFF_DELAYS)%nat then
              match _429_BACKOFF_DELAYS !! attempt with
              | None => handle IndexError st
              | Some delay => fetch_attempts rest url params (do_sleep st delay)
              end
            else (Ok None, st)
          else if negb (str_contains "json" (content_type resp))
                  && negb (str_contains "javascript" (content_type resp))
          then (Ok None, st)
          else
            match raise_for_status resp with
            | Raise e => handle e st
            | Ok _ =>
                match resp_json resp with
                | Raise e => handle e st
                | Ok j => (Ok (Some j), st)
                end
            end
      end
  end.

Definition _fetch_json (st : Net) (url : string)
    (params : option (list (string * string))) : Result (option Json) * Net :=
  fetch_attempts (seq 0 (length _429_BACKOFF_DELAYS + 1)) url params st.

End FetchClient.

Arguments status_code {Json} _.
Arguments content_type {Json} _.
Arguments json_body {Json} _.
Arguments mkResponse {Json} _ _ _.
Arguments net_world {World} _.
Arguments net_trace {World} _.
Arguments mkNet {World} _ _.

(** ** 4. The validation pass of the LLM planning path *)

(** The [search_metadata] dictionary of [fetch_posts_noapi]. *)
Record SearchMetadata := mkSearchMetadata {
  plan_source : string;
  md_intent : string;
  subreddits_suggested : Z;
  subreddits_validated : Z;
  subreddits_searched : Z;
  subreddits_yielded : Z;
  total_queries_executed : Z;
  posts_before_dedup : Z;
  posts_after_dedup : Z;
  backfill_triggered : bool;
  global_fallback_triggered : bool;
  warnings : list string
}.

Definition initial_metadata : SearchMetadata :=
  {| plan_source := "unknown"; md_intent := ""; subreddits_suggested := 0;
     subreddits_validated := 0; subreddits_searched := 0; subreddits_yielded := 0;
     total_queries_executed := 0; posts_before_dedup := 0; posts_after_dedup := 0;
     backfill_triggered := false; global_fallback_triggered := false;
     warnings := [] |}.

(** [search_metadata["warnings"].append(msg)] *)
Definition add_warning (md : SearchMetadata) (msg : string) : SearchMetadata :=
  {| plan_source := plan_source md; md_intent := md_intent md;
     subreddits_suggested := subreddits_suggested md;
     subreddits_validated := subreddits_validated md;
     subreddits_searched := subreddits_searched md;
     subreddits_yielded := subreddits_yielded md;
     total_queries_executed := total_queries_executed md;
     posts_before_dedup := posts_before_dedup md;
     posts_after_dedup := posts_after_dedup md;
     backfill_triggered := backfill_triggered md;
     global_fallback_triggered := global_fallback_triggered md;
     warnings := warnings md ++ [msg] |}.

(** The four assignments that open the LLM branch and the one after the
    validation call. *)
Definition set_llm_plan_fields (md : SearchMetadata) (plan : QueryPlan) : SearchMetadata :=
  {| plan_source := "llm"; md_intent := intent plan;
     subreddits_suggested := Z.of_nat (length (subreddits plan));
     subreddits_validated := subreddits_validated md;
     subreddits_searched := subreddits_searched md;
     subreddits_yielded := subreddits_yielded md;
     total_queries_executed := total_queries_executed md;
     posts_before_dedup := posts_before_dedup md;
     posts_after_dedup := posts_after_dedup md;
     backfill_triggered := backfill_triggered md;
     global_fallback_triggered := global_fallback_triggered md;
     warnings := warnings md |}.

Definition set_subreddits_validated (md : SearchMetadata) (n : Z) : SearchMetadata :=
  {| plan_source := plan_source md; md_intent := md_intent md;
     subreddits_suggested := subreddits_suggested md;
     subreddits_validated := n;
     subreddits_searched := subreddits_searched md;
     subreddits_yielded := subreddits_yielded md;
     total_queries_executed := total_queries_executed md;
     posts_before_dedup := posts_before_dedup md;
     posts_after_dedup := posts_after_dedup md;
     backfill_triggered := backfill_triggered md;
     global_fallback_triggered := global_fallback_triggered md;
     warnings := warnings md |}.

(** The fields [_validate_subreddits] reads from an [about.json] answer, each
    with the default of its [get]: [data.get("kind")],
    [d.get("display_name", name)], [int(d.get("subscribers", 0) or 0)] and
    [d.get("over18", False)]. *)
Record About := mkAbout {
  ab_kind : string;
  ab_display_name : option string;
  ab_subscribers : Z;
  ab_over18 : bool
}.

(** [int / int] on small non-negative integers, in binary64. *)
Definition py_float (z : Z) : float := PrimFloat.of_uint63 (Uint63.of_Z z).

(** [fail_rate = 1 - (len(validated) / checked_count)] *)
Definition fail_rate (validated checked_count : Z) : float :=
  PrimFloat.sub 1%float (PrimFloat.div (py_float validated) (py_float checked_count)).

(** The literal [0.30]: the binary64 number nearest to three tenths. *)
Definition thirty_percent : float := 0x1.3333333333333p-2%float.

(** [fail_rate > 0.30] *)
Definition fail_rate_high (validated checked_count : Z) : bool :=
  PrimFloat.ltb thirty_percent (fail_rate validated checked_count).

Definition validation_warning (validated checked_count : Z) : string :=
  String.append (pretty (checked_count - validated))
    (String.append "/"
       (String.append (pretty checked_count)
          " suggested subs failed validation; LLM quality may be degraded")).

Section Validation.

Variable World : Type.

(** [_fetch_json(session, f"{_BASE_URL}/r/{quote_plus(name)}/about.json")],
    read as a dictionary: [None] stands for an absent, empty or non-dict
    answer.  [sleep] is [_sleep()]. *)
Variable fetch_about : World -> string -> option About * World.
Variable sleep : World -> World.

(** The world and the record of the existence checks made so far. *)
Record VState := mkVState {
  v_world : World;
  v_checked : list (string * option About)
}.

(** The body of [for name in names[:max_checks]]. *)
Definition validate_one (name : string) (valid : gmap string Z) (st : VState)
    : gmap string Z * VState :=
  let '(data, w) := fetch_about (v_world st) name in
  let valid :=
    match data with
    | Some d =>
        if String.eqb (ab_kind d) "t5" then
          let display := default name (ab_display_name d) in
          let subscribers := ab_subscribers d in
          if negb (ab_over18 d) then <[display := subscribers]> valid else valid
        else valid
    | None => valid
    end in
  (valid, {| v_world := sleep w; v_checked := v_checked st ++ [(name, data)] |}).

Fixpoint validate_loop (names : list string) (valid : gmap string Z) (st : VState)
    : gmap string Z * VState :=
  match names with
  | [] => (valid, st)
  | name :: rest =>
      let '(valid, st) := validate_one name valid st in
      validate_loop rest valid st
  end.

Definition _validate_subreddits (st : VState) (names : list string) (max_checks : nat)
    : gmap string Z * VState :=
  validate_loop (take max_checks names) ∅ st.

(** The LLM branch of [fetch_posts_noapi], from the metadata assignments to
    the filtering of the plan. *)
Definition llm_validation_pass (plan : QueryPlan) (md : SearchMetadata) (st : VState)
    : QueryPlan * SearchMetadata * VState :=
  let md := set_llm_plan_fields md plan in
  let '(validated, st) := _validate_subreddits st (subreddits plan) 20 in
  let md := set_subreddits_validated md (Z.of_nat (size validated)) in
  let checked_count := Z.min (Z.of_nat (length (subreddits plan))) 20 in
  let md :=
    if 0 <? checked_count then
      if fail_rate_high (Z.of_nat (size validated)) checked_count
      then add_warning md (validation_warning (Z.of_nat (size validated)) checked_count)
      else md
    else md in
  let valid_names : gset string := dom validated in
  let plan :=
    {| intent := intent plan;
       subreddits := filter (fun s => s ∈ valid_names) (subreddits plan);
       sub_queries := filter (fun kv : string * list string => kv.1 ∈ valid_names)
                             (sub_queries plan);
       global_queries := global_queries plan;
       mode := mode plan;
       source := source plan |} in
  (plan, md, st).

End Validation.

Arguments v_world {World} _.
Arguments v_checked {World} _.
Arguments mkVState {World} _ _.

(** ** 5. The fan-out search engine: [_fan_out_search] *)

(** A post in the standard schema built by [_parse_posts].  The engine
    reads the identifier only; the keys [source], [thread_url], [url],
    [upvote_ratio], [created_utc] and [top_comments] are left out. *)
Record Post := mkPost {
  post_id : string;
  post_subreddit : string;
  post_title : string;
  post_body_text : string;
  post_score : Z;
  post_num_comments : Z
}.

(** The double-quote character. *)
Definition dquote : ascii := ascii_of_nat 34.

(** the test that a double quote occurs in [query] *)
Definition has_quote (query : string) : bool :=
  existsb (Ascii.eqb dquote) (list_ascii_of_string query).

(** [query.replace] of every double quote by the empty string *)
Definition strip_quotes (query : string) : string :=
  string_of_list_ascii
    (List.filter (fun c => negb (Ascii.eqb dquote c)) (list_ascii_of_string query)).

(** [a // b] *)
Definition py_floordiv (a b : Z) : Result Z :=
  if b =? 0 then Raise ZeroDivisionError else Ok (a / b).

(** [l[:n]]: a negative [n] counts from the end. *)
Definition py_slice_to {A} (l : list A) (n : Z) : list A :=
  if 0 <=? n then take (Z.to_nat n) l
  else take (length l - Z.to_nat (- n)) l.

(** The three stages of the engine. *)
Inductive Phase := Breadth | Depth | GlobalFallback.

(** The record of a run, kept beside the program's own variables so that
    its behaviour can be stated; the program never reads it.  Each call of
    [_run_query] is recorded with its arguments, the clock reading at the
    call and its result ([retry] marks the quote-fallback call), and each
    call of [_collect] with its argument and the count it returns. *)
Inductive Event :=
  | EvQuery (phase : Phase) (retry : bool) (sub : option string)
            (query : string) (limit : Z) (clock : Z) (posts : list Post)
  | EvCollect (phase : Phase) (sub : option string) (posts : list Post) (added : Z).

Definition set_phase1_counts (md : SearchMetadata) (searched yielded : Z) : SearchMetadata :=
  {| plan_source := plan_source md; md_intent := md_intent md;
     subreddits_suggested := subreddits_suggested md;
     subreddits_validated := subreddits_validated md;
     subreddits_searched := searched;
     subreddits_yielded := yielded;
     total_queries_executed := total_queries_executed md;
     posts_before_dedup := posts_before_dedup md;
     posts_after_dedup := posts_after_dedup md;
     backfill_triggered := backfill_triggered md;
     global_fallback_triggered := global_fallback_triggered md;
     warnings := warnings md |}.

Definition set_phase2_counts (md : SearchMetadata) (executed after_dedup : Z) : SearchMetadata :=
  {| plan_source := plan_source md; md_intent := md_intent md;
     subreddits_suggested := subreddits_suggested md;
     subreddits_validated := subreddits_validated md;
     subreddits_searched := subreddits_searched md;
     subreddits_yielded := subreddits_yielded md;
     total_queries_executed := executed;
     posts_before_dedup := executed;
     posts_after_dedup := after_dedup;
     backfill_triggered := backfill_triggered md;
     global_fallback_triggered := global_fallback_triggered md;
     warnings := warnings md |}.

Definition set_global_fallback_triggered (md : SearchMetadata) : SearchMetadata :=
  {| plan_source := plan_source md; md_intent := md_intent md;
     subreddits_suggested := subreddits_suggested md;
     subreddits_validated := subreddits_validated md;
     subreddits_searched := subreddits_searched md;
     subreddits_yielded := subreddits_yielded md;
     total_queries_executed := total_queries_executed md;
     posts_before_dedup := posts_before_dedup md;
     posts_after_dedup := posts_after_dedup md;
     backfill_triggered := backfill_triggered md;
     global_fallback_triggered := true;
     warnings := warnings md |}.

(** The loop of [_collect]. *)
Fixpoint collect_loop (posts all : list Post) (seen : gset string) (added : Z)
    : list Post * gset string * Z :=
  match posts with
  | [] => (all, seen, added)
  | p :: rest =>
      if decide (post_id p ∈ seen) then collect_loop rest all seen added
      else collect_loop rest (all ++ [p]) ({[post_id p]} ∪ seen) (added + 1)
  end.

Section FanOut.

(** The environment: [_search_posts(session, query, sort, subreddit, limit)],
    the clock [time.monotonic()] in a fixed unit, and [_sleep()].  The clock
    is read off the world, and the world moves on at every search and every
    sleep. *)
Variable World : Type.
Variable search_posts : World -> string -> string -> option string -> Z -> list Post * World.
Variable monotonic : World -> Z.
Variable sleep : World -> World.

(** The arguments of [_fan_out_search]. *)
Variable plan : QueryPlan.
Variable post_limit : Z.
Variable sort : string.
Variable deadline : Z.

(** The local variables of [_fan_out_search], the metadata dictionary it
    mutates, the world, and the record of the run. *)
Record FanState := mkFanState {
  all_posts : list Post;
  seen_ids : gset string;
  yielding_subs : list string;
  queries_executed : Z;
  quote_retries : Z;
  search_metadata : SearchMetadata;
  world : World;
  trace : list Event
}.

Definition initial_state (md : SearchMetadata) (w : World) : FanState :=
  {| all_posts := []; seen_ids := ∅; yielding_subs := []; queries_executed := 0;
     quote_retries := 0; search_metadata := md; world := w; trace := [] |}.

(** [time.monotonic() > deadline] *)
Definition _timed_out (st : FanState) : bool := deadline <? monotonic (world st).

Definition num_posts (st : FanState) : Z := Z.of_nat (length (all_posts st)).

(** [_run_query(sub, query_str, limit)]; [phase] and [retry] only label the
    record of the call. *)
Definition _run_query (phase : Phase) (retry : bool) (sub : option string)
    (query_str : string) (limit : Z) (st : FanState) : list Post * FanState :=
  let sanitized := _sanitize_query query_str in
  if String.eqb sanitized "" then
    ([], {| all_posts := all_posts st; seen_ids := seen_ids st;
            yielding_subs := yielding_subs st;
            queries_executed := queries_executed st;
            quote_retries := quote_retries st;
            search_metadata := search_metadata st; world := world st;
            trace := trace st ++ [EvQuery phase retry sub query_str limit
                                    (monotonic (world st)) []] |})
  else
    let '(posts, w) := search_posts (world st) sanitized sort sub limit in
    (posts, {| all_posts := all_posts st; seen_ids := seen_ids st;
               yielding_subs := yielding_subs st;
               queries_executed := queries_executed st + 1;
               quote_retries := quote_retries st;
               search_metadata := search_metadata st; world := w;
               trace := trace st ++ [EvQuery phase retry sub query_str limit
                                       (monotonic (world st)) posts] |}).

(** [_collect(posts)] *)
Definition _collect (phase : Phase) (sub : option string) (posts : list Post)
    (st : FanState) : Z * FanState :=
  let '(all, seen, added) := collect_loop posts (all_posts st) (seen_ids st) 0 in
  (added, {| all_posts := all; seen_ids := seen;
             yielding_subs := yielding_subs st;
             queries_executed := queries_executed st;
             quote_retries := quote_retries st;
             search_metadata := search_metadata st; world := world st;
             trace := trace st ++ [EvCollect phase sub posts added] |}).

Definition _sleep (st : FanState) : FanState :=
  {| all_posts := all_posts st; seen_ids := seen_ids st;
     yielding_subs := yielding_subs st; queries_executed := queries_executed st;
     quote_retries := quote_retries st; search_metadata := search_metadata st;
     world := sleep (world st); trace := trace st |}.

Definition bump_quote_retries (st : FanState) : FanState :=
  {| all_posts := all_posts st; seen_ids := seen_ids st;
     yielding_subs := yielding_subs st; queries_executed := queries_executed st;
     quote_retries := quote_retries st + 1; search_metadata := search_metadata st;
     world := world st; trace := trace st |}.

Definition mark_yielding (sub : string) (st : FanState) : FanState :=
  {| all_posts := all_posts st; seen_ids := seen_ids st;
     yielding_subs := yielding_subs st ++ [sub];
     queries_executed := queries_executed st;
     quote_retries := quote_retries st; search_metadata := search_metadata st;
     world := world st; trace := trace st |}.

Definition with_metadata (f : SearchMetadata -> SearchMetadata) (st : FanState) : FanState :=
  {| all_posts := all_posts st; seen_ids := seen_ids st;
     yielding_subs := yielding_subs st; queries_executed := queries_executed st;
     quote_retries := quote_retries st; search_metadata := f (search_metadata st);
     world := world st; trace := trace st |}.

(** The query of a subreddit with its quote fallback (D5), as written in
    both phases: run the query; if it has quotes and returned nothing, run it
    once more without them. *)
Definition query_with_quote_fallback (phase : Phase) (sub : string)
    (query_str : string) (limit : Z) (st : FanState) : list Post * FanState :=
  let '(posts, st) := _run_query phase false (Some sub) query_str limit st in
  match posts with
  | [] =>
      if has_quote query_str then
        let stripped := strip_quotes query_str in
        let '(posts, st) := _run_query phase true (Some sub) stripped limit st in
        (posts, bump_quote_retries st)
      else (posts, st)
  | _ => (posts, st)
  end.

(** One query of a subreddit, its quote fallback, and [_collect] on what
    was found. *)
Definition scoped_visit (phase : Phase) (sub : string) (query_str : string)
    (limit : Z) (st : FanState) : Z * FanState :=
  let '(posts, st) := query_with_quote_fallback phase sub query_str limit st in
  _collect phase (Some sub) posts st.

(** One global query and [_collect] on what was found. *)
Definition global_visit (gq : string) (st : FanState) : Z * FanState :=
  let '(posts, st) :=
    _run_query GlobalFallback false None gq (post_limit - num_posts st) st in
  _collect GlobalFallback None posts st.

(** Phase 1 (breadth): the first query of every subreddit. *)
Fixpoint phase1 (per_query_limit : Z) (subs : list string) (st : FanState) : FanState :=
  match subs with
  | [] => st
  | sub :: rest =>
      if _timed_out st then
        with_metadata (fun md => add_warning md "Pipeline timeout during Phase 1 breadth") st
      else
        match queries_for_sub plan sub with
        | [] => phase1 per_query_limit rest st
        | first_query :: _ =>
            let '(new_count, st) :=
              scoped_visit Breadth sub first_query per_query_limit st in
            let st := if 0 <? new_count then mark_yielding sub st else st in
            phase1 per_query_limit rest (_sleep st)
        end
  end.

(** Phase 2 (depth): the inner loop over [queries[1:]] and the outer loop
    over [yielding_subs]. *)
Fixpoint phase2_queries (per_query_limit : Z) (sub : string) (queries : list string)
    (st : FanState) : FanState :=
  match queries with
  | [] => st
  | query_str :: rest =>
      if (post_limit <=? num_posts st) || _timed_out st then st
      else
        let '(_, st) := scoped_visit Depth sub query_str per_query_limit st in
        phase2_queries per_query_limit sub rest (_sleep st)
  end.

Fixpoint phase2_subs (per_query_limit : Z) (subs : list string) (st : FanState) : FanState :=
  match subs with
  | [] => st
  | sub :: rest =>
      if (post_limit <=? num_posts st) || _timed_out st then st
      else
        let queries := queries_for_sub plan sub in
        phase2_subs per_query_limit rest
          (phase2_queries per_query_limit sub (drop 1 queries) st)
  end.

Definition phase2 (per_query_limit : Z) (st : FanState) : FanState :=
  if (num_posts st <? post_limit) && negb (bool_decide (yielding_subs st = []))
  then phase2_subs per_query_limit (yielding_subs st) st
  else st.

(** The global fallback loop over [plan.global_queries]. *)
Fixpoint global_loop (queries : list string) (st : FanState) : FanState :=
  match queries with
  | [] => st
  | gq :: rest =>
      if (post_limit <=? num_posts st) || _timed_out st then st
      else
        let '(_, st) := global_visit gq st in
        global_loop rest (_sleep st)
  end.

Definition global_fallback (threshold : Z) (st : FanState) : FanState :=
  if (num_posts st <? threshold) && negb (_timed_out st) then
    global_loop (global_queries plan) (with_metadata set_global_fallback_triggered st)
  else st.

(** [per_query_limit = max(2, min(5, post_limit // max(num_subs, 1)))] *)
Definition per_query_limit : Result Z :=
  let num_subs := Z.of_nat (length (subreddits plan)) in
  match py_floordiv post_limit (Z.max num_subs 1) with
  | Ok q => Ok (Z.max 2 (Z.min 5 q))
  | Raise e => Raise e
  end.

(** The state after both phases and the metadata assignments that follow
    each of them. *)
Definition after_phases (pql : Z) (md : SearchMetadata) (w : World) : FanState :=
  let st := phase1 pql (subreddits plan) (initial_state md w) in
  let st := with_metadata (fun md =>
              set_phase1_counts md (Z.of_nat (length (subreddits plan)))
                                   (Z.of_nat (length (yielding_subs st)))) st in
  let st := phase2 pql st in
  with_metadata (fun md =>
    set_phase2_counts md (queries_executed st) (num_posts st)) st.

(** [_fan_out_search]: the returned list, with the final state. *)
Definition _fan_out_search (md : SearchMetadata) (w : World)
    : Result (list Post * FanState) :=
  match per_query_limit with
  | Raise e => Raise e
  | Ok pql =>
      let st := after_phases pql md w in
      match py_floordiv post_limit 4 with
      | Raise e => Raise e
      | Ok q =>
          let threshold := Z.max 5 q in
          let st := global_fallback threshold st in
          Ok (py_slice_to (all_posts st) post_limit, st)
      end
  end.

End FanOut.

Arguments all_posts {World} _.
Arguments seen_ids {World} _.
Arguments yielding_subs {World} _.
Arguments queries_executed {World} _.
Arguments quote_retries {World} _.
Arguments search_metadata {World} _.
Arguments world {World} _.
Arguments trace {World} _.
Arguments mkFanState {World} _ _ _ _ _ _ _ _.

(** ** 6. String primitives used by the plan builders

    As for the sanitizer, the text is ASCII: [str.lower()] maps [A-Z] to
    [a-z], and [str.split()] and [str.strip()] take the whitespace of
    [is_space]. *)

Definition lower_char (c : ascii) : ascii :=
  let n := N_of_ascii c in
  if ((65 <=? n) && (n <=? 90))%N then ascii_of_N (n + 32) else c.

(** [s.lower()] *)
Definition py_lower (s : string) : string :=
  string_of_list_ascii (map lower_char (list_ascii_of_string s)).

(** [s.strip()] *)
Definition py_strip (s : string) : string :=
  string_of_list_ascii (strip (list_ascii_of_string s)).

(** The scanner of [str.split()]: [word] holds the characters of the word
    being read; a whitespace character ends it, and empty words are not
    produced. *)
Fixpoint split_from (word : chars) (s : chars) : list chars :=
  match s with
  | [] => match word with [] => [] | _ => [word] end
  | c :: t =>
      if is_space c then
        match word with
        | [] => split_from [] t
        | _ => word :: split_from [] t
        end
      else split_from (word ++ [c]) t
  end.

(** [s.split()] *)
Definition py_split (s : string) : list string :=
  string_of_list_ascii <$> split_from [] (list_ascii_of_string s).

(** [sep.join(parts)] *)
Fixpoint py_join (sep : string) (parts : list string) : string :=
  match parts with
  | [] => ""
  | [x] => x
  | x :: rest => x +:+ sep +:+ py_join sep rest
  end.

(** The f-string that puts [t] between double quotes. *)
Definition in_quotes (t : string) : string :=
  String dquote (t +:+ String dquote EmptyString).

(** [" OR ".join(f'"{t}"' for t in terms)] *)
Definition or_of_quoted (terms : list string) : string :=
  py_join " OR " (in_quotes <$> terms).

(** [list(dict.fromkeys(items))]: the first occurrence of every item, in
    order; [seen] holds the keys already in the dictionary. *)
Fixpoint fromkeys (seen : list string) (items : list string) : list string :=
  match items with
  | [] => []
  | x :: rest =>
      if bool_decide (x ∈ seen) then fromkeys seen rest
      else x :: fromkeys (x :: seen) rest
  end.

(** [max(x :: rest, key=len)]: the first of the longest items; [best] is
    the longest seen so far. *)
Fixpoint max_by_len (best : string) (rest : list string) : string :=
  match rest with
  | [] => best
  | w :: t =>
      if (String.length best <? String.length w)%nat then max_by_len w t
      else max_by_len best t
  end.

(** ** 7. Search configurations and the plan builders *)

(** [SearchConfig] of reddit_scout.py *)
Record SearchConfig := mkSearchConfig {
  sc_mode : string;
  sc_query : string;
  sc_sort : string
}.

(** [mode_to_search] of reddit_scout.py.  The two literals with quoted
    terms are written with [or_of_quoted]. *)
Definition mode_to_search (topic mode : string) : SearchConfig :=
  let topic := py_strip topic in
  if String.eqb mode "pain" then
    {| sc_mode := mode;
       sc_query := "(" +:+ topic +:+ ") ("
                   +:+ or_of_quoted ["help"; "issue"; "stuck"; "fail"] +:+ ")";
       sc_sort := "comments" |}
  else if String.eqb mode "market" then
    {| sc_mode := mode;
       sc_query := "(" +:+ topic +:+ ") ("
                   +:+ or_of_quoted ["price"; "cost"; "vs"; "alternative"] +:+ ")";
       sc_sort := "relevance" |}
  else {| sc_mode := mode; sc_query := topic; sc_sort := "hot" |}.

Definition _SENTIMENT_WORDS : list string :=
  ["frustration"; "frustrated"; "frustrating"; "problem"; "problems";
   "issue"; "issues"; "help"; "struggling"; "stuck"; "fail"; "failure";
   "pain"; "painful"; "annoying"; "annoyed"; "broken"; "hate"; "worst";
   "terrible"; "awful"; "rant"; "vent"; "complaint"; "disappointed"].

Definition _PAIN_SEARCH_TERMS : list string :=
  ["frustrated"; "frustrating"; "struggling"; "problem"; "issue";
   "rant"; "vent"; "help"; "stuck"; "fail"; "worst"; "disappointed"].

Definition _MARKET_SEARCH_TERMS : list string :=
  ["price"; "cost"; "vs"; "alternative"; "compare"; "switch";
   "recommend"; "better than"; "moved from"; "migrate"].

(** [_build_sub_query] *)
Definition _build_sub_query (topic mode : string) : string :=
  let words := py_split (py_lower topic) in
  let topic_words :=
    List.filter (fun w => negb (bool_decide (w ∈ _SENTIMENT_WORDS))) words in
  let sentiment_from_topic :=
    List.filter (fun w => bool_decide (w ∈ _SENTIMENT_WORDS)) words in
  if String.eqb mode "pain" then
    let pain_terms := fromkeys [] (sentiment_from_topic ++ _PAIN_SEARCH_TERMS) in
    let pain_or := or_of_quoted pain_terms in
    match topic_words with
    | w :: ws => max_by_len w ws +:+ " (" +:+ pain_or +:+ ")"
    | [] => pain_or
    end
  else if String.eqb mode "market" then
    let market_or := or_of_quoted _MARKET_SEARCH_TERMS in
    match topic_words with
    | w :: ws => max_by_len w ws +:+ " (" +:+ market_or +:+ ")"
    | [] => market_or
    end
  else
    match topic_words with
    | _ :: _ => py_join " OR " topic_words
    | [] => topic
    end.

(** [_build_fallback_query_plan]: the subreddits and their queries are
    filled in by the caller. *)
Definition _build_fallback_query_plan (topic mode : string) : QueryPlan :=
  let search_config := mode_to_search topic mode in
  {| intent := topic;
     subreddits := [];
     sub_queries := ∅;
     global_queries := [sc_query search_config];
     mode := mode;
     source := "fallback" |}.

(** [_build_user_specified_plan] *)
Definition _build_user_specified_plan (topic mode subreddit : string) : QueryPlan :=
  let search_config := mode_to_search topic mode in
  let sub_query := _build_sub_query topic mode in
  let queries :=
    if negb (String.eqb sub_query (sc_query search_config))
    then [sc_query search_config; sub_query]
    else [sc_query search_config] in
  {| intent := topic;
     subreddits := [subreddit];
     sub_queries := {[ subreddit := queries ]};
     global_queries := [sc_query search_config];
     mode := mode;
     source := "user_specified" |}.

(** ** 8. Keywords and relevance scores of the subreddit discovery *)

Definition stopwords : list string :=
  ["a"; "an"; "the"; "is"; "of"; "for"; "in"; "on"; "to"; "and"; "or"; "my"; "with"].

(** [_query_keywords] *)
Definition _query_keywords (query : string) : list string :=
  py_lower <$>
    List.filter (fun w => (2 <? String.length w)%nat
                          && negb (bool_decide (py_lower w ∈ stopwords)))
                (py_split query).

(** [_relevance_score] *)
Definition _relevance_score (name description : string) (keywords : list string) : Z :=
  let text := py_lower (name +:+ " " +:+ description) in
  Z.of_nat (length (List.filter (fun kw => str_contains kw text) keywords)).

(** ** 9. Ranking and selection: the last stage of [find_subreddits] *)

(** An item of [scored.items()]: the name and its tuple
    [(subscribers, relevance score, description)]. *)
Record Scored := mkScored {
  sd_name : string;
  sd_subs : Z;
  sd_score : Z;
  sd_desc : string
}.

(** The sort key [(x[1][1], x[1][0])] and the order of Python tuples on it. *)
Definition rank_key (x : Scored) : Z * Z := (sd_score x, sd_subs x).

Definition key_ltb (a b : Z * Z) : bool :=
  (a.1 <? b.1) || ((a.1 =? b.1) && (a.2 <? b.2)).

(** [sorted(scored.items(), key=..., reverse=True)]: descending in the key,
    and stable, so items with equal keys keep the order they had. *)
Fixpoint insert_ranked (x : Scored) (l : list Scored) : list Scored :=
  match l with
  | [] => [x]
  | y :: t =>
      if key_ltb (rank_key x) (rank_key y) then y :: insert_ranked x t
      else x :: y :: t
  end.

Definition sorted_desc (items : list Scored) : list Scored :=
  foldr insert_ranked [] items.

(** The first loop over [ranked]: at most [niche_slots] subreddits with
    fewer than 1000 subscribers are taken. *)
Fixpoint select_loop (max_subs niche_slots : Z) (ranked : list Scored)
    (selected : list string) (niche_count : Z) : list string :=
  match ranked with
  | [] => selected
  | x :: rest =>
      if max_subs <=? Z.of_nat (length selected) then selected
      else if sd_subs x <? 1000 then
        if niche_count <? niche_slots
        then select_loop max_subs niche_slots rest (selected ++ [sd_name x])
               (niche_count + 1)
        else select_loop max_subs niche_slots rest selected niche_count
      else select_loop max_subs niche_slots rest (selected ++ [sd_name x]) niche_count
  end.

(** The backfill loop, entered when slots are left. *)
Fixpoint backfill_loop (max_subs : Z) (ranked : list Scored) (selected : list string)
    : list string :=
  match ranked with
  | [] => selected
  | x :: rest =>
      if bool_decide (sd_name x ∈ selected) then backfill_loop max_subs rest selected
      else
        let selected := selected ++ [sd_name x] in
        if max_subs <=? Z.of_nat (length selected) then selected
        else backfill_loop max_subs rest selected
  end.

(** [find_subreddits] from [if not scored] to its [return]: [scored] is
    the list of the items of the dictionary, in insertion order. *)
Definition rank_and_select (scored : list Scored) (max_subs : Z) : list string :=
  match scored with
  | [] => []
  | _ =>
      let ranked := sorted_desc scored in
      let niche_slots := Z.max (max_subs / 4) 1 in
      let selected := select_loop max_subs niche_slots ranked [] 0 in
      if Z.of_nat (length selected) <? max_subs
      then backfill_loop max_subs ranked selected
      else selected
  end.

(** ** 10. Listings: [_parse_posts], [_search_posts] and [_fetch_comments] *)

Definition _BASE_URL : string := "https://www.reddit.com".

Definition _MAX_PER_PAGE : Z := 100.

(** [DEFAULT_COMMENT_LIMIT] of reddit_scout.py *)
Definition DEFAULT_COMMENT_LIMIT : Z := 5.

(** A comment in the schema built by [_fetch_comments]. *)
Record Comment := mkComment {
  cm_author : string;
  cm_score : Z;
  cm_body : string;
  cm_permalink : string
}.

(** A child of a search listing as [_parse_posts] reads it:
    [child.get("kind")], and of [d = child.get("data", {})] the values
    [d.get("id", "")], [d.get("subreddit", "")], [d.get("permalink", "")],
    [d.get("url", "")] (a null as the empty string), [d.get("title", "")],
    [d.get("selftext", "") or ""], [d.get("upvote_ratio")],
    [int(d.get("score", 0) or 0)], [int(d.get("num_comments", 0) or 0)]
    and [float(d.get("created_utc", 0) or 0)]. *)
Record Child := mkChild {
  ch_kind : option string;
  ch_id : string;
  ch_subreddit : string;
  ch_permalink : string;
  ch_url : string;
  ch_title : string;
  ch_selftext : string;
  ch_upvote_ratio : option float;
  ch_score : Z;
  ch_num_comments : Z;
  ch_created_utc : float
}.

(** A decoded listing: [data["data"]["children"]] and
    [data["data"]["after"]]. *)
Record Listing := mkListing {
  li_children : list Child;
  li_after : option string
}.

(** A post dictionary as [_parse_posts] builds it, with all its keys. *)
Record PostDict := mkPostDict {
  pd_source : string;
  pd_id : string;
  pd_subreddit : string;
  pd_title : string;
  pd_thread_url : string;
  pd_url : string;
  pd_body_text : string;
  pd_upvote_ratio : option float;
  pd_score : Z;
  pd_num_comments : Z;
  pd_created_utc : float;
  pd_top_comments : list Comment
}.

(** The truth value of a string. *)
Definition nonempty (s : string) : bool :=
  match s with
  | EmptyString => false
  | String _ _ => true
  end.

(** The dictionary appended for a child of kind [t3]. *)
Definition post_of_child (child : Child) : PostDict :=
  let permalink := ch_permalink child in
  let thread_url := if nonempty permalink then _BASE_URL +:+ permalink else "" in
  let link_url := if nonempty (ch_url child) then ch_url child else thread_url in
  {| pd_source := "reddit_noapi";
     pd_id := ch_id child;
     pd_subreddit := ch_subreddit child;
     pd_title := ch_title child;
     pd_thread_url := thread_url;
     pd_url := link_url;
     pd_body_text := ch_selftext child;
     pd_upvote_ratio := ch_upvote_ratio child;
     pd_score := ch_score child;
     pd_num_comments := ch_num_comments child;
     pd_created_utc := ch_created_utc child;
     pd_top_comments := [] |}.

(** [child.get("kind") != kind] *)
Definition kind_is (kind : string) (k : option string) : bool :=
  match k with
  | Some s => String.eqb s kind
  | None => false
  end.

(** The loop of [_parse_posts] over the children. *)
Fixpoint parse_children (children : list Child) : list PostDict :=
  match children with
  | [] => []
  | child :: rest =>
      if negb (kind_is "t3" (ch_kind child)) then parse_children rest
      else post_of_child child :: parse_children rest
  end.

(** [_parse_posts]: [None] stands for a response that is empty or not a
    dictionary. *)
Definition _parse_posts (data : option Listing) : list PostDict :=
  match data with
  | None => []
  | Some listing => parse_children (li_children listing)
  end.

(** The request of one page: the endpoint ([/r/{subreddit}/search.json]
    with [restrict_sr=on], or [/search.json]) and the parameters [q],
    [sort], [limit] and [after]; the parameter [t] is always [month]. *)
Record SearchRequest := mkSearchRequest {
  rq_subreddit : option string;
  rq_q : string;
  rq_sort : string;
  rq_limit : Z;
  rq_after : option string
}.

(** The inner loop of [_search_posts] over the posts of a page. *)
Fixpoint add_page (limit : Z) (page_posts collected : list PostDict)
    (seen_ids : gset string) : list PostDict * gset string :=
  match page_posts with
  | [] => (collected, seen_ids)
  | post :: rest =>
      if decide (pd_id post ∈ seen_ids) then add_page limit rest collected seen_ids
      else
        let seen_ids := {[pd_id post]} ∪ seen_ids in
        let collected := collected ++ [post] in
        if limit <=? Z.of_nat (length collected) then (collected, seen_ids)
        else add_page limit rest collected seen_ids
  end.

(** The truth value of [str | None]. *)
Definition given (s : option string) : option string :=
  match s with
  | Some (String c t) => Some (String c t)
  | _ => None
  end.

Section Pagination.

Variable World : Type.

(** [_fetch_json(session, url, params=params)] for a search page, read as a
    listing: [None] is the [None] of a failed request.  [sleep] is
    [_sleep()]. *)
Variable fetch_listing : World -> SearchRequest -> option Listing * World.
Variable sleep : World -> World.

(** The local variables of [_search_posts], the world, and the record of
    the requests made with their answers. *)
Record Pager := mkPager {
  pg_collected : list PostDict;
  pg_after : option string;
  pg_seen_ids : gset string;
  pg_world : World;
  pg_pages : list (SearchRequest * option Listing)
}.

(** The [while] loop.  It need not end, so the model counts the turns it
    may take: [None] means that [fuel] turns were not enough. *)
Fixpoint search_loop (fuel : nat) (query sort : string) (subreddit : option string)
    (limit : Z) (st : Pager) : option Pager :=
  if limit <=? Z.of_nat (length (pg_collected st)) then Some st
  else
    match fuel with
    | O => None
    | S fuel =>
        let page_size := Z.min _MAX_PER_PAGE (limit - Z.of_nat (length (pg_collected st))) in
        let request :=
          {| rq_subreddit := given subreddit; rq_q := query; rq_sort := sort;
             rq_limit := page_size; rq_after := given (pg_after st) |} in
        let '(data, w) := fetch_listing (pg_world st) request in
        let pages := pg_pages st ++ [(request, data)] in
        match data with
        | None =>
            Some {| pg_collected := pg_collected st; pg_after := pg_after st;
                    pg_seen_ids := pg_seen_ids st; pg_world := w; pg_pages := pages |}
        | Some listing =>
            match _parse_posts data with
            | [] =>
                Some {| pg_collected := pg_collected st; pg_after := pg_after st;
                        pg_seen_ids := pg_seen_ids st; pg_world := w; pg_pages := pages |}
            | page_posts =>
                let '(collected, seen_ids) :=
                  add_page limit page_posts (pg_collected st) (pg_seen_ids st) in
                let after := li_after listing in
                match given after with
                | None =>
                    Some {| pg_collected := collected; pg_after := after;
                            pg_seen_ids := seen_ids; pg_world := w; pg_pages := pages |}
                | Some _ =>
                    search_loop fuel query sort subreddit limit
                      {| pg_collected := collected; pg_after := after;
                         pg_seen_ids := seen_ids; pg_world := sleep w;
                         pg_pages := pages |}
                end
            end
        end
    end.

(** [_search_posts(session, query, sort, subreddit, limit)] *)
Definition _search_posts (fuel : nat) (w : World) (query sort : string)
    (subreddit : option string) (limit : Z) : option Pager :=
  search_loop fuel query sort subreddit limit
    {| pg_collected := []; pg_after := None; pg_seen_ids := ∅; pg_world := w;
       pg_pages := [] |}.

End Pagination.

Arguments pg_collected {World} _.
Arguments pg_after {World} _.
Arguments pg_seen_ids {World} _.
Arguments pg_world {World} _.
Arguments pg_pages {World} _.
Arguments mkPager {World} _ _ _ _ _.

(** A child of a comment listing as [_fetch_comments] reads it:
    [child.get("kind")], and of [cd = child.get("data", {})] the values
    [cd.get("author")], [int(cd.get("score", 0) or 0)],
    [cd.get("body", "") or ""] and [cd.get("permalink", "")]. *)
Record CommentChild := mkCommentChild {
  cc_kind : option string;
  cc_author : option string;
  cc_score : Z;
  cc_body : string;
  cc_permalink : string
}.

(** The dictionary appended for a child of kind [t1]. *)
Definition comment_of_child (child : CommentChild) : Comment :=
  {| cm_author := match given (cc_author child) with
                  | Some a => a
                  | None => "[deleted]"
                  end;
     cm_score := cc_score child;
     cm_body := cc_body child;
     cm_permalink := if nonempty (cc_permalink child)
                     then _BASE_URL +:+ cc_permalink child else "" |}.

(** The loop of [_fetch_comments] over the children. *)
Fixpoint comments_loop (limit : Z) (children : list CommentChild) (comments : list Comment)
    : list Comment :=
  match children with
  | [] => comments
  | child :: rest =>
      if negb (kind_is "t1" (cc_kind child)) then comments_loop limit rest comments
      else
        let comments := comments ++ [comment_of_child child] in
        if limit <=? Z.of_nat (length comments) then comments
        else comments_loop limit rest comments
  end.

(** [_fetch_comments] after the request: [data] is the decoded response
    read as a list of listings, each given by its children; [None] stands
    for a response that is empty or not a list. *)
Definition comments_of_response (data : option (list (list CommentChild))) (limit : Z)
    : list Comment :=
  match data with
  | Some (_ :: comments_listing :: _) => comments_loop limit comments_listing []
  | _ => []
  end.

Section Comments.

Variable World : Type.

(** [_fetch_json(session, url, params)] for the comments of a post, with
    the subreddit, the post and the [limit] parameter of the request. *)
Variable fetch_thread :
  World -> string -> string -> Z -> option (list (list CommentChild)) * World.

(** [_fetch_comments(session, subreddit, post_id, limit)] *)
Definition _fetch_comments (w : World) (subreddit post_id : string) (limit : Z)
    : list Comment * World :=
  let '(data, w) := fetch_thread w subreddit post_id limit in
  (comments_of_response data limit, w).

End Comments.

(** ** 11. The public entry point: [fetch_posts_noapi] *)

Definition _PIPELINE_TIMEOUT_S : Z := 360.

(** The assignments to [plan_source], [intent], [subreddits_suggested] and
    [subreddits_validated] of the planning step. *)
Definition set_planning (md : SearchMetadata) (source intent : string)
    (suggested validated : Z) : SearchMetadata :=
  {| plan_source := source; md_intent := intent;
     subreddits_suggested := suggested;
     subreddits_validated := validated;
     subreddits_searched := subreddits_searched md;
     subreddits_yielded := subreddits_yielded md;
     total_queries_executed := total_queries_executed md;
     posts_before_dedup := posts_before_dedup md;
     posts_after_dedup := posts_after_dedup md;
     backfill_triggered := backfill_triggered md;
     global_fallback_triggered := global_fallback_triggered md;
     warnings := warnings md |}.

Definition set_posts_after_dedup (md : SearchMetadata) (n : Z) : SearchMetadata :=
  {| plan_source := plan_source md; md_intent := md_intent md;
     subreddits_suggested := subreddits_suggested md;
     subreddits_validated := subreddits_validated md;
     subreddits_searched := subreddits_searched md;
     subreddits_yielded := subreddits_yielded md;
     total_queries_executed := total_queries_executed md;
     posts_before_dedup := posts_before_dedup md;
     posts_after_dedup := n;
     backfill_triggered := backfill_triggered md;
     global_fallback_triggered := global_fallback_triggered md;
     warnings := warnings md |}.

(** The assignments to [plan.subreddits] and [plan.sub_queries]: the other
    fields of the plan stay as they are. *)
Definition with_subreddits (plan : QueryPlan) (subs : list string)
    (queries : gmap string (list string)) : QueryPlan :=
  {| intent := intent plan;
     subreddits := subs;
     sub_queries := queries;
     global_queries := global_queries plan;
     mode := mode plan;
     source := source plan |}.

Section Pipeline.

(** The environment.  [llm_response] is the call of the language model
    with the decoding of its answer: [None] when the model is disabled,
    unavailable, times out, fails, or answers with something that is not a
    JSON object.  [find_subreddits] is the keyword discovery, left
    abstract.  The other functions are those of the earlier sections; the
    clock counts [ticks_per_second] ticks a second, and [seconds_text]
    renders an elapsed time as the format [.0f] does. *)
Variable World : Type.
Variable llm_response : World -> string -> string -> option ParsedPlan * World.
Variable find_subreddits : World -> string -> list string * World.
Variable fetch_about : World -> string -> option About * World.
Variable search_posts : World -> string -> string -> option string -> Z -> list Post * World.
Variable fetch_thread :
  World -> string -> string -> Z -> option (list (list CommentChild)) * World.
Variable monotonic : World -> Z.
Variable sleep : World -> World.
Variable ticks_per_second : Z.
Variable seconds_text : Z -> string.

(** The fallback branch: the keyword plan, the discovered subreddits, and
    the lighter query for each of them. *)
Definition fallback_plan (topic mode : string) (md : SearchMetadata) (w : World)
    : QueryPlan * SearchMetadata * World :=
  let plan := _build_fallback_query_plan topic mode in
  let '(subs, w) := find_subreddits w topic in
  let md := set_planning md "fallback" topic (Z.of_nat (length subs))
              (subreddits_validated md) in
  let sub_query := _build_sub_query topic mode in
  (with_subreddits plan subs
     (fold_left (fun sq sub => <[sub := [sub_query]]> sq) subs (sub_queries plan)),
   md, w).

(** Step 1: build the query plan. *)
Definition plan_stage (topic : string) (subreddit : option string) (mode : string)
    (md : SearchMetadata) (w : World) : QueryPlan * SearchMetadata * World :=
  match given subreddit with
  | Some s =>
      (_build_user_specified_plan topic mode s,
       set_planning md "user_specified" topic 1 1, w)
  | None =>
      let '(parsed, w) := llm_response w topic mode in
      match _parse_query_plan parsed mode with
      | None => fallback_plan topic mode md w
      | Some plan =>
          let '(plan, md, vst) :=
            llm_validation_pass World fetch_about sleep plan md (mkVState w []) in
          (plan, md, v_world vst)
      end
  end.

(** The state of step 4: the world, the metadata, and the record of the
    comment requests made (subreddit, post, clock at the check). *)
Record CommentStage := mkCommentStage {
  cs_world : World;
  cs_metadata : SearchMetadata;
  cs_fetched : list (string * string * Z)
}.

Definition comment_timeout_warning (elapsed : Z) : string :=
  "Pipeline timeout at " +:+ seconds_text elapsed +:+ "s during comment fetch".

(** Step 4: the loop over the posts.  A post is paired with its
    [top_comments], empty until they are fetched. *)
Fixpoint comment_loop (pipeline_start deadline : Z) (posts : list Post)
    (st : CommentStage) : list (Post * list Comment) * CommentStage :=
  match posts with
  | [] => ([], st)
  | post :: rest =>
      if deadline <? monotonic (cs_world st) then
        let elapsed := monotonic (cs_world st) - pipeline_start in
        ((fun p => (p, [])) <$> post :: rest,
         {| cs_world := cs_world st;
            cs_metadata := add_warning (cs_metadata st) (comment_timeout_warning elapsed);
            cs_fetched := cs_fetched st |})
      else if negb (nonempty (post_id post)) || negb (nonempty (post_subreddit post)) then
        let '(done, st) := comment_loop pipeline_start deadline rest st in
        ((post, []) :: done, st)
      else
        let '(comments, w) :=
          _fetch_comments World fetch_thread (cs_world st) (post_subreddit post)
            (post_id post) DEFAULT_COMMENT_LIMIT in
        let st :=
          {| cs_world := sleep w; cs_metadata := cs_metadata st;
             cs_fetched := cs_fetched st
                           ++ [(post_subreddit post, post_id post,
                                monotonic (cs_world st))] |} in
        let '(done, st) := comment_loop pipeline_start deadline rest st in
        ((post, comments) :: done, st)
  end.

(** What a call leaves behind: the posts returned with their comments, and
    beside them the plan that was searched, the final state of the engine,
    the metadata that is logged, the elapsed time in ticks, the record of
    the comment requests and the world. *)
Record Outcome := mkOutcome {
  out_posts : list (Post * list Comment);
  out_plan : QueryPlan;
  out_engine : FanState World;
  out_metadata : SearchMetadata;
  out_elapsed : Z;
  out_fetched : list (string * string * Z);
  out_world : World
}.

(** [fetch_posts_noapi(topic, subreddit, mode, post_limit)] *)
Definition fetch_posts_noapi (topic : string) (subreddit : option string) (mode : string)
    (post_limit : Z) (w : World) : Result Outcome :=
  let pipeline_start := monotonic w in
  let deadline := pipeline_start + _PIPELINE_TIMEOUT_S * ticks_per_second in
  let '(plan, md, w) := plan_stage topic subreddit mode initial_metadata w in
  let sort := sc_sort (mode_to_search topic mode) in
  match _fan_out_search World search_posts monotonic sleep plan post_limit sort deadline
          md w with
  | Raise e => Raise e
  | Ok (all_posts, engine) =>
      let '(posts, st) :=
        comment_loop pipeline_start deadline all_posts
          {| cs_world := world engine; cs_metadata := search_metadata engine;
             cs_fetched := [] |} in
      let elapsed := monotonic (cs_world st) - pipeline_start in
      Ok {| out_posts := posts;
            out_plan := plan;
            out_engine := engine;
            out_metadata := set_posts_after_dedup (cs_metadata st)
                              (Z.of_nat (length all_posts));
            out_elapsed := elapsed;
            out_fetched := cs_fetched st;
            out_world := cs_world st |}
  end.

End Pipeline.

Arguments cs_world {World} _.
Arguments cs_metadata {World} _.
Arguments cs_fetched {World} _.
Arguments mkCommentStage {World} _ _ _.
Arguments out_posts {World} _.
Arguments out_plan {World} _.
Arguments out_engine {World} _.
Arguments out_metadata {World} _.
Arguments out_elapsed {World} _.
Arguments out_fetched {World} _.
Arguments out_world {World} _.

(* ===================================================================== *)
(** * Part II.  Specification vocabulary                                *)
(* ===================================================================== *)

(** ** Sanitized queries *)

(** Predicates used to describe the sanitizer's results. *)
(** no position of [s] matches [\bAND\b] *)
Fixpoint no_and (pw : bool) (s : chars) : bool :=
  match s with
  | [] => true
  | c :: t => negb (fires pw s) && no_and (is_word c) t
  end.

Definition no_paren (s : chars) : bool := forallb (fun c => negb (is_paren c)) s.

(** every whitespace character of [s] is a single space standing alone *)
Fixpoint norm_ws (in_ws : bool) (s : chars) : bool :=
  match s with
  | [] => true
  | c :: t =>
      if is_space c
      then negb in_ws && Ascii.eqb c " "%char && norm_ws true t
      else norm_ws false t
  end.

Definition head_is_space (s : chars) : bool :=
  match s with
  | [] => false
  | c :: _ => is_space c
  end.

Definition has_paren (q : string) : bool :=
  negb (no_paren (list_ascii_of_string q)).

(** The string contains the standalone token [AND]. *)
Definition has_and_token (q : string) : bool :=
  negb (no_and false (list_ascii_of_string q)).

(** [sanitized s]: no parenthesis, whitespace reduced to single inner
    spaces; these are the strings the last two passes leave unchanged. *)
Definition sanitized (s : chars) : Prop :=
  no_paren s = true /\ norm_ws false s = true
  /\ head_is_space s = false /\ rstrip s = s.

(** The property as stated: idempotent on every query, and no [AND] token
    and no parenthesis left in any result. *)
Definition sanitize_claim : Prop :=
  forall q : string,
    _sanitize_query (_sanitize_query q) = _sanitize_query q
    /\ has_and_token (_sanitize_query q) = false
    /\ has_paren (_sanitize_query q) = false.

(** ** Guarded plans *)

(** The queries the guard leaves for [sub], given the decoded mapping. *)
Definition guarded (global_queries : list string) (intent : string)
    (sq : gmap string (list string)) (sub : string) : list string :=
  match sq !! sub with
  | Some (q :: qs) => q :: qs
  | _ => guard_default global_queries intent
  end.

(** A subreddit "has no queries" in the decoded plan. *)
Definition lacks_queries (sq : gmap string (list string)) (sub : string) : Prop :=
  sq !! sub = None \/ sq !! sub = Some [].

(** The property as stated: a listed subreddit without queries of its own
    ends up with the plan's global queries (which are [[intent]] when the
    response had none). *)
Definition guard_claim : Prop :=
  forall parsed mode plan sub,
    _parse_query_plan (Some parsed) mode = Some plan ->
    sub ∈ subreddits plan ->
    lacks_queries (p_sub_queries parsed) sub ->
    sub_queries plan !! sub = Some (global_queries plan).

(** ** The network seen by the fetch client *)

(** The trace of a call that was rate-limited [k] times. *)
Definition backoff_trace (url : string) (k : nat) : list NetEvent :=
  flat_map (fun d => [EvGet url; EvSleep d]) (take k _429_BACKOFF_DELAYS)
  ++ [EvGet url].

Section FetchSpec.

Variable World : Type.
Variable Json : Type.
Variable session_get :
  World -> string -> option (list (string * string)) -> Result (Response Json) * World.

(** The documented contract of [requests]: every exception raised by
    [session.get] is a [RequestException]. *)
Definition get_contract : Prop :=
  forall w url params e w',
    session_get w url params = (Raise e, w') -> e = RequestException.

(** With every answer an HTTP 429, the whole schedule is used up and the
    call returns [None]. *)
Definition always_429 : Prop :=
  forall w url params, exists resp w',
    session_get w url params = (Ok resp, w') /\ status_code resp = 429.

End FetchSpec.

(** ** Answers to the existence checks *)

(** What an answer adds to [valid]: the display name and the subscriber
    count of an existing ([kind == "t5"]) subreddit that is not over 18. *)
Definition accepted (name : string) (data : option About) : option (string * Z) :=
  match data with
  | Some d =>
      if String.eqb (ab_kind d) "t5" then
        let display := default name (ab_display_name d) in
        let subscribers := ab_subscribers d in
        if negb (ab_over18 d) then Some (display, subscribers) else None
      else None
  | None => None
  end.

Definition record_answer (valid : gmap string Z) (answer : string * option About)
    : gmap string Z :=
  match accepted answer.1 answer.2 with
  | Some (display, subscribers) => <[display := subscribers]> valid
  | None => valid
  end.

Definition is_accepted (answer : string * option About) : bool :=
  match accepted answer.1 answer.2 with Some _ => true | None => false end.

Definition count_accepted (answers : list (string * option About)) : nat :=
  length (List.filter is_accepted answers).

Section ValidationSpec.

Variable World : Type.
Variable fetch_about : World -> string -> option About * World.
Variable sleep : World -> World.

(** The answers the loop receives, in order. *)
Fixpoint about_answers (names : list string) (w : World) : list (string * option About) :=
  match names with
  | [] => []
  | name :: rest =>
      let '(data, w') := fetch_about w name in
      (name, data) :: about_answers rest (sleep w')
  end.

End ValidationSpec.

(** The comparison [fail_rate > 0.30] in binary64, on every pair the pass
    can meet: at most 20 checks, and at most as many validated names. *)
Definition fail_rate_table_ok : bool :=
  forallb (fun c =>
    forallb (fun v =>
      implb (3 * c <? 10 * (c - v))%nat
            (fail_rate_high (Z.of_nat v) (Z.of_nat c)))
      (seq 0 (S c)))
    (seq 1 20).

(** ** Traces of the fan-out engine *)

(** The posts handed to [_collect], in order. *)
Definition collected (tr : list Event) : list Post :=
  flat_map (fun e => match e with
                     | EvCollect _ _ posts _ => posts
                     | EvQuery _ _ _ _ _ _ _ => []
                     end) tr.

(** The sum of the counts returned by [_collect]. *)
Definition total_added (tr : list Event) : Z :=
  foldr (fun e acc => match e with
                      | EvCollect _ _ _ added => added + acc
                      | EvQuery _ _ _ _ _ _ _ => acc
                      end) 0 tr.

(** The subreddits whose Phase 1 [_collect] returned a positive count. *)
Definition yielded (tr : list Event) : list string :=
  flat_map (fun e => match e with
                     | EvCollect Breadth (Some s) _ added =>
                         if 0 <? added then [s] else []
                     | _ => []
                     end) tr.

(** The number of quote-fallback calls. *)
Definition retries (tr : list Event) : Z :=
  foldr (fun e acc => match e with
                      | EvQuery _ true _ _ _ _ _ => 1 + acc
                      | _ => acc
                      end) 0 tr.

(** Deduplication by identifier, keeping the first post seen with each
    identifier that is not in [seen]. *)
Fixpoint first_seen (seen : gset string) (posts : list Post) : list Post :=
  match posts with
  | [] => []
  | p :: rest =>
      if decide (post_id p ∈ seen) then first_seen seen rest
      else p :: first_seen ({[post_id p]} ∪ seen) rest
  end.

Definition ids (posts : list Post) : gset string := list_to_set (post_id <$> posts).

Definition ev_phase (e : Event) : Phase :=
  match e with
  | EvQuery phase _ _ _ _ _ _ => phase
  | EvCollect phase _ _ _ => phase
  end.

(** The queries of the global fallback that were run, in order. *)
Definition global_queries_run (tr : list Event) : list string :=
  flat_map (fun e => match e with
                     | EvQuery GlobalFallback _ _ q _ _ _ => [q]
                     | _ => []
                     end) tr.

(** A trace is a sequence of blocks.  A block is one query, then its
    quote-fallback call if there is one, then [_collect] on what the last
    call returned.  The fallback call occurs exactly when a subreddit query
    (Phase 1 or 2) with a double quote returned nothing. *)
Inductive Block : list Event -> Prop :=
  | block_plain phase sub q lim clk posts added :
      phase = GlobalFallback \/ posts <> [] \/ has_quote q = false ->
      Block [EvQuery phase false sub q lim clk posts; EvCollect phase sub posts added]
  | block_retry phase sub q lim clk clk' posts added :
      phase <> GlobalFallback -> has_quote q = true ->
      Block [EvQuery phase false sub q lim clk [];
             EvQuery phase true sub (strip_quotes q) lim clk' posts;
             EvCollect phase sub posts added].

Definition Blocks (tr : list Event) : Prop :=
  exists blocks, tr = concat blocks /\ Forall Block blocks.

(** The calls of one visit: [batch] is what reaches [_collect] and [n] the
    count it returns. *)
Definition visit_shape (phase : Phase) (sub : option string) (q : string)
    (lim clk : Z) (batch : list Post) (n : Z) (b : list Event) : Prop :=
  (b = [EvQuery phase false sub q lim clk batch; EvCollect phase sub batch n]
   /\ (phase = GlobalFallback \/ batch <> [] \/ has_quote q = false))
  \/ (exists clk',
        b = [EvQuery phase false sub q lim clk [];
             EvQuery phase true sub (strip_quotes q) lim clk' batch;
             EvCollect phase sub batch n]
        /\ phase <> GlobalFallback /\ has_quote q = true).

Section FanOutSpec.

Variable World : Type.
Variable plan : QueryPlan.
Variable post_limit : Z.
Variable deadline : Z.

(** The per-query limit of the run. *)
Variable pql : Z.

(** What each recorded call looks like, given the calls before it:
    - a Phase 1 query goes to a subreddit of the plan with its first query,
      and its first call is made before the deadline;
    - a Phase 2 query goes to a subreddit that yielded in Phase 1 with one
      of its queries after the first; its calls are made below the cap, and
      the first of them before the deadline;
    - a global query is unscoped, never a retry, asks for what is missing
      to the cap, and is made below the cap and before the deadline;
    - [_collect] returns the number of posts with a new identifier. *)
Definition event_ok (pre : list Event) (e : Event) : Prop :=
  match e with
  | EvQuery Breadth retry sub q lim clk _ =>
      lim = pql
      /\ exists s first rest,
           sub = Some s /\ s ∈ subreddits plan
           /\ queries_for_sub plan s = first :: rest
           /\ ((retry = false /\ q = first /\ clk <= deadline)
               \/ (retry = true /\ q = strip_quotes first))
  | EvQuery Depth retry sub q lim clk _ =>
      lim = pql
      /\ exists s q0,
           sub = Some s /\ s ∈ yielded pre
           /\ q0 ∈ drop 1 (queries_for_sub plan s)
           /\ ((retry = false /\ q = q0 /\ total_added pre < post_limit
                /\ clk <= deadline)
               \/ (retry = true /\ q = strip_quotes q0
                   /\ total_added pre < post_limit))
  | EvQuery GlobalFallback retry sub q lim clk _ =>
      retry = false /\ sub = None /\ q ∈ global_queries plan
      /\ lim = post_limit - total_added pre
      /\ total_added pre < post_limit /\ clk <= deadline
  | EvCollect _ _ posts added =>
      added = Z.of_nat (length (first_seen (ids (collected pre)) posts))
  end.

Fixpoint events_ok_from (pre tr : list Event) : Prop :=
  match tr with
  | [] => True
  | e :: rest => event_ok pre e /\ events_ok_from (pre ++ [e]) rest
  end.

(** The state agrees with the trace. *)
Record Inv (st : FanState World) : Prop := mkInv {
  inv_posts : all_posts st = first_seen ∅ (collected (trace st));
  inv_seen : seen_ids st = ids (collected (trace st));
  inv_count : num_posts World st = total_added (trace st);
  inv_retries : quote_retries st = retries (trace st);
  inv_blocks : Blocks (trace st);
  inv_events : events_ok_from [] (trace st)
}.

End FanOutSpec.

(** ** Worlds and plans of the examples *)

Definition example_parsed : ParsedPlan :=
  {| p_subreddits := ["shopify"; "Etsy"];
     p_sub_queries := {[ "shopify" := ["theme broken"; "app OR plugin"] ]};
     p_global_queries := ["g1"; "g2"; "g3"];
     p_intent := "store problems" |}.

(** A network that answers every request with HTTP 429. *)
Definition throttled_get (w : nat) (url : string) (params : option (list (string * string)))
    : Result (Response string) * nat :=
  (Ok (mkResponse 429 "text/html" None), S w).

(** A network whose first answer is a 429 and whose second is a JSON body. *)
Definition recovering_get (w : nat) (url : string) (params : option (list (string * string)))
    : Result (Response string) * nat :=
  match w with
  | O => (Ok (mkResponse 429 "text/html" None), S w)
  | _ => (Ok (mkResponse 200 "application/json; charset=UTF-8" (Some "{}")), S w)
  end.

(** A world in which [r/shopify] and [r/Etsy] exist and nothing else. *)
Definition two_subs_about (w : nat) (name : string) : option About * nat :=
  (if String.eqb name "shopify" || String.eqb name "Etsy"
   then Some (mkAbout "t5" (Some name) 1000 false)
   else None,
   S w).

Definition suggested_plan : QueryPlan :=
  {| intent := "store problems";
     subreddits := ["shopify"; "nosuchsub"; "Etsy"; "alsomissing"];
     sub_queries := <["shopify" := ["theme broken"]]>
                      (<["nosuchsub" := ["x"]]> {[ "Etsy" := ["shop views"] ]});
     global_queries := ["store problems"];
     mode := "pain";
     source := "llm" |}.

(** ** A scripted world for examples

    The clock is the world; a search takes one tick and a sleep three; what
    a search returns is given by [respond], cut to the requested limit. *)
Definition scripted_search (respond : option string -> string -> list Post)
    (w : Z) (query sort : string) (sub : option string) (limit : Z) : list Post * Z :=
  (take (Z.to_nat limit) (respond sub query), w + 1).

Definition scripted_sleep (w : Z) : Z := w + 3.

Definition post (id sub : string) : Post := mkPost id sub "" "" 0 0.

Definition run_scripted (respond : option string -> string -> list Post)
    (plan : QueryPlan) (post_limit deadline : Z) : Result (list Post * FanState Z) :=
  _fan_out_search Z (scripted_search respond) (fun w => w) scripted_sleep
    plan post_limit "relevance" deadline initial_metadata 0.

(** What is observed of a run: the returned ids, the fallback flag, and the
    queries sent, each with its phase, retry mark, subreddit and limit. *)
Definition query_events (tr : list Event) : list (Phase * bool * option string * string * Z) :=
  flat_map (fun e => match e with
                     | EvQuery ph r sub q lim _ _ => [(ph, r, sub, q, lim)]
                     | EvCollect _ _ _ _ => []
                     end) tr.

Definition observe (r : Result (list Post * FanState Z))
    : option (list string * bool * list (Phase * bool * option string * string * Z)) :=
  match r with
  | Ok (posts, st) =>
      Some (post_id <$> posts,
            global_fallback_triggered (search_metadata st),
            query_events (trace st))
  | Raise _ => None
  end.

(** [quoted s] is [s] between double quotes. *)
Definition quoted (s : string) : string :=
  String dquote (s +:+ String dquote EmptyString).

(** Two subreddits, each with six posts for any query. *)
Definition espresso_respond (sub : option string) (query : string) : list Post :=
  match sub with
  | Some s => (fun i => post (String.append s (pretty i)) s) <$> [1; 2; 3; 4; 5; 6]
  | None => []
  end.

Definition espresso_plan : QueryPlan :=
  {| intent := "espresso machines";
     subreddits := ["espresso"; "coffee"];
     sub_queries := <["espresso" := ["leak OR broken"; "descale"]]>
                      {[ "coffee" := ["machine problem"; "grinder"] ]};
     global_queries := ["espresso machines"];
     mode := "pain";
     source := "llm" |}.

(** Every community returns nothing, and so does the global search. *)
Definition silent_respond (sub : option string) (query : string) : list Post := [].

Definition board_games_plan : QueryPlan :=
  {| intent := "rare board games";
     subreddits := ["boardgames"];
     sub_queries := {[ "boardgames" := [quoted "rare" +:+ " OR " +:+ quoted "out of print";
                                        "trade"] ]};
     global_queries := ["rare board games"];
     mode := "general";
     source := "llm" |}.

(** Three subreddits of which the second has no post. *)
Definition three_subs_respond (sub : option string) (query : string) : list Post :=
  match sub with
  | Some s =>
      if String.eqb s "quiet" then []
      else [post (s +:+ "-" +:+ query +:+ "-1") s; post (s +:+ "-" +:+ query +:+ "-2") s]
  | None => []
  end.

Definition three_subs_plan : QueryPlan :=
  {| intent := "standing desks";
     subreddits := ["desks"; "quiet"; "ergonomics"];
     sub_queries := <["desks" := ["wobble"; "motor"]]>
                      (<["quiet" := ["wobble"; "motor"]]>
                         {[ "ergonomics" := ["standing"; "back pain"] ]});
     global_queries := ["standing desks"];
     mode := "pain";
     source := "llm" |}.

(** No subreddit, two global queries, and a deadline that passes during the
    first of them. *)
Definition two_global_plan : QueryPlan :=
  {| intent := "anything"; subreddits := []; sub_queries := ∅;
     global_queries := ["a"; "b"]; mode := "general"; source := "fallback" |}.

(** No subreddit and one global query with double quotes. *)
Definition quoted_global_plan : QueryPlan :=
  {| intent := "anything"; subreddits := []; sub_queries := ∅;
     global_queries := [quoted "x"]; mode := "general"; source := "fallback" |}.

(** Two subreddits whose results overlap in the identifier [p2]. *)
Definition overlap_respond (sub : option string) (query : string) : list Post :=
  match sub with
  | Some s =>
      if String.eqb s "first" then [post "p1" s; post "p2" s]
      else [post "p2" s; post "p3" s]
  | None => []
  end.

Definition overlap_plan : QueryPlan :=
  {| intent := "overlap";
     subreddits := ["first"; "second"];
     sub_queries := <["first" := ["q"]]> {[ "second" := ["q"] ]};
     global_queries := ["overlap"];
     mode := "general";
     source := "llm" |}.

(** One subreddit whose first query finds two posts and whose second
    query, in double quotes, finds none, with or without the quotes. *)
Definition first_query_respond (sub : option string) (query : string) : list Post :=
  match sub with
  | Some s => if String.eqb query "wobble" then [post "d1" s; post "d2" s] else []
  | None => []
  end.

Definition quoted_depth_plan : QueryPlan :=
  {| intent := "standing desks";
     subreddits := ["desks"];
     sub_queries := {[ "desks" := ["wobble"; quoted "motor noise"] ]};
     global_queries := ["standing desks"];
     mode := "pain";
     source := "llm" |}.

(** ** Three properties as the specification words them *)

(** The property of C3 as stated: once the fallback runs, every global
    query is run unless the cap is reached. *)
Definition fallback_runs_to_cap_or_exhaustion : Prop :=
  forall respond plan post_limit deadline posts st,
    run_scripted respond plan post_limit deadline = Ok (posts, st) ->
    global_fallback_triggered (search_metadata st) = true ->
    global_queries_run (trace st) = global_queries plan
    \/ post_limit <= Z.of_nat (length (all_posts st)).

(** The property of C4 as stated: Phase 2 stops as soon as the deadline
    passes, so that no Phase 2 call is made with the clock past it. *)
Definition phase2_stops_at_deadline (deadline : Z) (tr : list Event) : Prop :=
  forall pre retry sub q lim clk r post,
    tr = pre ++ EvQuery Depth retry sub q lim clk r :: post -> clk <= deadline.

(** The property of C5 as stated: every first call with a double quote
    that returns nothing is followed by its retry. *)
Definition every_empty_quoted_query_retried (tr : list Event) : Prop :=
  forall pre phase sub q lim clk post,
    tr = pre ++ EvQuery phase false sub q lim clk [] :: post ->
    has_quote q = true ->
    exists clk' r post',
      post = EvQuery phase true sub (strip_quotes q) lim clk' r :: post'.

(** Equations between unions of sets of identifiers, by membership. *)
Ltac set_eq_by_membership :=
  apply set_eq; intros ?x;
  rewrite ?elem_of_union, ?elem_of_singleton, ?elem_of_empty;
  intuition (subst; auto).

(** ** More vocabulary for runs of the fan-out engine *)

(** The number of searches sent: the calls of [_run_query] whose query is
    not empty once sanitized. *)
Definition sent (tr : list Event) : Z :=
  foldr (fun e acc => match e with
                      | EvQuery _ _ _ q _ _ _ =>
                          if String.eqb (_sanitize_query q) "" then acc else 1 + acc
                      | EvCollect _ _ _ _ => acc
                      end) 0 tr.

(** The recorded calls of Phases 1 and 2. *)
Definition scoped_events (tr : list Event) : list Event :=
  List.filter (fun e => match ev_phase e with
                        | GlobalFallback => false
                        | _ => true
                        end) tr.

(** The first calls of Phase 1: subreddit and query, in order. *)
Definition breadth_calls (tr : list Event) : list (string * string) :=
  flat_map (fun e => match e with
                     | EvQuery Breadth false (Some s) q _ _ _ => [(s, q)]
                     | _ => []
                     end) tr.

(** The subreddits of [subs] that have a query, each with its first one. *)
Definition first_queries (plan : QueryPlan) (subs : list string) : list (string * string) :=
  flat_map (fun s => match queries_for_sub plan s with
                     | [] => []
                     | q :: _ => [(s, q)]
                     end) subs.

Definition phase1_timeout_warning : string := "Pipeline timeout during Phase 1 breadth".

(** Two subreddits with one query each. *)
Definition single_query_plan : QueryPlan :=
  {| intent := "standing desks";
     subreddits := ["desks"; "ergonomics"];
     sub_queries := <["desks" := ["wobble"]]> {[ "ergonomics" := ["standing"] ]};
     global_queries := ["standing desks"];
     mode := "general";
     source := "fallback" |}.

(** ** Rate-limit rounds of the fetch client *)

Section FetchRounds.

Variable World : Type.
Variable Json : Type.
Variable session_get :
  World -> string -> option (list (string * string)) -> Result (Response Json) * World.
Variable time_sleep : World -> Z -> World.

(** The world after one rate-limit round per delay of [delays]: a GET
    answered by an HTTP 429, then the sleep.  [None] when one of these GETs
    raised or was answered otherwise. *)
Fixpoint after_429s (delays : list Z) (url : string)
    (params : option (list (string * string))) (w : World) : option World :=
  match delays with
  | [] => Some w
  | delay :: rest =>
      match session_get w url params with
      | (Ok resp, w1) =>
          if status_code resp =? 429
          then after_429s rest url params (time_sleep w1 delay)
          else None
      | (Raise _, _) => None
      end
  end.

End FetchRounds.

(** What a response other than a 429 is worth: its decoded body when the
    content type mentions JSON or JavaScript and the status is not an
    error, and nothing otherwise. *)
Definition decoded {Json} (resp : Response Json) : option Json :=
  if (str_contains "json" (content_type resp)
      || str_contains "javascript" (content_type resp))
     && negb ((400 <=? status_code resp) && (status_code resp <? 600))
  then json_body resp
  else None.

(** What the outcome of a GET that is not a 429 is worth: the two
    exception classes named by the client give nothing, any other
    exception goes on to the caller. *)
Definition settled {Json} (r : Result (Response Json)) : Result (option Json) :=
  match r with
  | Ok resp => Ok (decoded resp)
  | Raise RequestException => Ok None
  | Raise ValueError => Ok None
  | Raise e => Raise e
  end.

(** A network that answers 429 twice, then fails with an exception of the
    given class. *)
Definition failing_get (e : PyExc) (w : nat) (url : string)
    (params : option (list (string * string))) : Result (Response string) * nat :=
  match w with
  | O | S O => (Ok (mkResponse 429 "text/html" None), S w)
  | _ => (Raise e, S w)
  end.

(** ** Words and keywords *)

(** A word as [str.split()] produces them: not empty, no whitespace. *)
Definition is_token (w : string) : bool :=
  match list_ascii_of_string w with
  | [] => false
  | cs => forallb (fun c => negb (is_space c)) cs
  end.

(** A keyword as [_query_keywords] produces them: a word of more than two
    characters, in lower case, that is not a stopword. *)
Definition is_keyword (kw : string) : bool :=
  is_token kw && (2 <? String.length kw)%nat && String.eqb (py_lower kw) kw
  && negb (bool_decide (kw ∈ stopwords)).

(** A query that is sent and can be retried: it has a double quote, and so
    has what the sanitizer makes of it, which is therefore not empty. *)
Definition quoted_query (q : string) : Prop :=
  has_quote q = true
  /\ has_quote (_sanitize_query q) = true
  /\ _sanitize_query q <> "".

(** ** Candidates of the subreddit discovery *)

(** Five candidates, two of them small. *)
Definition example_scored : list Scored :=
  [mkScored "dogs" 2500000 2 "All about dogs";
   mkScored "Dogtoys" 800 3 "Dog toys";
   mkScored "puppy101" 400000 1 "";
   mkScored "toys" 900 1 "";
   mkScored "DogAdvice" 120000 2 ""].

(** ** Pages of a search *)

(** The posts of [posts] whose identifier is neither in [seen] nor carried
    by an earlier post of the list. *)
Fixpoint fresh (seen : gset string) (posts : list PostDict) : list PostDict :=
  match posts with
  | [] => []
  | p :: rest =>
      if decide (pd_id p ∈ seen) then fresh seen rest
      else p :: fresh ({[pd_id p]} ∪ seen) rest
  end.

Definition idset (posts : list PostDict) : gset string := list_to_set (pd_id <$> posts).

(** The posts of the answers received, in order. *)
Definition received (pages : list (SearchRequest * option Listing)) : list PostDict :=
  flat_map (fun page => _parse_posts page.2) pages.

(** The cursor left by the last answer. *)
Definition cursor_after (pages : list (SearchRequest * option Listing)) : option string :=
  match last pages with
  | Some (_, Some listing) => given (li_after listing)
  | _ => None
  end.

(** Every request carries the cursor of the answer before it, and only the
    first request has none. *)
Definition follows_cursor (pages : list (SearchRequest * option Listing)) : Prop :=
  forall pre request data post,
    pages = pre ++ (request, data) :: post ->
    rq_after request = cursor_after pre /\ (pre <> [] -> rq_after request <> None).

(** What every request of a call looks like. *)
Definition page_request_ok (query sort : string) (subreddit : option string) (limit : Z)
    (page : SearchRequest * option Listing) : Prop :=
  rq_q page.1 = query /\ rq_sort page.1 = sort /\ rq_subreddit page.1 = given subreddit
  /\ 1 <= rq_limit page.1 <= 100 /\ rq_limit page.1 <= limit.

(** A post with the given identifier and nothing else. *)
Definition child (id : string) : Child :=
  mkChild (Some "t3") id "sub" "" "" "" "" None 0 0 0%float.

(** A server that answers every request with the same two posts and a
    cursor. *)
Definition repeating_listing : Listing :=
  mkListing [child "a"; child "b"] (Some "t3_b").

Definition repeating_server (w : nat) (request : SearchRequest) : option Listing * nat :=
  (Some repeating_listing, S w).

(** A server with three pages of two posts; the second page repeats a post
    of the first. *)
Definition three_page_server (w : nat) (request : SearchRequest) : option Listing * nat :=
  (match rq_after request with
   | None => Some (mkListing [child "a"; child "b"] (Some "c1"))
   | Some c =>
       if String.eqb c "c1" then Some (mkListing [child "b"; child "c"] (Some "c2"))
       else Some (mkListing [child "d"; child "e"] None)
   end, S w).

(** The children of the comment listing of a response: those of its second
    element. *)
Definition comment_children (data : option (list (list CommentChild)))
    : list CommentChild :=
  match data with
  | Some (_ :: comments_listing :: _) => comments_listing
  | _ => []
  end.

(** The children of a search response. *)
Definition post_children (data : option Listing) : list Child :=
  match data with
  | Some listing => li_children listing
  | None => []
  end.

(** A thread with a post listing and seven children in its comment
    listing, one of them a stub of kind [more]. *)
Definition example_thread : option (list (list CommentChild)) :=
  Some [[]; [mkCommentChild (Some "t1") (Some "ann") 5 "first" "/r/x/c1";
             mkCommentChild (Some "more") None 0 "" "";
             mkCommentChild (Some "t1") None 3 "second" "";
             mkCommentChild (Some "t1") (Some "") 2 "third" "/r/x/c3";
             mkCommentChild (Some "t1") (Some "bob") 1 "fourth" "/r/x/c4";
             mkCommentChild (Some "t1") (Some "cy") 1 "fifth" "/r/x/c5";
             mkCommentChild (Some "t1") (Some "di") 1 "sixth" "/r/x/c6"]].

(** ** Runs of the whole pipeline *)

(** The subreddit of a scoped call. *)
Definition scoped_subs (tr : list Event) : list string :=
  flat_map (fun e => match e with
                     | EvQuery _ _ (Some s) _ _ _ _ => [s]
                     | _ => []
                     end) tr.

(** The names accepted by the existence checks of the first twenty
    suggestions. *)
Definition checked_names {World} (fetch_about : World -> string -> option About * World)
    (sleep : World -> World) (suggested : list string) (w : World) : gset string :=
  dom (fold_left record_answer
         (about_answers World fetch_about sleep (take 20 suggested) w) ∅).

(** A scripted world for the pipeline: the clock is the world, every
    request takes one tick and every sleep three. *)
Definition scripted_llm (answer : option ParsedPlan) (w : Z) (topic mode : string)
    : option ParsedPlan * Z :=
  (answer, w + 1).

Definition scripted_discovery (subs : list string) (w : Z) (topic : string)
    : list string * Z :=
  (subs, w + 1).

Definition scripted_about (w : Z) (name : string) : option About * Z :=
  (if String.eqb name "shopify" || String.eqb name "Etsy"
   then Some (mkAbout "t5" (Some name) 1000 false)
   else None,
   w + 1).

Definition scripted_thread (w : Z) (subreddit post_id : string) (limit : Z)
    : option (list (list CommentChild)) * Z :=
  (example_thread, w + 1).

Definition run_pipeline (answer : option ParsedPlan) (discovered : list string)
    (respond : option string -> string -> list Post)
    (topic : string) (subreddit : option string) (mode : string) (post_limit : Z)
    : Result (Outcome Z) :=
  fetch_posts_noapi Z (scripted_llm answer) (scripted_discovery discovered)
    scripted_about (scripted_search respond) scripted_thread (fun w => w) scripted_sleep
    1 pretty topic subreddit mode post_limit 0.

(** What is observed of a run of the pipeline: the ids returned with the
    number of comments of each, the source of the plan, its subreddits, and
    the scoped calls. *)
Definition observe_pipeline (r : Result (Outcome Z))
    : option (list (string * nat) * string * list string * list string) :=
  match r with
  | Ok out =>
      Some ((fun pc => (post_id pc.1, length pc.2)) <$> out_posts out,
            plan_source (out_metadata out),
            subreddits (out_plan out),
            scoped_subs (trace (out_engine out)))
  | Raise _ => None
  end.

(** The fields of the metadata written by the planning step. *)
Definition planning_of (md : SearchMetadata) : string * string * Z * Z :=
  (plan_source md, md_intent md, subreddits_suggested md, subreddits_validated md).

(* ===================================================================== *)
(** * Part III.  Theorems                                               *)
(* ===================================================================== *)

(** ** 1. The query sanitizer *)

Example sanitize_example_1 : _sanitize_query "(a) AND (b)" = "a b".
Proof. reflexivity. Qed.

Example sanitize_example_2 : _sanitize_query "  x   AND	y OR (z) " = "x y OR z".
Proof. reflexivity. Qed.

Example sanitize_example_3 : _sanitize_query "BAND ANDY AND" = "BAND ANDY".
Proof. reflexivity. Qed.

Example sanitize_example_4 : _sanitize_query "A(ND" = "AND".
Proof. reflexivity. Qed.

Lemma space_not_word c : is_space c = true -> is_word c = false.
Proof. destruct c as [[] [] [] [] [] [] [] []]; vm_compute; congruence. Qed.

Lemma space_not_paren c : is_space c = true -> is_paren c = false.
Proof. destruct c as [[] [] [] [] [] [] [] []]; vm_compute; congruence. Qed.

Lemma fires_head pw c t : fires pw (c :: t) = true -> c = "A"%char /\ pw = false.
Proof.
  destruct t as [|n [|d r]]; simpl; try discriminate.
  rewrite !andb_true_iff, negb_true_iff. intros [[[[? Ha] _] _] _].
  apply Ascii.eqb_eq in Ha. auto.
Qed.

Lemma fires_nonword pw c t : is_word c = false -> fires pw (c :: t) = false.
Proof.
  intros Hc. destruct (fires pw (c :: t)) eqn:E; [|reflexivity].
  apply fires_head in E as [-> _]. discriminate.
Qed.

Lemma fires_prev_word s : fires true s = false.
Proof. destruct s as [|a [|n [|d r]]]; reflexivity. Qed.

Lemma re_sub_AND_cons pw c t :
  re_sub_AND pw (c :: t) =
  if fires pw (c :: t) then re_sub_AND true (drop 3 (c :: t))
  else c :: re_sub_AND (is_word c) t.
Proof. destruct t as [|n [|d r]]; reflexivity. Qed.

Lemma re_sub_AND_skip pw c t :
  fires pw (c :: t) = false -> re_sub_AND pw (c :: t) = c :: re_sub_AND (is_word c) t.
Proof. intros H. rewrite re_sub_AND_cons, H. reflexivity. Qed.

Lemma no_and_fixed s : forall pw, no_and pw s = true -> re_sub_AND pw s = s.
Proof.
  induction s as [|c t IH]; intros pw H; [reflexivity|].
  cbn [no_and] in H. apply andb_true_iff in H as [Hf Ht].
  apply negb_true_iff in Hf. rewrite re_sub_AND_skip by exact Hf.
  f_equal. apply IH, Ht.
Qed.

(** When the subject starts at a non-word character (or is empty), the
    character before it does not matter. *)
Lemma re_sub_AND_pw s pw pw' :
  head_is_word s = false -> re_sub_AND pw s = re_sub_AND pw' s.
Proof.
  destruct s as [|c t]; [reflexivity|]. simpl head_is_word. intros Hc.
  rewrite !re_sub_AND_skip by (apply fires_nonword, Hc). reflexivity.
Qed.

Lemma no_and_pw s pw pw' :
  head_is_word s = false -> no_and pw s = no_and pw' s.
Proof.
  destruct s as [|c t]; [reflexivity|]. simpl head_is_word. intros Hc.
  cbn [no_and]. rewrite !fires_nonword by exact Hc. reflexivity.
Qed.

Lemma re_sub_AND_head_nonword s pw :
  head_is_word s = false -> head_is_word (re_sub_AND pw s) = false.
Proof.
  destruct s as [|c t]; [reflexivity|]. intros Hc. simpl in Hc.
  rewrite re_sub_AND_skip by (apply fires_nonword, Hc). exact Hc.
Qed.

Lemma fires_inv pw s :
  fires pw s = true ->
  exists r, s = "A"%char :: "N"%char :: "D"%char :: r
            /\ pw = false /\ head_is_word r = false.
Proof.
  destruct s as [|a [|n [|d r]]]; simpl; try discriminate.
  rewrite !andb_true_iff, !negb_true_iff.
  intros [[[[Hp Ha] Hn] Hd] Hr].
  apply Ascii.eqb_eq in Ha, Hn, Hd. subst. eauto.
Qed.

(** Inside a word the scan copies: the first three characters of the result
    and the class of the fourth are those of the subject. *)
Lemma fires_after_scan c t :
  fires false (c :: t) = false ->
  fires false (c :: re_sub_AND true t) = false.
Proof.
  intros Hf.
  destruct (fires false (c :: re_sub_AND true t)) eqn:E; [|reflexivity].
  exfalso. apply fires_inv in E as (r' & E & _ & Hr').
  injection E as -> E.
  destruct t as [|n t1]; [discriminate E|].
  rewrite re_sub_AND_skip in E by apply fires_prev_word.
  injection E as -> E. change (is_word "N") with true in E.
  destruct t1 as [|d r]; [discriminate E|].
  rewrite re_sub_AND_skip in E by apply fires_prev_word.
  injection E as -> E. change (is_word "D") with true in E.
  simpl in Hf. apply negb_false_iff in Hf.
  destruct r as [|x r2]; [discriminate Hf|]. simpl in Hf.
  rewrite re_sub_AND_skip in E by apply fires_prev_word.
  subst r'. simpl in Hr'. congruence.
Qed.

Lemma re_sub_AND_no_and n : forall s pw,
  (length s <= n)%nat -> no_and pw (re_sub_AND pw s) = true.
Proof.
  induction n as [|n IH]; intros s pw Hlen.
  { destruct s; [reflexivity|simpl in Hlen; lia]. }
  destruct s as [|c t]; [reflexivity|].
  rewrite re_sub_AND_cons. destruct (fires pw (c :: t)) eqn:Hf.
  - destruct (fires_head _ _ _ Hf) as [-> ->].
    destruct t as [|a [|d r]]; try discriminate Hf.
    change (drop 3 ("A"%char :: a :: d :: r)) with r. simpl in Hlen.
    assert (Hr : head_is_word r = false).
    { cbn [fires] in Hf. rewrite !andb_true_iff in Hf.
      destruct Hf as [_ Hr]. apply negb_true_iff, Hr. }
    rewrite (no_and_pw _ false true) by (apply re_sub_AND_head_nonword, Hr).
    apply IH. lia.
  - cbn [no_and]. apply andb_true_iff. split.
    + apply negb_true_iff. destruct pw; [apply fires_prev_word|].
      destruct (is_word c) eqn:Hc.
      * apply fires_after_scan, Hf.
      * apply fires_nonword, Hc.
    + apply IH. simpl in Hlen. lia.
Qed.

Lemma no_paren_fixed s : no_paren s = true -> re_sub_parens s = s.
Proof.
  induction s as [|c t IH]; [reflexivity|]. simpl.
  intros [Hc Ht]%andb_true_iff. apply negb_true_iff in Hc. rewrite Hc.
  f_equal. apply IH, Ht.
Qed.

Lemma re_sub_parens_no_paren s : no_paren (re_sub_parens s) = true.
Proof.
  induction s as [|c t IH]; [reflexivity|]. simpl.
  destruct (is_paren c) eqn:Hc; [exact IH|]. simpl. rewrite Hc. exact IH.
Qed.

Lemma re_sub_AND_no_paren n : forall s pw,
  (length s <= n)%nat -> no_paren s = true -> no_paren (re_sub_AND pw s) = true.
Proof.
  induction n as [|n IH]; intros s pw Hlen Hs.
  { destruct s; [reflexivity|simpl in Hlen; lia]. }
  destruct s as [|c t]; [reflexivity|].
  rewrite re_sub_AND_cons. destruct (fires pw (c :: t)) eqn:Hf.
  - apply fires_inv in Hf as (r & E & _ & _). injection E as -> ->.
    change (drop 3 ("A"%char :: "N"%char :: "D"%char :: r)) with r.
    apply IH; [simpl in Hlen; lia|]. exact Hs.
  - simpl in Hs |- *. apply andb_true_iff in Hs as [Hc Ht].
    rewrite Hc. apply IH; [simpl in Hlen; lia|exact Ht].
Qed.

Lemma re_sub_ws_no_paren s : forall b,
  no_paren s = true -> no_paren (re_sub_ws b s) = true.
Proof.
  induction s as [|c t IH]; intros b; [reflexivity|]. simpl.
  intros [Hc Ht]%andb_true_iff.
  destruct (is_space c); [destruct b|].
  - apply IH, Ht.
  - change (no_paren (re_sub_ws true t) = true). apply IH, Ht.
  - simpl. rewrite Hc. apply IH, Ht.
Qed.

Lemma lstrip_no_paren s : no_paren s = true -> no_paren (lstrip s) = true.
Proof.
  induction s as [|c t IH]; [reflexivity|]. simpl.
  intros [Hc Ht]%andb_true_iff.
  destruct (is_space c); [auto|]. simpl. rewrite Hc. exact Ht.
Qed.

Lemma rstrip_no_paren s : no_paren s = true -> no_paren (rstrip s) = true.
Proof.
  induction s as [|c t IH]; [reflexivity|]. simpl.
  intros [Hc Ht]%andb_true_iff. specialize (IH Ht).
  destruct (rstrip t) as [|x r].
  - destruct (is_space c); [reflexivity|]. simpl. rewrite Hc. reflexivity.
  - cbn [no_paren forallb]. rewrite Hc. exact IH.
Qed.

Lemma re_sub_ws_norm s : forall b, norm_ws b (re_sub_ws b s) = true.
Proof.
  induction s as [|c t IH]; intros b; [reflexivity|]. simpl.
  destruct (is_space c) eqn:Hc.
  - destruct b; [apply IH|]. simpl. apply IH.
  - simpl. rewrite Hc. apply IH.
Qed.

Lemma norm_ws_fixed s : forall b, norm_ws b s = true -> re_sub_ws b s = s.
Proof.
  induction s as [|c t IH]; intros b; [reflexivity|]. simpl.
  destruct (is_space c).
  - intros [[Hb Hc]%andb_true_iff Ht]%andb_true_iff.
    apply negb_true_iff in Hb. apply Ascii.eqb_eq in Hc. subst.
    f_equal. apply IH, Ht.
  - intros Ht. f_equal. apply IH, Ht.
Qed.

Lemma norm_ws_weaken s : norm_ws true s = true -> norm_ws false s = true.
Proof.
  destruct s as [|c t]; [reflexivity|]. simpl.
  destruct (is_space c); [discriminate|auto].
Qed.

Lemma norm_ws_head s : norm_ws true s = true -> head_is_space s = false.
Proof.
  destruct s as [|c t]; [reflexivity|]. simpl.
  destruct (is_space c); [discriminate|auto].
Qed.

Lemma lstrip_fixed s : head_is_space s = false -> lstrip s = s.
Proof. destruct s as [|c t]; [reflexivity|]. simpl. intros ->. reflexivity. Qed.

Lemma lstrip_head s : head_is_space (lstrip s) = false.
Proof.
  induction s as [|c t IH]; [reflexivity|]. simpl.
  destruct (is_space c) eqn:Hc; [exact IH|]. simpl. exact Hc.
Qed.

Lemma norm_ws_lstrip s : forall b, norm_ws b s = true -> norm_ws false (lstrip s) = true.
Proof.
  destruct s as [|c t]; intros b; [reflexivity|]. simpl.
  destruct (is_space c) eqn:Hc.
  - intros [_ Ht]%andb_true_iff.
    rewrite lstrip_fixed by (apply norm_ws_head, Ht).
    apply norm_ws_weaken, Ht.
  - intros Ht. simpl. rewrite Hc. exact Ht.
Qed.

Lemma rstrip_cons_inv s x r :
  rstrip s = x :: r -> exists t, s = x :: t /\ rstrip t = r.
Proof.
  destruct s as [|c t]; [discriminate|]. simpl.
  destruct (rstrip t) as [|y r0] eqn:E.
  - destruct (is_space c); [discriminate|]. intros [= -> <-]. eauto.
  - intros [= -> <-]. eauto.
Qed.

Lemma rstrip_nil_head s : rstrip s = [] -> head_is_word s = false.
Proof.
  destruct s as [|c t]; [reflexivity|]. simpl.
  destruct (rstrip t); [|discriminate].
  destruct (is_space c) eqn:Hc; [|discriminate].
  intros _. apply space_not_word, Hc.
Qed.

Lemma rstrip_head_word s : head_is_word (rstrip s) = false -> head_is_word s = false.
Proof.
  destruct (rstrip s) as [|x r] eqn:E.
  - intros _. apply rstrip_nil_head, E.
  - apply rstrip_cons_inv in E as (t & -> & _). auto.
Qed.

Lemma rstrip_head_space s : head_is_space s = false -> head_is_space (rstrip s) = false.
Proof.
  destruct s as [|c t]; [reflexivity|]. simpl. intros Hc.
  destruct (rstrip t); [rewrite Hc|]; simpl; exact Hc.
Qed.

Lemma rstrip_idem s : rstrip (rstrip s) = rstrip s.
Proof.
  induction s as [|c t IH]; [reflexivity|]. simpl.
  destruct (rstrip t) as [|x r] eqn:E.
  - destruct (is_space c) eqn:Hc; [reflexivity|]. simpl. rewrite Hc. reflexivity.
  - change (rstrip (c :: x :: r)) with
      (match rstrip (x :: r) with [] => if is_space c then [] else [c] | r0 => c :: r0 end).
    rewrite IH. reflexivity.
Qed.

Lemma norm_ws_rstrip s : forall b, norm_ws b s = true -> norm_ws b (rstrip s) = true.
Proof.
  induction s as [|c t IH]; intros b; [reflexivity|].
  intros H. simpl rstrip. destruct (rstrip t) as [|x r] eqn:E.
  - destruct (is_space c) eqn:Hc; [reflexivity|]. simpl. rewrite Hc. reflexivity.
  - simpl in H |- *. destruct (is_space c).
    + apply andb_true_iff in H as [H1 H2]. rewrite H1. apply (IH true H2).
    + apply (IH false H).
Qed.

Lemma re_sub_ws_head_word s :
  head_is_word (re_sub_ws false s) = false -> head_is_word s = false.
Proof.
  destruct s as [|x r]; [reflexivity|]. simpl.
  destruct (is_space x) eqn:Hx; [intros _; apply space_not_word, Hx|auto].
Qed.

Lemma re_sub_ws_cons_inv s x r :
  re_sub_ws false s = x :: r -> is_space x = false ->
  exists t, s = x :: t /\ re_sub_ws false t = r.
Proof.
  destruct s as [|c t]; [discriminate|]. simpl.
  destruct (is_space c) eqn:Hc.
  - intros [= <- _]. discriminate.
  - intros [= -> <-] _. eauto.
Qed.

Lemma fires_re_sub_ws pw s :
  fires pw (re_sub_ws false s) = true -> fires pw s = true.
Proof.
  intros (r' & E & -> & Hr')%fires_inv.
  apply re_sub_ws_cons_inv in E as (t & -> & E); [|reflexivity].
  apply re_sub_ws_cons_inv in E as (t1 & -> & E); [|reflexivity].
  apply re_sub_ws_cons_inv in E as (r & -> & E); [|reflexivity].
  subst r'. apply re_sub_ws_head_word in Hr'. simpl. rewrite Hr'. reflexivity.
Qed.

Lemma no_and_re_sub_ws s : forall pw in_ws,
  (in_ws = true -> pw = false) ->
  no_and pw s = true -> no_and pw (re_sub_ws in_ws s) = true.
Proof.
  induction s as [|c t IH]; intros pw in_ws Hctx H; [reflexivity|].
  pose proof H as H0.
  cbn [no_and] in H. apply andb_true_iff in H as [Hf Ht].
  simpl re_sub_ws. destruct (is_space c) eqn:Hc.
  - rewrite (space_not_word _ Hc) in Ht. destruct in_ws.
    + rewrite Hctx by reflexivity. apply IH; auto.
    + cbn [no_and]. rewrite fires_nonword by reflexivity.
      change (is_word " ") with false. apply IH; auto.
  - cbn [no_and]. apply andb_true_iff. split; [|apply IH; [discriminate|exact Ht]].
    destruct (fires pw (c :: re_sub_ws false t)) eqn:E; [|reflexivity].
    exfalso. assert (E' : fires pw (re_sub_ws false (c :: t)) = true).
    { simpl. rewrite Hc. exact E. }
    apply fires_re_sub_ws in E'. rewrite E' in Hf. discriminate.
Qed.

Lemma no_and_lstrip s : no_and false s = true -> no_and false (lstrip s) = true.
Proof.
  induction s as [|c t IH]; [reflexivity|]. intros H. simpl.
  destruct (is_space c) eqn:Hc; [|exact H].
  cbn [no_and] in H. apply andb_true_iff in H as [_ Ht].
  rewrite (space_not_word _ Hc) in Ht. apply IH, Ht.
Qed.

Lemma fires_rstrip pw s : fires pw (rstrip s) = true -> fires pw s = true.
Proof.
  intros (r' & E & -> & Hr')%fires_inv.
  apply rstrip_cons_inv in E as (t & -> & E).
  apply rstrip_cons_inv in E as (t1 & -> & E).
  apply rstrip_cons_inv in E as (r & -> & E).
  subst r'. apply rstrip_head_word in Hr'. simpl. rewrite Hr'. reflexivity.
Qed.

Lemma no_and_rstrip s : forall pw, no_and pw s = true -> no_and pw (rstrip s) = true.
Proof.
  induction s as [|c t IH]; intros pw H; [reflexivity|].
  pose proof H as H0.
  cbn [no_and] in H. apply andb_true_iff in H as [Hf Ht].
  destruct (rstrip t) as [|x r] eqn:E.
  - simpl. rewrite E. destruct (is_space c); reflexivity.
  - assert (Er : rstrip (c :: t) = c :: rstrip t) by (simpl; rewrite E; reflexivity).
    rewrite Er. cbn [no_and]. apply andb_true_iff. split; [|rewrite E; apply IH, Ht].
    rewrite <- Er. destruct (fires pw (rstrip (c :: t))) eqn:F; [|reflexivity].
    apply fires_rstrip in F. rewrite F in Hf. discriminate.
Qed.

Lemma sanitize_chars_sanitized q : sanitized (sanitize_chars q).
Proof.
  unfold sanitized, sanitize_chars, strip. repeat split.
  - apply rstrip_no_paren, lstrip_no_paren, re_sub_ws_no_paren, re_sub_parens_no_paren.
  - apply norm_ws_rstrip, (norm_ws_lstrip _ false), re_sub_ws_norm.
  - apply rstrip_head_space, lstrip_head.
  - apply rstrip_idem.
Qed.

Lemma sanitize_chars_no_and q :
  no_paren q = true -> no_and false (sanitize_chars q) = true.
Proof.
  intros Hq. unfold sanitize_chars, strip.
  rewrite no_paren_fixed by (apply (re_sub_AND_no_paren (length q)); auto).
  apply no_and_rstrip, no_and_lstrip, no_and_re_sub_ws; [discriminate|].
  apply (re_sub_AND_no_and (length q)). lia.
Qed.

Lemma sanitize_chars_fixed s :
  sanitized s -> no_and false s = true -> sanitize_chars s = s.
Proof.
  intros (Hp & Hn & Hh & Hr) Ha. unfold sanitize_chars, strip.
  rewrite (no_and_fixed _ _ Ha), (no_paren_fixed _ Hp), (norm_ws_fixed _ _ Hn).
  rewrite (lstrip_fixed _ Hh). exact Hr.
Qed.

Lemma sanitize_chars_idem q :
  no_paren q = true -> sanitize_chars (sanitize_chars q) = sanitize_chars q.
Proof.
  intros Hq. apply sanitize_chars_fixed.
  - apply sanitize_chars_sanitized.
  - apply sanitize_chars_no_and, Hq.
Qed.




(** ** 2. Query plans *)

Example parse_example_own :
  (fun o => match o with Some pl => Some (queries_for_sub pl "shopify") | None => None end)
    (_parse_query_plan (Some example_parsed) "pain")
  = Some ["theme broken"; "app OR plugin"].
Proof. vm_compute. reflexivity. Qed.

Example parse_example_guard :
  (fun o => match o with Some pl => Some (queries_for_sub pl "Etsy") | None => None end)
    (_parse_query_plan (Some example_parsed) "pain")
  = Some ["g1"; "g2"].
Proof. vm_compute. reflexivity. Qed.

Lemma guard_default_nonempty g i : guard_default g i <> [].
Proof. destruct g as [|a [|b g]]; discriminate. Qed.

Lemma guarded_nonempty g i sq sub : guarded g i sq sub <> [].
Proof.
  unfold guarded. destruct (sq !! sub) as [[|q qs]|];
    try discriminate; apply guard_default_nonempty.
Qed.

Lemma guard_step_lookup_same g i sq sub :
  guard_step g i sq sub !! sub = Some (guarded g i sq sub).
Proof.
  unfold guard_step, guarded.
  destruct (sq !! sub) as [[|q qs]|] eqn:E; rewrite ?lookup_insert_eq; auto.
Qed.

Lemma guard_step_lookup_other g i sq sub s :
  sub <> s -> guard_step g i sq sub !! s = sq !! s.
Proof.
  intros Hne. unfold guard_step.
  destruct (sq !! sub) as [[|q qs]|]; rewrite ?lookup_insert_ne; auto.
Qed.

Lemma guarded_after_step g i sq sub s :
  guarded g i (guard_step g i sq sub) s = guarded g i sq s.
Proof.
  unfold guarded at 1. destruct (decide (sub = s)) as [->|Hne].
  - rewrite guard_step_lookup_same.
    pose proof (guarded_nonempty g i sq s) as Hn.
    destruct (guarded g i sq s); [contradiction|reflexivity].
  - rewrite guard_step_lookup_other by exact Hne. reflexivity.
Qed.

Lemma guard_loop_lookup_dec g i subs : forall sq s,
  fold_left (guard_step g i) subs sq !! s
  = if decide (s ∈ subs) then Some (guarded g i sq s) else sq !! s.
Proof.
  induction subs as [|x subs IH]; intros sq s.
  { simpl. destruct (decide (s ∈ [])) as [H|H]; [|reflexivity].
    apply elem_of_nil in H. contradiction. }
  simpl. rewrite IH. destruct (decide (s ∈ subs)) as [Hs|Hs].
  - rewrite guarded_after_step.
    destruct (decide (s ∈ x :: subs)) as [H|H]; [reflexivity|].
    exfalso. apply H, elem_of_cons. auto.
  - destruct (decide (x = s)) as [->|Hne].
    + rewrite guard_step_lookup_same.
      destruct (decide (s ∈ s :: subs)) as [H|H]; [reflexivity|].
      exfalso. apply H, elem_of_cons. auto.
    + rewrite guard_step_lookup_other by exact Hne.
      destruct (decide (s ∈ x :: subs)) as [H|H]; [|reflexivity].
      apply elem_of_cons in H as [->|H]; contradiction.
Qed.

Lemma guard_loop_lookup g i subs sq s :
  s ∈ subs ->
  fold_left (guard_step g i) subs sq !! s = Some (guarded g i sq s).
Proof.
  intros Hin. rewrite guard_loop_lookup_dec.
  destruct (decide (s ∈ subs)); [reflexivity|contradiction].
Qed.

(** C6, counterexample: with three global queries, a subreddit without
    queries receives only the first two of them. *)
Lemma guard_assigns_two_global_queries :
  (exists plan,
      _parse_query_plan (Some example_parsed) "pain" = Some plan
      /\ global_queries plan = ["g1"; "g2"; "g3"]
      /\ sub_queries plan !! "Etsy" = Some ["g1"; "g2"])
  /\ ~ guard_claim.
Proof.
  split.
  - eexists. split; [reflexivity|]. split; [reflexivity|]. vm_compute. reflexivity.
  - intros H.
    specialize (H example_parsed "pain" _ "Etsy" eq_refl).
    assert (Hin : "Etsy" ∈ ["shopify"; "Etsy"]) by (apply list_elem_of_In; simpl; auto).
    specialize (H Hin). assert (Hl : lacks_queries (p_sub_queries example_parsed) "Etsy").
    { left. vm_compute. reflexivity. }
    specialize (H Hl). vm_compute in H. discriminate.
Qed.

(** C6, amended: every subreddit listed in a plan built by
    [_parse_query_plan] has a non-empty query list, which is also what
    [queries_for_sub] returns: its own list when the response gave a
    non-empty one, and otherwise the first two global queries, or the intent
    string alone when the response had no global queries. *)
Theorem parse_plan_every_sub_has_queries parsed mode plan sub :
  _parse_query_plan (Some parsed) mode = Some plan ->
  sub ∈ subreddits plan ->
  exists qs,
    sub_queries plan !! sub = Some qs
    /\ qs <> []
    /\ queries_for_sub plan sub = qs
    /\ (lacks_queries (p_sub_queries parsed) sub ->
          qs = match p_global_queries parsed with
               | [] => [p_intent parsed]
               | g => take 2 g
               end)
    /\ (forall q0 qs0, p_sub_queries parsed !! sub = Some (q0 :: qs0) -> qs = q0 :: qs0).
Proof.
  unfold _parse_query_plan. destruct (p_subreddits parsed) as [|s0 subs] eqn:Es; [discriminate|].
  intros [= <-]. cbn [subreddits]. intros Hin.
  exists (guarded (p_global_queries parsed) (p_intent parsed) (p_sub_queries parsed) sub).
  pose proof (guard_loop_lookup (p_global_queries parsed) (p_intent parsed)
                (s0 :: subs) (p_sub_queries parsed) sub Hin) as Hl.
  pose proof (guarded_nonempty (p_global_queries parsed) (p_intent parsed)
                (p_sub_queries parsed) sub) as Hne.
  repeat split.
  - exact Hl.
  - exact Hne.
  - unfold queries_for_sub. cbn [sub_queries fold_left] in Hl |- *. rewrite Hl.
    destruct (guarded _ _ _ sub); [contradiction|reflexivity].
  - unfold guarded, guard_default.
    intros [-> | ->]; destruct (p_global_queries parsed); reflexivity.
  - intros q0 qs0 E. unfold guarded. rewrite E. reflexivity.
Qed.

Lemma parse_plan_every_sub_has_queries_witness :
  exists qs,
    sub_queries
      {| intent := "store problems"; subreddits := ["shopify"; "Etsy"];
         sub_queries := fold_left (guard_step ["g1"; "g2"; "g3"] "store problems")
                          ["shopify"; "Etsy"]
                          {[ "shopify" := ["theme broken"; "app OR plugin"] ]};
         global_queries := ["g1"; "g2"; "g3"]; mode := "pain"; source := "llm" |}
      !! "Etsy" = Some qs
    /\ qs <> [].
Proof.
  destruct (parse_plan_every_sub_has_queries example_parsed "pain" _ "Etsy" eq_refl)
    as (qs & H1 & H2 & _).
  - apply list_elem_of_In. simpl. auto.
  - exists qs. split; [exact H1|exact H2].
Defined.

(** ** 3. The fetch client *)

Section FetchFacts.

Variable World : Type.
Variable Json : Type.
Variable session_get :
  World -> string -> option (list (string * string)) -> Result (Response Json) * World.
Variable time_sleep : World -> Z -> World.

Local Abbreviation Net := (Net World).
Local Abbreviation handle := (handle World Json).
Local Abbreviation fetch_attempts := (fetch_attempts World Json session_get time_sleep).
Local Abbreviation _fetch_json := (_fetch_json World Json session_get time_sleep).
Local Abbreviation do_sleep := (do_sleep World time_sleep).
Local Abbreviation get_contract := (get_contract World Json session_get).
Local Abbreviation always_429 := (always_429 World Json session_get).

Lemma handle_request st : handle RequestException st = (Ok None, st).
Proof. reflexivity. Qed.

(** From attempt [a] on, with [a + length attempts = 4]: the call returns
    without raising, having slept through a prefix of the schedule. *)
Lemma fetch_attempts_ok (Hc : get_contract) url params :
  forall n a st,
    (a + n = 4)%nat -> (1 <= n)%nat ->
    exists r st' k,
      fetch_attempts (seq a n) url params st = (Ok r, st')
      /\ (a + k <= 3)%nat
      /\ net_trace st' =
         net_trace st
         ++ flat_map (fun d => [EvGet url; EvSleep d])
              (take k (drop a _429_BACKOFF_DELAYS))
         ++ [EvGet url].
Proof.
  induction n as [|n IH]; intros a st Ha Hn; [lia|].
  cbn [seq fetch_attempts]. unfold do_get.
  destruct (session_get (net_world st) url params) as [r w] eqn:Eg.
  set (st1 := {| net_world := w; net_trace := net_trace st ++ [EvGet url] |}).
  assert (Hstop : forall r0 : option Json, exists r st' k,
             (Ok r0, st1) = (Ok r, st') /\ (a + k <= 3)%nat
             /\ net_trace st' = net_trace st
                ++ flat_map (fun d => [EvGet url; EvSleep d])
                     (take k (drop a _429_BACKOFF_DELAYS)) ++ [EvGet url]).
  { intros r0. exists r0, st1, 0%nat. split; [reflexivity|]. split; [lia|].
    rewrite take_0. reflexivity. }
  destruct r as [resp|e].
  2:{ rewrite (Hc _ _ _ _ _ Eg). apply Hstop. }
  destruct (status_code resp =? 429) eqn:E429.
  - destruct (a <? length _429_BACKOFF_DELAYS)%nat eqn:Elt; [|apply Hstop].
    apply Nat.ltb_lt in Elt. simpl in Elt.
    destruct (_429_BACKOFF_DELAYS !! a) as [delay|] eqn:Ed.
    2:{ apply lookup_ge_None in Ed. simpl in Ed. lia. }
    destruct (IH (S a) (do_sleep st1 delay)) as (r & st' & k & Hrun & Hk & Htr);
      [lia|lia|].
    exists r, st', (S k). split; [exact Hrun|]. split; [lia|].
    rewrite Htr. cbn [do_sleep net_trace st1].
    rewrite (drop_S _ delay a Ed). cbn [take flat_map].
    rewrite <- !app_assoc. reflexivity.
  - destruct (negb (str_contains "json" (content_type resp))
              && negb (str_contains "javascript" (content_type resp)));
      [apply Hstop|].
    unfold raise_for_status, resp_json.
    destruct ((400 <=? status_code resp) && (status_code resp <? 600));
      [apply Hstop|].
    destruct (json_body resp); apply Hstop.
Qed.

Lemma fetch_attempts_429 (H429 : always_429) url params :
  forall n a st,
    (a + n = 4)%nat -> (1 <= n)%nat ->
    exists st',
      fetch_attempts (seq a n) url params st = (Ok None, st')
      /\ net_trace st' =
         net_trace st
         ++ flat_map (fun d => [EvGet url; EvSleep d]) (drop a _429_BACKOFF_DELAYS)
         ++ [EvGet url].
Proof.
  induction n as [|n IH]; intros a st Ha Hn; [lia|].
  cbn [seq fetch_attempts]. unfold do_get.
  destruct (H429 (net_world st) url params) as (resp & w & -> & Hs).
  rewrite Hs. change (429 =? 429) with true. cbv iota.
  destruct (a <? length _429_BACKOFF_DELAYS)%nat eqn:Elt.
  - apply Nat.ltb_lt in Elt. simpl in Elt.
    destruct (_429_BACKOFF_DELAYS !! a) as [delay|] eqn:Ed.
    2:{ apply lookup_ge_None in Ed. simpl in Ed. lia. }
    destruct (IH (S a) (do_sleep {| net_world := w;
                                    net_trace := net_trace st ++ [EvGet url] |} delay))
      as (st' & Hrun & Htr); [lia|lia|].
    exists st'. split; [exact Hrun|]. rewrite Htr. cbn [do_sleep net_trace].
    rewrite (drop_S _ delay a Ed). cbn [flat_map].
    rewrite <- !app_assoc. reflexivity.
  - apply Nat.ltb_ge in Elt. simpl in Elt. eexists. split; [reflexivity|].
    cbn [net_trace]. rewrite drop_ge by (simpl; lia). reflexivity.
Qed.

(** C7: [_fetch_json] never raises.  Whatever the network does, the call
    returns a value, after sleeping through a prefix of the schedule 5s,
    10s, 20s with one GET before each sleep and one after the last; when
    every answer is an HTTP 429 the whole schedule is used and the result
    is [None]; and a network error, a content type that is neither JSON
    nor JavaScript, and a body that does not decode each give [None]. *)
Theorem fetch_json_never_raises (Hc : get_contract) st url params :
  (exists r st' k,
      _fetch_json st url params = (Ok r, st')
      /\ (k <= 3)%nat
      /\ net_trace st' = net_trace st ++ backoff_trace url k)
  /\ (always_429 ->
      exists st',
        _fetch_json st url params = (Ok None, st')
        /\ net_trace st' = net_trace st ++ backoff_trace url 3)
  /\ (forall e w', session_get (net_world st) url params = (Raise e, w') ->
        fst (_fetch_json st url params) = Ok None)
  /\ (forall resp w', session_get (net_world st) url params = (Ok resp, w') ->
        status_code resp <> 429 ->
        (str_contains "json" (content_type resp) = false
         /\ str_contains "javascript" (content_type resp) = false)
        \/ json_body resp = None ->
        fst (_fetch_json st url params) = Ok None)
  /\ backoff_trace url 3
     = [EvGet url; EvSleep 5; EvGet url; EvSleep 10; EvGet url; EvSleep 20; EvGet url].
Proof.
  refine (conj _ (conj _ (conj _ (conj _ eq_refl)))).
  - destruct (fetch_attempts_ok Hc url params 4 0 st) as (r & st' & k & H1 & H2 & H3);
      [lia|lia|].
    exists r, st', k. split; [exact H1|]. split; [lia|]. exact H3.
  - intros H429.
    destruct (fetch_attempts_429 H429 url params 4 0 st) as (st' & H1 & H2); [lia|lia|].
    exists st'. split; [exact H1|exact H2].
  - intros e w' Eg. unfold _fetch_json.
    change (seq 0 (length _429_BACKOFF_DELAYS + 1)) with [0; 1; 2; 3]%nat.
    cbn [fetch_attempts]. unfold do_get. rewrite Eg. rewrite (Hc _ _ _ _ _ Eg). reflexivity.
  - intros resp w' Eg Hs Hbad. unfold _fetch_json.
    change (seq 0 (length _429_BACKOFF_DELAYS + 1)) with [0; 1; 2; 3]%nat.
    cbn [fetch_attempts]. unfold do_get. rewrite Eg.
    apply Z.eqb_neq in Hs. rewrite Hs.
    destruct Hbad as [[-> ->]|Hj]; [reflexivity|].
    destruct (negb _ && negb _); [reflexivity|].
    unfold raise_for_status, resp_json. rewrite Hj.
    destruct ((400 <=? status_code resp) && (status_code resp <? 600)); reflexivity.
Qed.

End FetchFacts.

Example fetch_json_throttled :
  _fetch_json nat string throttled_get (fun w _ => w) (mkNet 0%nat []) "u" None
  = (Ok None,
     mkNet 4%nat [EvGet "u"; EvSleep 5; EvGet "u"; EvSleep 10; EvGet "u"; EvSleep 20; EvGet "u"]).
Proof. reflexivity. Qed.

Example fetch_json_recovering :
  _fetch_json nat string recovering_get (fun w _ => w) (mkNet 0%nat []) "u" None
  = (Ok (Some "{}"), mkNet 2%nat [EvGet "u"; EvSleep 5; EvGet "u"]).
Proof. reflexivity. Qed.

Lemma throttled_get_contract : get_contract nat string throttled_get.
Proof. intros w url params e w' H. discriminate H. Defined.

Lemma fetch_json_never_raises_witness :
  exists r st' k,
    _fetch_json nat string throttled_get (fun w _ => w) (mkNet 0%nat []) "u" None = (Ok r, st')
    /\ (k <= 3)%nat
    /\ net_trace st' = [] ++ backoff_trace "u" k.
Proof.
  exact (proj1 (fetch_json_never_raises nat string throttled_get (fun w _ => w)
                  throttled_get_contract (mkNet 0%nat []) "u" None)).
Defined.

(** ** 4. The validation pass *)

Section ValidationFacts.

Variable World : Type.
Variable fetch_about : World -> string -> option About * World.
Variable sleep : World -> World.

Local Abbreviation validate_one := (validate_one World fetch_about sleep).
Local Abbreviation validate_loop := (validate_loop World fetch_about sleep).
Local Abbreviation about_answers := (about_answers World fetch_about sleep).

Lemma validate_one_spec name valid st :
  exists w',
    validate_one name valid st
    = (record_answer valid (name, (fetch_about (v_world st) name).1),
       {| v_world := w';
          v_checked := v_checked st ++ [(name, (fetch_about (v_world st) name).1)] |})
    /\ w' = sleep (fetch_about (v_world st) name).2.
Proof.
  unfold validate_one, record_answer, accepted.
  destruct (fetch_about (v_world st) name) as [data w]. cbn [fst snd].
  eexists. split; [|reflexivity].
  destruct data as [d|]; [|reflexivity].
  destruct (String.eqb (ab_kind d) "t5"); [|reflexivity].
  destruct (negb (ab_over18 d)); reflexivity.
Qed.

Lemma validate_loop_spec names : forall valid st,
  exists w',
    validate_loop names valid st
    = (fold_left record_answer (about_answers names (v_world st)) valid,
       {| v_world := w';
          v_checked := v_checked st ++ about_answers names (v_world st) |}).
Proof.
  induction names as [|name rest IH]; intros valid st.
  { exists (v_world st). simpl. rewrite app_nil_r. destruct st; reflexivity. }
  cbn [validate_loop about_answers].
  destruct (validate_one_spec name valid st) as (w1 & -> & Hw1).
  destruct (fetch_about (v_world st) name) as [data w] eqn:Ef. cbn [fst snd] in *.
  subst w1.
  destruct (IH (record_answer valid (name, data))
               {| v_world := sleep w; v_checked := v_checked st ++ [(name, data)] |})
    as (w' & ->).
  exists w'. cbn [v_world v_checked fold_left]. rewrite <- app_assoc. reflexivity.
Qed.

Lemma about_answers_names names : forall w, (about_answers names w).*1 = names.
Proof.
  induction names as [|name rest IH]; intros w; [reflexivity|].
  cbn [about_answers]. destruct (fetch_about w name) as [data w'].
  cbn [fmap list_fmap fst]. f_equal. apply IH.
Qed.

End ValidationFacts.

Lemma record_answers_dom answers : forall (valid : gmap string Z) s,
  s ∈ dom (fold_left record_answer answers valid)
  <-> s ∈ dom valid
      \/ exists a v, a ∈ answers /\ accepted a.1 a.2 = Some (s, v).
Proof.
  induction answers as [|a rest IH]; intros valid s.
  { simpl. split; [auto|]. intros [H|(a & v & Ha & _)]; [exact H|].
    apply elem_of_nil in Ha. contradiction. }
  cbn [fold_left]. rewrite IH. unfold record_answer at 1.
  destruct (accepted a.1 a.2) as [[display subs]|] eqn:Ea.
  - rewrite dom_insert_L, elem_of_union, elem_of_singleton. split.
    + intros [[->|H]|(b & v & Hb & E)].
      * right. exists a, subs. split; [apply elem_of_cons; auto|exact Ea].
      * auto.
      * right. exists b, v. split; [apply elem_of_cons; auto|exact E].
    + intros [H|(b & v & Hb & E)]; [auto|].
      apply elem_of_cons in Hb as [->|Hb].
      * left. left. rewrite Ea in E. congruence.
      * right. eauto.
  - split.
    + intros [H|(b & v & Hb & E)]; [auto|].
      right. exists b, v. split; [apply elem_of_cons; auto|exact E].
    + intros [H|(b & v & Hb & E)]; [auto|].
      apply elem_of_cons in Hb as [->|Hb]; [congruence|]. right. eauto.
Qed.

Lemma record_answers_size answers : forall valid : gmap string Z,
  (size (fold_left record_answer answers valid) <= size valid + count_accepted answers)%nat.
Proof.
  unfold count_accepted.
  induction answers as [|a rest IH]; intros valid; [simpl; lia|].
  cbn [fold_left List.filter]. etransitivity; [apply IH|].
  unfold record_answer, is_accepted.
  destruct (accepted a.1 a.2) as [[display subs]|]; [|lia].
  rewrite map_size_insert. cbn [length].
  destruct (valid !! display); unfold id; lia.
Qed.

Lemma count_accepted_le answers : (count_accepted answers <= length answers)%nat.
Proof. apply List.filter_length_le. Qed.

Lemma fail_rate_table : fail_rate_table_ok = true.
Proof. vm_compute. reflexivity. Qed.

Lemma fail_rate_high_above_30 (c v : nat) :
  (1 <= c <= 20)%nat -> (v <= c)%nat -> (3 * c < 10 * (c - v))%nat ->
  fail_rate_high (Z.of_nat v) (Z.of_nat c) = true.
Proof.
  intros Hc Hv Hlt. pose proof fail_rate_table as T. unfold fail_rate_table_ok in T.
  rewrite forallb_forall in T. specialize (T c ltac:(apply in_seq; lia)).
  rewrite forallb_forall in T.
  specialize (T v ltac:(apply in_seq; lia)).
  apply Nat.ltb_lt in Hlt. rewrite Hlt in T. exact T.
Qed.

(** Exactly three failures out of ten also raise the warning: in binary64
    [1 - 7/10] exceeds [0.30]. *)
Example fail_rate_exactly_30 : fail_rate_high 7 10 = true /\ fail_rate_high 8 10 = false.
Proof. split; vm_compute; reflexivity. Qed.

Section ValidationPass.

Variable World : Type.
Variable fetch_about : World -> string -> option About * World.
Variable sleep : World -> World.

Let pass := llm_validation_pass World fetch_about sleep.
Let answers_of (plan : QueryPlan) (st : VState World) :=
  about_answers World fetch_about sleep (take 20 (subreddits plan)) (v_world st).

(** C8: the validation pass checks the first 20 suggested names at most, in
    order; the plan keeps, in their original order, exactly the suggested
    names that are keys of the validated mapping, and the query lists of
    those names only; when more than 30% of the checked names fail, the
    warning is appended; and in every case the pass returns the filtered
    plan, its other fields unchanged. *)
Theorem validation_pass_keeps_validated plan md st plan' md' st' :
  pass plan md st = (plan', md', st') ->
  let answers := answers_of plan st in
  let valid_names : gset string := dom (fold_left record_answer answers ∅) in
  let checked := length answers in
  let failed := (checked - count_accepted answers)%nat in
  (v_checked st' = v_checked st ++ answers
   /\ answers.*1 = take 20 (subreddits plan)
   /\ (checked <= 20)%nat)
  /\ (subreddits plan' = filter (fun s => s ∈ valid_names) (subreddits plan)
      /\ subreddits plan' `sublist_of` subreddits plan
      /\ (forall s, s ∈ valid_names <->
            exists a v, a ∈ answers /\ accepted a.1 a.2 = Some (s, v)))
  /\ (forall s qs, sub_queries plan' !! s = Some qs <->
        sub_queries plan !! s = Some qs /\ s ∈ valid_names)
  /\ (intent plan' = intent plan /\ global_queries plan' = global_queries plan
      /\ mode plan' = mode plan /\ source plan' = source plan)
  /\ ((3 * checked < 10 * failed)%nat ->
      exists msg, warnings md' = warnings md ++ [msg])
  /\ (forall msg, msg ∈ warnings md -> msg ∈ warnings md').
Proof.
  unfold pass, answers_of, llm_validation_pass, _validate_subreddits.
  destruct (validate_loop_spec World fetch_about sleep (take 20 (subreddits plan)) ∅ st)
    as (w' & ->).
  set (answers := about_answers World fetch_about sleep (take 20 (subreddits plan)) (v_world st)).
  set (validated := fold_left record_answer answers ∅).
  intros [= <- <- <-]. cbn zeta.
  assert (Hnames : answers.*1 = take 20 (subreddits plan)) by apply about_answers_names.
  assert (Hlen : length answers = Nat.min 20 (length (subreddits plan))).
  { rewrite <- (length_fmap fst answers), Hnames, length_take. reflexivity. }
  repeat split.
  - exact Hnames.
  - lia.
  - apply sublist_filter.
  - intros Hs. apply record_answers_dom in Hs as [Hs|Hs]; [|exact Hs].
    rewrite dom_empty_L in Hs. apply elem_of_empty in Hs. contradiction.
  - intros Hs. apply record_answers_dom. right. exact Hs.
  - cbn [sub_queries] in H. apply map_lookup_filter_Some in H as [H _]. exact H.
  - cbn [sub_queries] in H. apply map_lookup_filter_Some in H as [_ H]. exact H.
  - intros [H1 H2]. cbn [sub_queries]. apply map_lookup_filter_Some. auto.
  - intros Hfail.
    pose proof (record_answers_size answers ∅) as Hsz. fold validated in Hsz.
    rewrite map_size_empty in Hsz.
    pose proof (count_accepted_le answers) as Hca.
    assert (Hcc : Z.min (Z.of_nat (length (subreddits plan))) 20 = Z.of_nat (length answers))
      by lia.
    rewrite Hcc.
    assert (Hpos : (0 <? Z.of_nat (length answers)) = true) by (apply Z.ltb_lt; lia).
    rewrite Hpos.
    rewrite fail_rate_high_above_30 by lia.
    eexists. reflexivity.
  - intros msg Hin.
    destruct (0 <? _); [destruct (fail_rate_high _ _)|]; cbn [warnings add_warning
      set_subreddits_validated set_llm_plan_fields]; try exact Hin.
    apply elem_of_app. auto.
Qed.

End ValidationPass.

Example validation_pass_example :
  let '(plan', md', st') :=
    llm_validation_pass nat two_subs_about (fun w => w)
      suggested_plan initial_metadata (mkVState 0%nat []) in
  subreddits plan' = ["shopify"; "Etsy"]
  /\ sub_queries plan' !! "nosuchsub" = None
  /\ sub_queries plan' !! "Etsy" = Some ["shop views"]
  /\ warnings md'
     = ["2/4 suggested subs failed validation; LLM quality may be degraded"]
  /\ (v_checked st').*1 = ["shopify"; "nosuchsub"; "Etsy"; "alsomissing"].
Proof. vm_compute. repeat split; reflexivity. Qed.

Lemma validation_pass_keeps_validated_witness :
  exists plan' md' st',
    llm_validation_pass nat two_subs_about (fun w => w)
      suggested_plan initial_metadata (mkVState 0%nat []) = (plan', md', st')
    /\ subreddits plan' `sublist_of` subreddits suggested_plan
    /\ exists msg, warnings md' = warnings initial_metadata ++ [msg].
Proof.
  destruct (llm_validation_pass nat two_subs_about (fun w => w)
              suggested_plan initial_metadata (mkVState 0%nat []))
    as [[plan' md'] st'] eqn:E.
  exists plan', md', st'. split; [reflexivity|].
  pose proof (validation_pass_keeps_validated nat two_subs_about (fun w => w)
                _ _ _ _ _ _ E) as H.
  cbv zeta in H. destruct H as (_ & (_ & Hsub & _) & _ & _ & Hwarn & _).
  split; [exact Hsub|]. apply Hwarn. vm_compute. lia.
Defined.

(** ** 5. The fan-out engine: traces and deduplication *)

Lemma collected_app t1 t2 : collected (t1 ++ t2) = collected t1 ++ collected t2.
Proof. apply flat_map_app. Qed.

Lemma yielded_app t1 t2 : yielded (t1 ++ t2) = yielded t1 ++ yielded t2.
Proof. apply flat_map_app. Qed.

Lemma total_added_app t1 t2 : total_added (t1 ++ t2) = total_added t1 + total_added t2.
Proof.
  unfold total_added. induction t1 as [|e t1 IH]; [reflexivity|].
  simpl. destruct e; rewrite IH; lia.
Qed.

Lemma retries_app t1 t2 : retries (t1 ++ t2) = retries t1 + retries t2.
Proof.
  unfold retries. induction t1 as [|e t1 IH]; [reflexivity|].
  simpl. destruct e as [ph [] ? ? ? ? ?|]; rewrite ?IH; lia.
Qed.

Lemma ids_app a b : ids (a ++ b) = ids a ∪ ids b.
Proof. unfold ids. rewrite fmap_app, list_to_set_app_L. reflexivity. Qed.

Lemma elem_of_ids x posts : x ∈ ids posts <-> x ∈ post_id <$> posts.
Proof. unfold ids. apply elem_of_list_to_set. Qed.

Lemma ids_nil : ids [] = ∅.
Proof. reflexivity. Qed.

Lemma ids_cons p posts : ids (p :: posts) = {[post_id p]} ∪ ids posts.
Proof. reflexivity. Qed.

Lemma first_seen_app a : forall seen b,
  first_seen seen (a ++ b) = first_seen seen a ++ first_seen (ids a ∪ seen) b.
Proof.
  induction a as [|p a IH]; intros seen b.
  { simpl. rewrite ids_nil, (left_id_L ∅ (∪)). reflexivity. }
  simpl. rewrite ids_cons. destruct (decide (post_id p ∈ seen)) as [Hin|Hin].
  - rewrite IH. f_equal. f_equal. set_eq_by_membership.
  - simpl. rewrite IH. f_equal. f_equal. f_equal. set_eq_by_membership.
Qed.

Lemma first_seen_ids posts : forall seen,
  ids (first_seen seen posts) ∪ seen = ids posts ∪ seen.
Proof.
  induction posts as [|p rest IH]; intros seen; [reflexivity|].
  simpl. rewrite ids_cons. destruct (decide (post_id p ∈ seen)) as [Hin|Hin].
  - rewrite IH. set_eq_by_membership.
  - rewrite ids_cons. specialize (IH ({[post_id p]} ∪ seen)).
    apply set_eq. intros x.
    assert (IHx : x ∈ ids (first_seen ({[post_id p]} ∪ seen) rest) ∪ ({[post_id p]} ∪ seen)
                  <-> x ∈ ids rest ∪ ({[post_id p]} ∪ seen)) by (rewrite IH; reflexivity).
    revert IHx. rewrite !elem_of_union, !elem_of_singleton. tauto.
Qed.

Lemma first_seen_fresh posts : forall seen p,
  p ∈ first_seen seen posts -> post_id p ∉ seen.
Proof.
  induction posts as [|q rest IH]; intros seen p Hin.
  { apply elem_of_nil in Hin. contradiction. }
  simpl in Hin. destruct (decide (post_id q ∈ seen)) as [Hq|Hq].
  - apply IH, Hin.
  - apply elem_of_cons in Hin as [->|Hin]; [exact Hq|].
    apply IH in Hin. intros Hp. apply Hin, elem_of_union. auto.
Qed.

Lemma first_seen_NoDup posts : forall seen, NoDup (post_id <$> first_seen seen posts).
Proof.
  induction posts as [|p rest IH]; intros seen; [constructor|].
  simpl. destruct (decide (post_id p ∈ seen)) as [Hin|Hin]; [apply IH|].
  simpl. constructor; [|apply IH].
  intros Hp. apply list_elem_of_fmap in Hp as (q & Hq & Hin').
  apply first_seen_fresh in Hin'. rewrite <- Hq in Hin'.
  apply Hin', elem_of_union. left. apply elem_of_singleton. reflexivity.
Qed.

Lemma first_seen_sublist posts : forall seen, first_seen seen posts `sublist_of` posts.
Proof.
  induction posts as [|p rest IH]; intros seen; [constructor|].
  simpl. destruct (decide (post_id p ∈ seen)).
  - apply sublist_cons, IH.
  - apply sublist_skip, IH.
Qed.

(** The first post of the stream with a given identifier is the one kept. *)
Lemma first_seen_first posts : forall seen l1 p l2,
  posts = l1 ++ p :: l2 ->
  post_id p ∉ seen -> post_id p ∉ post_id <$> l1 ->
  p ∈ first_seen seen posts.
Proof.
  induction posts as [|q rest IH]; intros seen l1 p l2 E Hs Hl.
  { destruct l1; discriminate. }
  destruct l1 as [|q' l1]; simpl in E; injection E as -> ->.
  - simpl. destruct (decide (post_id p ∈ seen)); [contradiction|].
    apply elem_of_cons. auto.
  - cbn [fmap list_fmap] in Hl. apply not_elem_of_cons in Hl as [Hne Hl].
    cbn [first_seen]. destruct (decide (post_id q' ∈ seen)).
    + eapply IH; eauto.
    + apply elem_of_cons. right. eapply IH; eauto.
      intros [Hx|Hx]%elem_of_union; [|contradiction].
      apply elem_of_singleton in Hx. congruence.
Qed.

Lemma collect_loop_spec posts : forall all seen added,
  collect_loop posts all seen added
  = (all ++ first_seen seen posts, ids posts ∪ seen,
     added + Z.of_nat (length (first_seen seen posts))).
Proof.
  induction posts as [|p rest IH]; intros all seen added.
  { simpl. rewrite app_nil_r, ids_nil, (left_id_L ∅ (∪)). f_equal. lia. }
  simpl. rewrite ids_cons. destruct (decide (post_id p ∈ seen)) as [Hin|Hin].
  - rewrite IH. f_equal. f_equal. set_eq_by_membership.
  - rewrite IH. rewrite <- app_assoc. simpl. f_equal; [f_equal|lia].
    set_eq_by_membership.
Qed.

Lemma Blocks_nil : Blocks [].
Proof. exists []. split; [reflexivity|constructor]. Qed.

Lemma Blocks_snoc tr b : Blocks tr -> Block b -> Blocks (tr ++ b).
Proof.
  intros (bs & -> & Hbs) Hb. exists (bs ++ [b]). split.
  - rewrite concat_app. simpl. rewrite app_nil_r. reflexivity.
  - apply Forall_app. split; [exact Hbs|]. constructor; [exact Hb|constructor].
Qed.

Lemma global_queries_run_app t1 t2 :
  global_queries_run (t1 ++ t2) = global_queries_run t1 ++ global_queries_run t2.
Proof. apply flat_map_app. Qed.

Lemma yielded_other_phase tr :
  Forall (fun e => ev_phase e <> Breadth) tr -> yielded tr = [].
Proof.
  induction 1 as [|e tr He _ IH]; [reflexivity|].
  simpl. rewrite IH, app_nil_r.
  destruct e as [|ph [s|] ? ?]; try reflexivity;
    destruct ph; try reflexivity. simpl in He. contradiction.
Qed.

Lemma global_queries_run_other_phase tr :
  Forall (fun e => ev_phase e <> GlobalFallback) tr -> global_queries_run tr = [].
Proof.
  induction 1 as [|e tr He _ IH]; [reflexivity|].
  simpl. rewrite IH, app_nil_r.
  destruct e as [ph ? ? ? ? ? ?|]; try reflexivity.
  destruct ph; try reflexivity. simpl in He. contradiction.
Qed.

Lemma visit_shape_block phase sub q lim clk batch n b :
  visit_shape phase sub q lim clk batch n b -> Block b.
Proof.
  intros [[-> H]|(clk' & -> & H1 & H2)].
  - apply block_plain, H.
  - apply block_retry; assumption.
Qed.

Lemma visit_shape_collected phase sub q lim clk batch n b :
  visit_shape phase sub q lim clk batch n b ->
  collected b = batch /\ total_added b = n
  /\ yielded b = match phase, sub with
                 | Breadth, Some s => if 0 <? n then [s] else []
                 | _, _ => []
                 end.
Proof.
  intros [[-> _]|(clk' & -> & _ & _)];
    (split; [simpl; apply app_nil_r|]); (split; [simpl; lia|]);
    destruct phase, sub; simpl; try reflexivity; destruct (0 <? n); reflexivity.
Qed.

Lemma visit_shape_phase phase sub q lim clk batch n b :
  visit_shape phase sub q lim clk batch n b -> Forall (fun e => ev_phase e = phase) b.
Proof.
  intros [[-> _]|(clk' & -> & _ & _)]; repeat constructor.
Qed.

(** ** 6. The fan-out engine: the run keeps the state and the trace in agreement *)

Section FanOutFacts.

Variable World : Type.
Variable search_posts : World -> string -> string -> option string -> Z -> list Post * World.
Variable monotonic : World -> Z.
Variable sleep : World -> World.
Variable plan : QueryPlan.
Variable post_limit : Z.
Variable sort : string.
Variable deadline : Z.

(** The per-query limit of the run. *)
Variable pql : Z.

Local Abbreviation State := (FanState World).
Local Abbreviation timed_out := (_timed_out World monotonic deadline).
Local Abbreviation run_query := (_run_query World search_posts monotonic sort).
Local Abbreviation collect := (_collect World).
Local Abbreviation visit := (scoped_visit World search_posts monotonic sort).
Local Abbreviation gvisit := (global_visit World search_posts monotonic post_limit sort).
Local Abbreviation nposts := (num_posts World).
Local Abbreviation ok_event := (event_ok plan post_limit deadline pql).
Local Abbreviation ok_from := (events_ok_from plan post_limit deadline pql).
Local Abbreviation Inv := (Inv World plan post_limit deadline pql).
Local Abbreviation inv_count := (inv_count World plan post_limit deadline pql).

Lemma events_ok_from_app t1 : forall pre t2,
  ok_from pre (t1 ++ t2)
  <-> ok_from pre t1 /\ ok_from (pre ++ t1) t2.
Proof.
  induction t1 as [|e t1 IH]; intros pre t2.
  { simpl. rewrite app_nil_r. tauto. }
  simpl. rewrite IH, <- app_assoc. simpl. tauto.
Qed.

Lemma events_ok_from_split tr : forall pre0 pre e post,
  ok_from pre0 tr -> tr = pre ++ e :: post -> ok_event (pre0 ++ pre) e.
Proof.
  intros pre0 pre e post H ->.
  apply events_ok_from_app in H as [_ H]. simpl in H. tauto.
Qed.

Lemma Inv_initial md w : Inv (initial_state World md w).
Proof.
  constructor; first [reflexivity | apply Blocks_nil | exact I].
Qed.

Lemma run_query_spec phase retry sub q lim st :
  exists posts w' k,
    run_query phase retry sub q lim st
    = (posts,
       {| all_posts := all_posts st; seen_ids := seen_ids st;
          yielding_subs := yielding_subs st;
          queries_executed := queries_executed st + k;
          quote_retries := quote_retries st;
          search_metadata := search_metadata st; world := w';
          trace := trace st ++ [EvQuery phase retry sub q lim
                                  (monotonic (world st)) posts] |}).
Proof.
  unfold _run_query. destruct (String.eqb (_sanitize_query q) "").
  - exists [], (world st), 0. rewrite Z.add_0_r. reflexivity.
  - destruct (search_posts (world st) (_sanitize_query q) sort sub lim) as [posts w'].
    exists posts, w', 1. reflexivity.
Qed.

Lemma collect_spec phase sub posts st :
  collect phase sub posts st
  = (Z.of_nat (length (first_seen (seen_ids st) posts)),
     {| all_posts := all_posts st ++ first_seen (seen_ids st) posts;
        seen_ids := ids posts ∪ seen_ids st;
        yielding_subs := yielding_subs st;
        queries_executed := queries_executed st;
        quote_retries := quote_retries st;
        search_metadata := search_metadata st; world := world st;
        trace := trace st ++ [EvCollect phase sub posts
                                (Z.of_nat (length (first_seen (seen_ids st) posts)))] |}).
Proof. unfold _collect. rewrite collect_loop_spec. reflexivity. Qed.

Lemma visit_spec phase sub q lim st :
  phase <> GlobalFallback ->
  exists batch w' k b,
    visit phase sub q lim st
    = (Z.of_nat (length (first_seen (seen_ids st) batch)),
       {| all_posts := all_posts st ++ first_seen (seen_ids st) batch;
          seen_ids := ids batch ∪ seen_ids st;
          yielding_subs := yielding_subs st;
          queries_executed := queries_executed st + k;
          quote_retries := quote_retries st + retries b;
          search_metadata := search_metadata st; world := w';
          trace := trace st ++ b |})
    /\ visit_shape phase (Some sub) q lim (monotonic (world st)) batch
         (Z.of_nat (length (first_seen (seen_ids st) batch))) b.
Proof.
  intros Hph. unfold scoped_visit, query_with_quote_fallback.
  destruct (run_query_spec phase false (Some sub) q lim st) as (posts & w1 & k1 & ->).
  assert (Hplain : (posts <> [] \/ has_quote q = false) ->
    exists batch w' k b,
      collect phase (Some sub) posts
        {| all_posts := all_posts st; seen_ids := seen_ids st;
           yielding_subs := yielding_subs st;
           queries_executed := queries_executed st + k1;
           quote_retries := quote_retries st;
           search_metadata := search_metadata st; world := w1;
           trace := trace st ++ [EvQuery phase false (Some sub) q lim
                                   (monotonic (world st)) posts] |}
      = (Z.of_nat (length (first_seen (seen_ids st) batch)),
         {| all_posts := all_posts st ++ first_seen (seen_ids st) batch;
            seen_ids := ids batch ∪ seen_ids st;
            yielding_subs := yielding_subs st;
            queries_executed := queries_executed st + k;
            quote_retries := quote_retries st + retries b;
            search_metadata := search_metadata st; world := w';
            trace := trace st ++ b |})
      /\ visit_shape phase (Some sub) q lim (monotonic (world st)) batch
           (Z.of_nat (length (first_seen (seen_ids st) batch))) b).
  { intros Hc.
    exists posts, w1, k1,
      [EvQuery phase false (Some sub) q lim (monotonic (world st)) posts;
       EvCollect phase (Some sub) posts
         (Z.of_nat (length (first_seen (seen_ids st) posts)))].
    split.
    - rewrite collect_spec. cbn [all_posts seen_ids yielding_subs queries_executed
        quote_retries search_metadata world trace].
      f_equal. f_equal; [|rewrite <- app_assoc; reflexivity].
      cbn [retries foldr]. lia.
    - left. split; [reflexivity|]. right. exact Hc. }
  destruct posts as [|p posts]; [|apply Hplain; left; discriminate].
  destruct (has_quote q) eqn:Hq; [|apply Hplain; right; reflexivity].
  clear Hplain.
  match goal with |- context [run_query phase true (Some sub) (strip_quotes q) lim ?s] =>
    destruct (run_query_spec phase true (Some sub) (strip_quotes q) lim s)
      as (posts2 & w2 & k2 & ->) end.
  unfold bump_quote_retries.
  cbn [all_posts seen_ids yielding_subs queries_executed quote_retries
       search_metadata world trace].
  exists posts2, w2, (k1 + k2),
    [EvQuery phase false (Some sub) q lim (monotonic (world st)) [];
     EvQuery phase true (Some sub) (strip_quotes q) lim (monotonic w1) posts2;
     EvCollect phase (Some sub) posts2
       (Z.of_nat (length (first_seen (seen_ids st) posts2)))].
  split.
  - rewrite collect_spec. cbn [all_posts seen_ids yielding_subs queries_executed
      quote_retries search_metadata world trace].
    f_equal. f_equal; [|rewrite <- !app_assoc; reflexivity].
    cbn [retries foldr]. lia.
  - right. eexists. split; [reflexivity|]. split; [exact Hph|exact Hq].
Qed.

Lemma gvisit_spec gq st :
  exists batch w' k b,
    gvisit gq st
    = (Z.of_nat (length (first_seen (seen_ids st) batch)),
       {| all_posts := all_posts st ++ first_seen (seen_ids st) batch;
          seen_ids := ids batch ∪ seen_ids st;
          yielding_subs := yielding_subs st;
          queries_executed := queries_executed st + k;
          quote_retries := quote_retries st + retries b;
          search_metadata := search_metadata st; world := w';
          trace := trace st ++ b |})
    /\ visit_shape GlobalFallback None gq (post_limit - nposts st)
         (monotonic (world st)) batch
         (Z.of_nat (length (first_seen (seen_ids st) batch))) b.
Proof.
  unfold global_visit.
  destruct (run_query_spec GlobalFallback false None gq (post_limit - nposts st) st)
    as (posts & w1 & k1 & ->).
  exists posts, w1, k1,
    [EvQuery GlobalFallback false None gq (post_limit - nposts st)
       (monotonic (world st)) posts;
     EvCollect GlobalFallback None posts
       (Z.of_nat (length (first_seen (seen_ids st) posts)))].
  split.
  - rewrite collect_spec. cbn [all_posts seen_ids yielding_subs queries_executed
      quote_retries search_metadata world trace].
    f_equal. f_equal; [|rewrite <- app_assoc; reflexivity].
    cbn [retries foldr]. lia.
  - left. split; [reflexivity|]. left. reflexivity.
Qed.

(** A visit keeps the state in agreement with the trace, provided its
    queries are of the right kind for their phase. *)
Lemma Inv_visit st st' phase sub q lim clk batch b :
  Inv st ->
  visit_shape phase sub q lim clk batch
    (Z.of_nat (length (first_seen (seen_ids st) batch))) b ->
  all_posts st' = all_posts st ++ first_seen (seen_ids st) batch ->
  seen_ids st' = ids batch ∪ seen_ids st ->
  quote_retries st' = quote_retries st + retries b ->
  trace st' = trace st ++ b ->
  (forall posts, ok_event (trace st) (EvQuery phase false sub q lim clk posts)) ->
  (phase <> GlobalFallback -> forall clk' posts,
      ok_event (trace st ++ [EvQuery phase false sub q lim clk []])
               (EvQuery phase true sub (strip_quotes q) lim clk' posts)) ->
  Inv st'.
Proof.
  intros [Hp Hs Hc Hr Hb He] Hshape Ep Es Er Et Hq1 Hq2.
  pose proof (visit_shape_collected _ _ _ _ _ _ _ _ Hshape) as (Hcol & Hadd & _).
  constructor.
  - rewrite Ep, Et, collected_app, Hcol, first_seen_app, Hp, Hs.
    rewrite (right_id_L ∅ (∪)). reflexivity.
  - rewrite Es, Et, collected_app, Hcol, ids_app, Hs. apply (comm_L (∪)).
  - unfold num_posts in *. rewrite Ep, Et, total_added_app, Hadd, length_app. lia.
  - rewrite Er, Et, retries_app, Hr. reflexivity.
  - rewrite Et. apply Blocks_snoc; [exact Hb|]. eapply visit_shape_block, Hshape.
  - rewrite Et. apply events_ok_from_app. split; [exact He|]. rewrite app_nil_l.
    destruct Hshape as [[-> _]|(clk' & -> & Hne & _)].
    + cbn [events_ok_from]. split; [apply Hq1|]. split; [|exact I].
      cbn [event_ok]. rewrite collected_app, Hs. simpl. rewrite app_nil_r. reflexivity.
    + cbn [events_ok_from]. split; [apply Hq1|]. split; [apply Hq2, Hne|].
      split; [|exact I].
      cbn [event_ok]. rewrite !collected_app, Hs. simpl. rewrite !app_nil_r. reflexivity.
Qed.

Lemma Inv_with_metadata f st : Inv st -> Inv (with_metadata World f st).
Proof. intros [? ? ? ? ? ?]. constructor; assumption. Qed.

Lemma Inv_sleep st : Inv st -> Inv (_sleep World sleep st).
Proof. intros [? ? ? ? ? ?]. constructor; assumption. Qed.

Lemma Inv_mark sub st : Inv st -> Inv (mark_yielding World sub st).
Proof. intros [? ? ? ? ? ?]. constructor; assumption. Qed.

Lemma not_timed_out st : timed_out st = false -> monotonic (world st) <= deadline.
Proof. unfold _timed_out. intros H. apply Z.ltb_ge in H. exact H. Qed.

Lemma phase1_spec subs : forall st,
  Inv st ->
  (forall s, s ∈ subs -> s ∈ subreddits plan) ->
  yielding_subs st = yielded (trace st) ->
  exists st',
    st' = phase1 World search_posts monotonic sleep plan sort deadline pql subs st
    /\ Inv st'
    /\ yielding_subs st' = yielded (trace st')
    /\ (exists t, trace st' = trace st ++ t /\ Forall (fun e => ev_phase e = Breadth) t)
    /\ global_fallback_triggered (search_metadata st')
       = global_fallback_triggered (search_metadata st).
Proof.
  induction subs as [|sub rest IH]; intros st HI Hsubs Hy.
  { exists st. refine (conj eq_refl (conj HI (conj Hy (conj _ eq_refl)))).
    exists []. rewrite app_nil_r. split; [reflexivity|constructor]. }
  cbn [phase1]. destruct (timed_out st) eqn:Ht.
  { eexists. refine (conj eq_refl (conj _ (conj Hy (conj _ eq_refl)))).
    - apply Inv_with_metadata, HI.
    - exists []. cbn [with_metadata trace]. rewrite app_nil_r.
      split; [reflexivity|constructor]. }
  assert (Hrest : forall s, s ∈ rest -> s ∈ subreddits plan).
  { intros s Hs. apply Hsubs, elem_of_cons. auto. }
  destruct (queries_for_sub plan sub) as [|first qs] eqn:Eq; [apply IH; auto|].
  destruct (visit_spec Breadth sub first pql st) as (batch & w' & k & b & -> & Hshape);
    [discriminate|].
  set (n := Z.of_nat (length (first_seen (seen_ids st) batch))) in *.
  match goal with |- context [mark_yielding World sub ?s] => set (st1 := s) end.
  assert (HI1 : Inv st1).
  { eapply (Inv_visit st st1); try exact Hshape; try reflexivity; [exact HI| |].
    - intros posts. cbn [event_ok]. split; [reflexivity|].
      exists sub, first, qs.
      refine (conj eq_refl (conj _ (conj Eq (or_introl (conj eq_refl (conj eq_refl _)))))).
      + apply Hsubs, elem_of_cons. auto.
      + apply not_timed_out, Ht.
    - intros _ clk' posts. cbn [event_ok]. split; [reflexivity|].
      exists sub, first, qs.
      refine (conj eq_refl (conj _ (conj Eq (or_intror (conj eq_refl eq_refl))))).
      apply Hsubs, elem_of_cons. auto. }
  pose proof (visit_shape_collected _ _ _ _ _ _ _ _ Hshape) as (_ & _ & Hyb).
  pose proof (visit_shape_phase _ _ _ _ _ _ _ _ Hshape) as Hph.
  set (st2 := _sleep World sleep (if 0 <? n then mark_yielding World sub st1 else st1)).
  assert (HI2 : Inv st2).
  { apply Inv_sleep. destruct (0 <? n); [apply Inv_mark|]; exact HI1. }
  assert (Ht2 : trace st2 = trace st ++ b).
  { unfold st2. destruct (0 <? n); reflexivity. }
  assert (Hy2 : yielding_subs st2 = yielded (trace st2)).
  { rewrite Ht2, yielded_app, Hyb, <- Hy. unfold st2.
    destruct (0 <? n); cbn [_sleep mark_yielding yielding_subs st1];
      rewrite ?app_nil_r; reflexivity. }
  assert (Hm2 : search_metadata st2 = search_metadata st).
  { unfold st2. destruct (0 <? n); reflexivity. }
  destruct (IH st2 HI2 Hrest Hy2) as (st' & -> & HI' & Hy' & (t & Ht' & Hpt) & Hm').
  eexists. refine (conj eq_refl (conj HI' (conj Hy' (conj _ _)))).
  - exists (b ++ t). rewrite Ht', Ht2, <- app_assoc. split; [reflexivity|].
    apply Forall_app. split; assumption.
  - rewrite Hm', Hm2. reflexivity.
Qed.

Lemma phase2_queries_spec sub qs : forall st,
  Inv st ->
  sub ∈ yielded (trace st) ->
  (forall q, q ∈ qs -> q ∈ drop 1 (queries_for_sub plan sub)) ->
  exists st',
    st' = phase2_queries World search_posts monotonic sleep post_limit sort deadline
            pql sub qs st
    /\ Inv st'
    /\ yielding_subs st' = yielding_subs st
    /\ (exists t, trace st' = trace st ++ t /\ Forall (fun e => ev_phase e = Depth) t)
    /\ search_metadata st' = search_metadata st.
Proof.
  induction qs as [|q rest IH]; intros st HI Hsub Hqs.
  { exists st. refine (conj eq_refl (conj HI (conj eq_refl (conj _ eq_refl)))).
    exists []. rewrite app_nil_r. split; [reflexivity|constructor]. }
  cbn [phase2_queries].
  destruct ((post_limit <=? nposts st) || timed_out st) eqn:Hstop.
  { exists st. refine (conj eq_refl (conj HI (conj eq_refl (conj _ eq_refl)))).
    exists []. rewrite app_nil_r. split; [reflexivity|constructor]. }
  apply orb_false_iff in Hstop as [Hcap Ht]. apply Z.leb_gt in Hcap.
  destruct (visit_spec Depth sub q pql st) as (batch & w' & k & b & -> & Hshape);
    [discriminate|].
  match goal with |- context [_sleep World sleep ?s] => set (st1 := s) end.
  assert (HI1 : Inv st1).
  { eapply (Inv_visit st st1); try exact Hshape; try reflexivity; [exact HI| |].
    - intros posts. cbn [event_ok]. split; [reflexivity|].
      exists sub, q.
      refine (conj eq_refl (conj Hsub (conj _
                (or_introl (conj eq_refl (conj eq_refl (conj _ _))))))).
      + apply Hqs, elem_of_cons. auto.
      + rewrite <- (inv_count _ HI). exact Hcap.
      + apply not_timed_out, Ht.
    - intros _ clk' posts. cbn [event_ok]. split; [reflexivity|].
      exists sub, q.
      refine (conj eq_refl (conj _ (conj _ (or_intror (conj eq_refl (conj eq_refl _)))))).
      + rewrite yielded_app. apply elem_of_app. left. exact Hsub.
      + apply Hqs, elem_of_cons. auto.
      + rewrite total_added_app. cbn [total_added foldr].
        rewrite Z.add_0_r, <- (inv_count _ HI). exact Hcap. }
  pose proof (visit_shape_phase _ _ _ _ _ _ _ _ Hshape) as Hph.
  destruct (IH (_sleep World sleep st1)) as (st' & -> & HI' & Hy' & (t & Ht' & Hpt) & Hm').
  - apply Inv_sleep, HI1.
  - cbn [_sleep trace st1]. rewrite yielded_app. apply elem_of_app. left. exact Hsub.
  - intros q' Hq'. apply Hqs, elem_of_cons. auto.
  - eexists. refine (conj eq_refl (conj HI' (conj Hy' (conj _ Hm')))).
    exists (b ++ t). rewrite Ht'. cbn [_sleep trace st1]. rewrite <- app_assoc.
    split; [reflexivity|]. apply Forall_app. split; assumption.
Qed.

Lemma phase2_subs_spec subs : forall st,
  Inv st ->
  (forall s, s ∈ subs -> s ∈ yielded (trace st)) ->
  exists st',
    st' = phase2_subs World search_posts monotonic sleep plan post_limit sort deadline
            pql subs st
    /\ Inv st'
    /\ yielding_subs st' = yielding_subs st
    /\ (exists t, trace st' = trace st ++ t /\ Forall (fun e => ev_phase e = Depth) t)
    /\ search_metadata st' = search_metadata st.
Proof.
  induction subs as [|sub rest IH]; intros st HI Hsubs.
  { exists st. refine (conj eq_refl (conj HI (conj eq_refl (conj _ eq_refl)))).
    exists []. rewrite app_nil_r. split; [reflexivity|constructor]. }
  cbn [phase2_subs].
  destruct ((post_limit <=? nposts st) || timed_out st) eqn:Hstop.
  { exists st. refine (conj eq_refl (conj HI (conj eq_refl (conj _ eq_refl)))).
    exists []. rewrite app_nil_r. split; [reflexivity|constructor]. }
  cbv zeta.
  destruct (phase2_queries_spec sub (drop 1 (queries_for_sub plan sub)) st HI)
    as (st1 & E1 & HI1 & Hy1 & (t1 & Ht1 & Hp1) & Hm1).
  { apply Hsubs, elem_of_cons. auto. }
  { auto. }
  rewrite <- E1.
  destruct (IH st1 HI1) as (st' & -> & HI' & Hy' & (t & Ht' & Hpt) & Hm').
  { intros s Hs. rewrite Ht1, yielded_app. apply elem_of_app. left.
    apply Hsubs, elem_of_cons. auto. }
  eexists. refine (conj eq_refl (conj HI' (conj _ (conj _ _)))).
  - rewrite Hy', Hy1. reflexivity.
  - exists (t1 ++ t). rewrite Ht', Ht1, <- app_assoc. split; [reflexivity|].
    apply Forall_app. split; assumption.
  - rewrite Hm', Hm1. reflexivity.
Qed.

Lemma phase2_spec st :
  Inv st ->
  yielding_subs st = yielded (trace st) ->
  exists st',
    st' = phase2 World search_posts monotonic sleep plan post_limit sort deadline pql st
    /\ Inv st'
    /\ yielding_subs st' = yielded (trace st')
    /\ (exists t, trace st' = trace st ++ t /\ Forall (fun e => ev_phase e = Depth) t)
    /\ search_metadata st' = search_metadata st.
Proof.
  intros HI Hy. unfold phase2.
  destruct ((nposts st <? post_limit) && negb (bool_decide (yielding_subs st = []))).
  - destruct (phase2_subs_spec (yielding_subs st) st HI)
      as (st' & -> & HI' & Hy' & (t & Ht' & Hpt) & Hm').
    { intros s Hs. rewrite <- Hy. exact Hs. }
    eexists. refine (conj eq_refl (conj HI' (conj _ (conj _ Hm')))).
    + rewrite Hy', Ht', yielded_app, (yielded_other_phase t), app_nil_r; [exact Hy|].
      eapply Forall_impl; [exact Hpt|]. intros e ->. discriminate.
    + exists t. split; assumption.
  - exists st. refine (conj eq_refl (conj HI (conj Hy (conj _ eq_refl)))).
    exists []. rewrite app_nil_r. split; [reflexivity|constructor].
Qed.

Lemma global_loop_spec qs : forall st,
  Inv st ->
  (forall q, q ∈ qs -> q ∈ global_queries plan) ->
  exists st',
    st' = global_loop World search_posts monotonic sleep post_limit sort deadline qs st
    /\ Inv st'
    /\ yielding_subs st' = yielding_subs st
    /\ search_metadata st' = search_metadata st
    /\ exists t k,
         trace st' = trace st ++ t
         /\ Forall (fun e => ev_phase e = GlobalFallback) t
         /\ global_queries_run t = take k qs
         /\ (k = length qs \/ post_limit <= nposts st' \/ timed_out st' = true).
Proof.
  induction qs as [|gq rest IH]; intros st HI Hqs.
  { exists st. refine (conj eq_refl (conj HI (conj eq_refl (conj eq_refl _)))).
    exists [], 0%nat. rewrite app_nil_r.
    refine (conj eq_refl (conj _ (conj eq_refl (or_introl eq_refl)))). constructor. }
  cbn [global_loop].
  destruct ((post_limit <=? nposts st) || timed_out st) eqn:Hstop.
  { exists st. refine (conj eq_refl (conj HI (conj eq_refl (conj eq_refl _)))).
    exists [], 0%nat. rewrite app_nil_r.
    refine (conj eq_refl (conj _ (conj eq_refl (or_intror _)))); [constructor|].
    apply orb_true_iff in Hstop as [H|H]; [left; apply Z.leb_le, H|right; exact H]. }
  apply orb_false_iff in Hstop as [Hcap Ht]. apply Z.leb_gt in Hcap.
  destruct (gvisit_spec gq st) as (batch & w' & k & b & -> & Hshape).
  match goal with |- context [_sleep World sleep ?s] => set (st1 := s) end.
  assert (HI1 : Inv st1).
  { eapply (Inv_visit st st1); try exact Hshape; try reflexivity; [exact HI| |].
    - intros posts. cbn [event_ok].
      refine (conj eq_refl (conj eq_refl (conj _ (conj _ (conj _ _))))).
      + apply Hqs, elem_of_cons. auto.
      + rewrite (inv_count _ HI). reflexivity.
      + rewrite <- (inv_count _ HI). exact Hcap.
      + apply not_timed_out, Ht.
    - intros Hne. contradiction. }
  pose proof (visit_shape_phase _ _ _ _ _ _ _ _ Hshape) as Hph.
  destruct (IH (_sleep World sleep st1)) as (st' & -> & HI' & Hy' & Hm' & (t & k' & Ht' & Hpt & Hrun & Hend)).
  - apply Inv_sleep, HI1.
  - intros q' Hq'. apply Hqs, elem_of_cons. auto.
  - eexists. refine (conj eq_refl (conj HI' (conj Hy' (conj Hm' _)))).
    exists (b ++ t), (S k'). rewrite Ht'. cbn [_sleep trace st1]. rewrite <- app_assoc.
    refine (conj eq_refl (conj _ (conj _ _))).
    + apply Forall_app. split; assumption.
    + rewrite global_queries_run_app, Hrun. cbn [take].
      destruct Hshape as [[-> _]|(c & _ & Hne & _)]; [reflexivity|contradiction].
    + cbn [length]. destruct Hend as [->|H]; [left; reflexivity|right; exact H].
Qed.

Local Abbreviation phases :=
  (after_phases World search_posts monotonic sleep plan post_limit sort deadline pql).

Lemma after_phases_spec md w :
  Inv (phases md w)
  /\ yielding_subs (phases md w) = yielded (trace (phases md w))
  /\ (exists t1 t2,
        trace (phases md w) = t1 ++ t2
        /\ Forall (fun e => ev_phase e = Breadth) t1
        /\ Forall (fun e => ev_phase e = Depth) t2)
  /\ global_fallback_triggered (search_metadata (phases md w))
     = global_fallback_triggered md.
Proof.
  unfold after_phases.
  destruct (phase1_spec (subreddits plan) (initial_state World md w))
    as (st1 & <- & HI1 & Hy1 & (t1 & Ht1 & Hp1) & Hm1).
  { apply Inv_initial. }
  { auto. }
  { reflexivity. }
  cbv zeta.
  match goal with |- context [phase2 _ _ _ _ _ _ _ _ _ ?s] => set (st1' := s) end.
  destruct (phase2_spec st1') as (st2 & <- & HI2 & Hy2 & (t2 & Ht2 & Hp2) & Hm2).
  { apply Inv_with_metadata, HI1. }
  { exact Hy1. }
  refine (conj _ (conj Hy2 (conj _ _))).
  - apply Inv_with_metadata, HI2.
  - exists t1, t2. cbn [with_metadata trace]. rewrite Ht2.
    cbn [st1' with_metadata trace]. rewrite Ht1. auto.
  - cbn [with_metadata search_metadata set_phase2_counts global_fallback_triggered].
    rewrite Hm2. cbn [st1' with_metadata search_metadata set_phase1_counts
                      global_fallback_triggered]. exact Hm1.
Qed.

Lemma global_fallback_spec threshold st :
  Inv st ->
  exists st',
    st' = global_fallback World search_posts monotonic sleep plan post_limit sort
            deadline threshold st
    /\ Inv st'
    /\ yielding_subs st' = yielding_subs st
    /\ if (nposts st <? threshold) && negb (timed_out st)
       then global_fallback_triggered (search_metadata st') = true
            /\ exists t k,
                 trace st' = trace st ++ t
                 /\ Forall (fun e => ev_phase e = GlobalFallback) t
                 /\ global_queries_run t = take k (global_queries plan)
                 /\ (k = length (global_queries plan)
                     \/ post_limit <= nposts st' \/ timed_out st' = true)
       else st' = st.
Proof.
  intros HI. unfold global_fallback.
  destruct ((nposts st <? threshold) && negb (timed_out st)).
  - destruct (global_loop_spec (global_queries plan)
                (with_metadata World set_global_fallback_triggered st))
      as (st' & <- & HI' & Hy' & Hm' & Ht').
    { apply Inv_with_metadata, HI. }
    { auto. }
    eexists. refine (conj eq_refl (conj HI' (conj Hy' (conj _ Ht')))).
    rewrite Hm'. reflexivity.
  - exists st. auto.
Qed.

End FanOutFacts.

Section FanOutRun.

Variable World : Type.
Variable search_posts : World -> string -> string -> option string -> Z -> list Post * World.
Variable monotonic : World -> Z.
Variable sleep : World -> World.
Variable plan : QueryPlan.
Variable post_limit : Z.
Variable sort : string.
Variable deadline : Z.

Local Abbreviation fan_out :=
  (_fan_out_search World search_posts monotonic sleep plan post_limit sort deadline).
Local Abbreviation budget :=
  (Z.max 2 (Z.min 5 (post_limit / Z.max (Z.of_nat (length (subreddits plan))) 1))).
Local Abbreviation both_phases :=
  (after_phases World search_posts monotonic sleep plan post_limit sort deadline budget).
Local Abbreviation threshold := (Z.max 5 (post_limit / 4)).

Lemma per_query_limit_eq : per_query_limit plan post_limit = Ok budget.
Proof.
  unfold per_query_limit, py_floordiv.
  destruct (Z.max (Z.of_nat (length (subreddits plan))) 1 =? 0) eqn:E; [|reflexivity].
  apply Z.eqb_eq in E. lia.
Qed.

Lemma fan_out_eq md w :
  fan_out md w
  = Ok (py_slice_to
          (all_posts (global_fallback World search_posts monotonic sleep plan post_limit
                        sort deadline threshold (both_phases md w))) post_limit,
        global_fallback World search_posts monotonic sleep plan post_limit sort deadline
          threshold (both_phases md w)).
Proof. unfold _fan_out_search. rewrite per_query_limit_eq. reflexivity. Qed.

(** Everything the run guarantees, in one place. *)
Lemma fan_out_run md w posts st :
  fan_out md w = Ok (posts, st) ->
  posts = py_slice_to (all_posts st) post_limit
  /\ Inv World plan post_limit deadline budget st
  /\ yielding_subs st = yielded (trace st)
  /\ (exists t12,
        trace (both_phases md w) = t12
        /\ Forall (fun e => ev_phase e <> GlobalFallback) t12
        /\ global_fallback_triggered (search_metadata (both_phases md w))
           = global_fallback_triggered md
        /\ if (num_posts World (both_phases md w) <? threshold)
              && negb (_timed_out World monotonic deadline (both_phases md w))
           then global_fallback_triggered (search_metadata st) = true
                /\ exists t k,
                     trace st = t12 ++ t
                     /\ Forall (fun e => ev_phase e = GlobalFallback) t
                     /\ global_queries_run t = take k (global_queries plan)
                     /\ (k = length (global_queries plan)
                         \/ post_limit <= num_posts World st
                         \/ _timed_out World monotonic deadline st = true)
           else st = both_phases md w).
Proof.
  rewrite fan_out_eq. intros [= <- <-].
  destruct (after_phases_spec World search_posts monotonic sleep plan post_limit sort
              deadline budget md w) as (HI2 & Hy2 & (t1 & t2 & Ht & Hp1 & Hp2) & Hm2).
  destruct (global_fallback_spec World search_posts monotonic sleep plan post_limit sort
              deadline budget threshold (both_phases md w) HI2)
    as (st' & <- & HI' & Hy' & Hg).
  assert (Hno : Forall (fun e => ev_phase e <> GlobalFallback) (trace (both_phases md w))).
  { rewrite Ht. apply Forall_app. split.
    - eapply Forall_impl; [exact Hp1|]. intros e ->. discriminate.
    - eapply Forall_impl; [exact Hp2|]. intros e ->. discriminate. }
  refine (conj eq_refl (conj HI' (conj _ _))).
  - rewrite Hy', Hy2.
    destruct ((num_posts World (both_phases md w) <? threshold)
              && negb (_timed_out World monotonic deadline (both_phases md w))).
    + destruct Hg as (_ & t & k & -> & Hpt & _).
      rewrite yielded_app, (yielded_other_phase t), app_nil_r; [reflexivity|].
      eapply Forall_impl; [exact Hpt|]. intros e ->. discriminate.
    + rewrite Hg. reflexivity.
  - eexists. refine (conj eq_refl (conj Hno (conj Hm2 Hg))).
Qed.

End FanOutRun.

Lemma elem_of_yielded s tr :
  s ∈ yielded tr <->
  exists batch added, EvCollect Breadth (Some s) batch added ∈ tr /\ 0 < added.
Proof.
  induction tr as [|e tr IH].
  { simpl. split.
    - intros H. apply elem_of_nil in H. contradiction.
    - intros (? & ? & H & _). apply elem_of_nil in H. contradiction. }
  change (e :: tr) with ([e] ++ tr) at 1. rewrite yielded_app.
  rewrite elem_of_app, IH. split.
  - intros [H|(batch & added & H & Hpos)].
    + destruct e as [ph r sb q0 l c ps|ph sb batch added].
      { simpl in H. apply elem_of_nil in H. contradiction. }
      destruct ph, sb as [s'|]; simpl in H;
        try (apply elem_of_nil in H; contradiction).
      destruct (0 <? added) eqn:Hpos; simpl in H;
        [|apply elem_of_nil in H; contradiction].
      apply list_elem_of_singleton in H. subst s'.
      exists batch, added. split; [apply elem_of_cons; auto|apply Z.ltb_lt, Hpos].
    + exists batch, added. split; [apply elem_of_cons; auto|exact Hpos].
  - intros (batch & added & H & Hpos). apply elem_of_cons in H as [<-|H].
    + left. simpl. apply Z.ltb_lt in Hpos. rewrite Hpos. simpl.
      apply elem_of_cons. auto.
    + right. eauto.
Qed.

(** An element of a concatenation lies in one of its pieces. *)
Lemma concat_split {A} (bs : list (list A)) : forall pre (e : A) post,
  concat bs = pre ++ e :: post ->
  exists bs1 b bs2 p1 p2,
    bs = bs1 ++ b :: bs2 /\ b = p1 ++ e :: p2
    /\ pre = concat bs1 ++ p1 /\ post = p2 ++ concat bs2.
Proof.
  induction bs as [|b bs IH]; intros pre e post E.
  { destruct pre; discriminate. }
  simpl in E. apply app_eq_app in E as [l [[-> E]|[-> E]]].
  - destruct l as [|x l].
    + simpl in E. symmetry in E.
      destruct (IH [] e post E) as (bs1 & b' & bs2 & p1 & p2 & -> & -> & Hp & ->).
      exists ((pre ++ []) :: bs1), (p1 ++ e :: p2), bs2, p1, p2.
      simpl. rewrite <- (app_assoc (pre ++ [])), <- Hp, !app_nil_r. auto.
    + simpl in E. injection E as -> ->.
      exists [], (pre ++ x :: l), bs, pre, l. simpl. auto.
  - destruct (IH l e post E) as (bs1 & b' & bs2 & p1 & p2 & -> & -> & -> & ->).
    exists (b :: bs1), (p1 ++ e :: p2), bs2, p1, p2.
    simpl. rewrite <- app_assoc. auto.
Qed.

(** In a trace of blocks, a first call of a subreddit query that has a
    double quote and returned nothing is followed by its retry, and then by
    [_collect]. *)
Lemma Blocks_retry_follows tr pre phase sub q lim clk post :
  Blocks tr ->
  tr = pre ++ EvQuery phase false sub q lim clk [] :: post ->
  phase <> GlobalFallback -> has_quote q = true ->
  exists clk' posts added post',
    post = EvQuery phase true sub (strip_quotes q) lim clk' posts
           :: EvCollect phase sub posts added :: post'.
Proof.
  intros (bs & -> & Hbs) E Hph Hq.
  apply concat_split in E as (bs1 & b & bs2 & p1 & p2 & -> & Eb & -> & ->).
  apply Forall_app in Hbs as [_ Hbs]. apply Forall_cons in Hbs as [Hb _].
  destruct Hb as [ph s q0 l c ps a Hc|ph s q0 l c c' ps a Hne Hq0].
  - destruct p1 as [|x [|y [|z p1]]]; simpl in Eb; inversion Eb; subst;
      try (destruct p1; discriminate).
    destruct Hc as [Hc|[Hc|Hc]]; [contradiction|contradiction|congruence].
  - destruct p1 as [|x [|y [|z p1]]]; simpl in Eb; inversion Eb; subst;
      try (destruct p1; discriminate).
    simpl. eauto 8.
Qed.

(** A retry is always the call right after a first call of the same
    subreddit query, which had a double quote and returned nothing; the
    call after a retry is [_collect]: no second retry. *)
Lemma Blocks_retry_preceded tr pre phase sub q' lim clk' posts post :
  Blocks tr ->
  tr = pre ++ EvQuery phase true sub q' lim clk' posts :: post ->
  exists pre' q clk added post',
    pre = pre' ++ [EvQuery phase false sub q lim clk []]
    /\ q' = strip_quotes q /\ has_quote q = true /\ phase <> GlobalFallback
    /\ post = EvCollect phase sub posts added :: post'.
Proof.
  intros (bs & -> & Hbs) E.
  apply concat_split in E as (bs1 & b & bs2 & p1 & p2 & -> & Eb & -> & ->).
  apply Forall_app in Hbs as [_ Hbs]. apply Forall_cons in Hbs as [Hb _].
  destruct Hb as [ph s q0 l c ps a Hc|ph s q0 l c c' ps a Hne Hq0].
  - destruct p1 as [|x [|y [|z p1]]]; simpl in Eb; inversion Eb; subst;
      destruct p1; discriminate.
  - destruct p1 as [|x [|y [|z p1]]]; simpl in Eb; inversion Eb; subst;
      try (destruct p1; discriminate).
    exists (concat bs1), q0, c, a, (concat bs2). simpl. auto.
Qed.

Lemma py_slice_to_prefix {A} (l : list A) n : py_slice_to l n `prefix_of` l.
Proof. unfold py_slice_to. destruct (0 <=? n); apply prefix_take. Qed.

Lemma py_slice_to_length {A} (l : list A) n :
  0 <= n -> Z.of_nat (length (py_slice_to l n)) <= n.
Proof.
  intros Hn. unfold py_slice_to. apply Z.leb_le in Hn as Hb. rewrite Hb.
  rewrite length_take. lia.
Qed.

Lemma py_slice_to_nonneg {A} (l : list A) n :
  0 <= n -> py_slice_to l n = take (Z.to_nat n) l.
Proof. intros Hn. unfold py_slice_to. apply Z.leb_le in Hn. rewrite Hn. reflexivity. Qed.

Lemma py_slice_to_neg {A} (l : list A) n :
  n < 0 -> py_slice_to l n = take (length l - Z.to_nat (- n)) l.
Proof. intros Hn. unfold py_slice_to. apply Z.leb_gt in Hn. rewrite Hn. reflexivity. Qed.

Lemma NoDup_prefix {A} (l1 l2 : list A) : l1 `prefix_of` l2 -> NoDup l2 -> NoDup l1.
Proof. intros [k ->] H. apply NoDup_app in H as [H _]. exact H. Qed.

(** ** 7. The fan-out engine: the properties *)

Section FanOutClaims.

Variable World : Type.
Variable search_posts : World -> string -> string -> option string -> Z -> list Post * World.
Variable monotonic : World -> Z.
Variable sleep : World -> World.
Variable plan : QueryPlan.
Variable post_limit : Z.
Variable sort : string.
Variable deadline : Z.

Local Abbreviation engine :=
  (_fan_out_search World search_posts monotonic sleep plan post_limit sort deadline).
Local Abbreviation the_budget :=
  (Z.max 2 (Z.min 5 (post_limit / Z.max (Z.of_nat (length (subreddits plan))) 1))).
Local Abbreviation before_fallback :=
  (after_phases World search_posts monotonic sleep plan post_limit sort deadline the_budget).
Local Abbreviation ok_from := (events_ok_from plan post_limit deadline the_budget).
Local Abbreviation ok_event := (event_ok plan post_limit deadline the_budget).
Local Abbreviation expired := (_timed_out World monotonic deadline).
Local Abbreviation count := (num_posts World).

Lemma run_event_ok md w posts st pre e post :
  engine md w = Ok (posts, st) ->
  trace st = pre ++ e :: post -> ok_event pre e.
Proof.
  intros Hrun E.
  destruct (fan_out_run _ _ _ _ _ _ _ _ _ _ _ _ Hrun) as (_ & HI & _).
  apply (events_ok_from_split plan post_limit deadline the_budget
           (trace st) [] pre e post (inv_events _ _ _ _ _ _ HI) E).
Qed.

(** The sum of the counts returned by [_collect] is the number of distinct
    identifiers among the posts collected. *)
Lemma running_total tr : forall pre,
  ok_from pre tr ->
  total_added tr = Z.of_nat (length (first_seen (ids (collected pre)) (collected tr))).
Proof.
  induction tr as [|e tr IH]; intros pre H; [reflexivity|].
  cbn [events_ok_from] in H. destruct H as [He H]. specialize (IH _ H).
  destruct e as [ph r sb q l c ps|ph sb batch added].
  - change (total_added (EvQuery ph r sb q l c ps :: tr)) with (total_added tr).
    change (collected (EvQuery ph r sb q l c ps :: tr)) with (collected tr).
    rewrite IH, collected_app. simpl. rewrite app_nil_r. reflexivity.
  - change (total_added (EvCollect ph sb batch added :: tr)) with (added + total_added tr).
    change (collected (EvCollect ph sb batch added :: tr)) with (batch ++ collected tr).
    cbn [event_ok] in He. rewrite first_seen_app, length_app, IH, He.
    rewrite collected_app, ids_app. simpl. rewrite app_nil_r.
    rewrite (comm_L (∪) (ids batch)). lia.
Qed.

Lemma running_total_prefix md w posts st pre post :
  engine md w = Ok (posts, st) ->
  trace st = pre ++ post ->
  total_added pre = Z.of_nat (length (first_seen ∅ (collected pre))).
Proof.
  intros Hrun E.
  destruct (fan_out_run _ _ _ _ _ _ _ _ _ _ _ _ Hrun) as (_ & HI & _).
  pose proof (inv_events _ _ _ _ _ _ HI) as He. rewrite E in He.
  apply events_ok_from_app in He as [He _].
  apply running_total in He. exact He.
Qed.

Lemma phase2_without_yield pql (st : FanState World) :
  yielding_subs st = [] ->
  phase2 World search_posts monotonic sleep plan post_limit sort deadline pql st = st.
Proof.
  intros H. unfold phase2. rewrite H.
  rewrite (bool_decide_eq_true_2 _ eq_refl), andb_false_r. reflexivity.
Qed.

(** C1: the list returned by [_fan_out_search] is the slice
    [all_posts[:post_limit]] of the deduplicated stream of everything the
    run handed to [_collect], in order, whatever the phase.  With a
    non-negative cap the returned list is exactly the first [post_limit]
    first-seen posts of the stream, all of them when there are fewer, so
    that its length is the smaller of the cap and the number of distinct
    identifiers; a negative cap drops that many posts from the end.  No
    identifier occurs twice, the posts are in the order of the stream, and
    the post kept for an identifier is the first one of the stream that
    carries it. *)
Theorem fan_out_returns_first_seen_posts md w posts st :
  engine md w = Ok (posts, st) ->
  let stream := collected (trace st) in
  posts = py_slice_to (all_posts st) post_limit
  /\ (0 <= post_limit ->
      posts = take (Z.to_nat post_limit) (first_seen ∅ stream)
      /\ Z.of_nat (length posts)
         = Z.min post_limit (Z.of_nat (length (first_seen ∅ stream))))
  /\ (post_limit < 0 ->
      posts = take (length (first_seen ∅ stream) - Z.to_nat (- post_limit))
                (first_seen ∅ stream))
  /\ posts `prefix_of` all_posts st
  /\ all_posts st = first_seen ∅ stream
  /\ all_posts st `sublist_of` stream
  /\ NoDup (post_id <$> all_posts st)
  /\ NoDup (post_id <$> posts)
  /\ (forall l1 p l2, stream = l1 ++ p :: l2 -> post_id p ∉ post_id <$> l1 ->
        p ∈ all_posts st)
  /\ (forall p, p ∈ stream -> post_id p ∈ post_id <$> all_posts st)
  /\ (0 <= post_limit -> Z.of_nat (length posts) <= post_limit)
  /\ Blocks (trace st).
Proof.
  intros Hrun stream.
  destruct (fan_out_run _ _ _ _ _ _ _ _ _ _ _ _ Hrun) as (Hposts & HI & _).
  pose proof (inv_posts _ _ _ _ _ _ HI) as Hall. fold stream in Hall.
  assert (Hpre : posts `prefix_of` all_posts st).
  { rewrite Hposts. apply py_slice_to_prefix. }
  assert (Hnd : NoDup (post_id <$> all_posts st)).
  { rewrite Hall. apply first_seen_NoDup. }
  refine (conj Hposts (conj _ (conj _ (conj Hpre (conj Hall (conj _ (conj Hnd
            (conj _ (conj _ (conj _ (conj _ (inv_blocks _ _ _ _ _ _ HI)))))))))))).
  - intros Hn. rewrite Hposts, py_slice_to_nonneg, Hall by exact Hn.
    split; [reflexivity|]. rewrite length_take. lia.
  - intros Hn. rewrite Hposts, py_slice_to_neg, Hall by exact Hn. reflexivity.
  - rewrite Hall. apply first_seen_sublist.
  - eapply NoDup_prefix; [|exact Hnd]. destruct Hpre as [k ->].
    rewrite fmap_app. apply prefix_app_r. reflexivity.
  - intros l1 p l2 E Hl. rewrite Hall. eapply first_seen_first; eauto.
    apply not_elem_of_empty.
  - intros p Hp. apply elem_of_ids.
    assert (E : ids (all_posts st) ∪ ∅ = ids stream ∪ ∅)
      by (rewrite Hall; apply first_seen_ids).
    rewrite !(right_id_L ∅ (∪)) in E. rewrite E. apply elem_of_ids.
    apply list_elem_of_fmap. eauto.
  - intros Hn. rewrite Hposts. apply py_slice_to_length, Hn.
Qed.

(** C3, amended: after both phases the global fallback runs if and only if
    fewer than [max(5, post_limit // 4)] posts were collected and the
    deadline has not passed.  When it runs, the metadata flag is set and the
    global queries are run in order, unscoped and without retry, each while
    the cap is not reached and the deadline has not passed, until the cap is
    reached, the deadline passes or the queries are exhausted.  When it does
    not run, no global query is made and the state, the flag included, is
    left as it was after the phases, where the flag is the one the caller
    passed in. *)
Theorem global_fallback_runs_on_low_yield md w posts st :
  engine md w = Ok (posts, st) ->
  Forall (fun e => ev_phase e <> GlobalFallback) (trace (before_fallback md w))
  /\ global_fallback_triggered (search_metadata (before_fallback md w))
     = global_fallback_triggered md
  /\ (if (count (before_fallback md w) <? Z.max 5 (post_limit / 4))
         && negb (expired (before_fallback md w))
      then global_fallback_triggered (search_metadata st) = true
           /\ exists t k,
                trace st = trace (before_fallback md w) ++ t
                /\ Forall (fun e => ev_phase e = GlobalFallback) t
                /\ global_queries_run t = take k (global_queries plan)
                /\ (k = length (global_queries plan)
                    \/ post_limit <= count st \/ expired st = true)
      else st = before_fallback md w)
  /\ (forall pre retry sub q lim clk r post,
        trace st = pre ++ EvQuery GlobalFallback retry sub q lim clk r :: post ->
        retry = false /\ sub = None /\ q ∈ global_queries plan
        /\ lim = post_limit - total_added pre
        /\ total_added pre < post_limit /\ clk <= deadline).
Proof.
  intros Hrun.
  destruct (fan_out_run _ _ _ _ _ _ _ _ _ _ _ _ Hrun)
    as (_ & _ & _ & (t12 & <- & Hno & Hm & Hg)).
  refine (conj Hno (conj Hm (conj Hg _))).
  intros pre retry sub q lim clk r post E.
  exact (run_event_ok _ _ _ _ _ _ _ Hrun E).
Qed.

(** C4, amended: every Phase 2 query of a run goes to a subreddit for
    which a Phase 1 [_collect] returned a positive count, and is one of
    that subreddit's queries after the first, or the quote-stripped retry
    of one; the list of yielding subreddits is exactly the list of
    subreddits whose Phase 1 [_collect] returned a positive count.  Every
    Phase 2 call is made while the running total, the number of distinct
    posts collected so far, is below [post_limit].  The first call of a
    query is made while the deadline has not passed.  A retry is the call
    right after the first call of its query, which had a double quote,
    was made before the deadline and returned nothing; the retry itself is
    made without a new look at the clock. *)
Theorem phase2_queries_only_yielding_subs md w posts st :
  engine md w = Ok (posts, st) ->
  yielding_subs st = yielded (trace st)
  /\ (forall s, s ∈ yielding_subs st <->
        exists batch added,
          EvCollect Breadth (Some s) batch added ∈ trace st /\ 0 < added)
  /\ (forall pre retry sub q lim clk r post,
        trace st = pre ++ EvQuery Depth retry sub q lim clk r :: post ->
        exists s q0,
          sub = Some s
          /\ (exists batch added,
                EvCollect Breadth (Some s) batch added ∈ pre /\ 0 < added)
          /\ q0 ∈ drop 1 (queries_for_sub plan s)
          /\ Z.of_nat (length (first_seen ∅ (collected pre))) < post_limit
          /\ ((retry = false /\ q = q0 /\ clk <= deadline)
              \/ (retry = true /\ q = strip_quotes q0 /\ has_quote q0 = true
                  /\ exists pre' clk0,
                       pre = pre' ++ [EvQuery Depth false (Some s) q0 lim clk0 []]
                       /\ clk0 <= deadline))).
Proof.
  intros Hrun.
  destruct (fan_out_run _ _ _ _ _ _ _ _ _ _ _ _ Hrun) as (_ & HI & Hy & _).
  pose proof (inv_blocks _ _ _ _ _ _ HI) as Hb.
  refine (conj Hy (conj _ _)).
  - intros s. rewrite Hy. apply elem_of_yielded.
  - intros pre retry sub q lim clk r post E.
    pose proof (run_event_ok _ _ _ _ _ _ _ Hrun E) as He.
    cbn [event_ok] in He. destruct He as (_ & s & q0 & -> & Hs & Hq0 & Hcase).
    rewrite (running_total_prefix _ _ _ _ _ _ Hrun E) in Hcase.
    destruct Hcase as [(-> & -> & Htot & Hclk)|(-> & _ & Htot)].
    + exists s, q0.
      refine (conj eq_refl (conj _ (conj Hq0 (conj Htot _)))).
      * apply elem_of_yielded, Hs.
      * left. auto.
    + destruct (Blocks_retry_preceded _ _ _ _ _ _ _ _ _ Hb E)
        as (pre' & qa & clk0 & added & post' & Epre & Eq & Hqa & _ & _).
      assert (E' : trace st = pre' ++ EvQuery Depth false (Some s) qa lim clk0 []
                                :: EvQuery Depth true (Some s) q lim clk r :: post).
      { rewrite E, Epre, <- app_assoc. reflexivity. }
      pose proof (run_event_ok _ _ _ _ _ _ _ Hrun E') as He'.
      cbn [event_ok] in He'.
      destruct He' as (_ & s' & q1 & Es & _ & Hq1 & Hcase').
      injection Es as <-.
      destruct Hcase' as [(_ & <- & _ & Hclk0)|(Hf & _)]; [|discriminate Hf].
      exists s, qa.
      refine (conj eq_refl (conj _ (conj Hq1 (conj Htot _)))).
      * apply elem_of_yielded, Hs.
      * right. refine (conj eq_refl (conj Eq (conj Hqa _))).
        exists pre', clk0. split; [exact Epre|exact Hclk0].
Qed.

(** C5, amended: a run is a sequence of blocks, each a query followed by
    [_collect], with one retry in between exactly when the query is a
    subreddit query (Phase 1 or 2) that has a double quote and returned
    nothing.  So such a query is retried once, with every double quote
    removed, and the call after the retry is [_collect]; a retry occurs
    nowhere else, hence never after a query that returned posts or has no
    double quote, never after a retry, and never after a global query. *)
Theorem quote_fallback_once_per_sub_query md w posts st :
  engine md w = Ok (posts, st) ->
  Blocks (trace st)
  /\ quote_retries st = retries (trace st)
  /\ (forall pre phase sub q lim clk post,
        trace st = pre ++ EvQuery phase false sub q lim clk [] :: post ->
        phase <> GlobalFallback -> has_quote q = true ->
        exists clk' r added post',
          post = EvQuery phase true sub (strip_quotes q) lim clk' r
                 :: EvCollect phase sub r added :: post')
  /\ (forall pre phase sub q' lim clk' r post,
        trace st = pre ++ EvQuery phase true sub q' lim clk' r :: post ->
        exists pre' q clk added post',
          pre = pre' ++ [EvQuery phase false sub q lim clk []]
          /\ q' = strip_quotes q /\ has_quote q = true
          /\ phase <> GlobalFallback
          /\ post = EvCollect phase sub r added :: post').
Proof.
  intros Hrun.
  destruct (fan_out_run _ _ _ _ _ _ _ _ _ _ _ _ Hrun) as (_ & HI & _).
  pose proof (inv_blocks _ _ _ _ _ _ HI) as Hb.
  refine (conj Hb (conj (inv_retries _ _ _ _ _ _ HI) (conj _ _))).
  - intros pre phase sub q lim clk post E Hph Hq.
    eapply Blocks_retry_follows; eauto.
  - intros pre phase sub q' lim clk' r post E.
    eapply Blocks_retry_preceded; eauto.
Qed.

(** C9: with at least one subreddit in the plan, the per-query limit is
    [max(2, min(5, post_limit // num_subs))], whichever way the integer
    division rounds, and it is the limit of every subreddit query of a
    run. *)
Theorem per_query_budget :
  (1 <= length (subreddits plan))%nat ->
  let n := Z.of_nat (length (subreddits plan)) in
  per_query_limit plan post_limit = Ok (Z.max 2 (Z.min 5 (post_limit / n)))
  /\ Z.max 2 (Z.min 5 (post_limit / n)) = Z.max 2 (Z.min 5 (post_limit ÷ n))
  /\ (forall md w posts st,
        engine md w = Ok (posts, st) ->
        forall phase retry s q lim clk r,
          EvQuery phase retry (Some s) q lim clk r ∈ trace st ->
          lim = Z.max 2 (Z.min 5 (post_limit / n))).
Proof.
  intros Hn n. unfold n. clear n.
  set (n := Z.of_nat (length (subreddits plan))).
  assert (Hpos : 1 <= n) by (unfold n; lia).
  assert (Hmax : Z.max n 1 = n) by lia.
  refine (conj _ (conj _ _)).
  - rewrite per_query_limit_eq. fold n. rewrite Hmax. reflexivity.
  - destruct (Z.le_gt_cases 0 post_limit) as [Hp|Hp].
    + rewrite Z.quot_div_nonneg by lia. reflexivity.
    + assert (post_limit / n < 0) by (apply Z.div_lt_upper_bound; lia).
      assert (post_limit ÷ n <= 0).
      { rewrite <- (Z.opp_involutive post_limit), Z.quot_opp_l by lia.
        assert (0 <= (- post_limit) ÷ n) by (apply Z.quot_pos; lia). lia. }
      lia.
  - intros md w posts st Hrun phase retry s q lim clk r Hin.
    apply list_elem_of_split in Hin as (pre & post & E).
    pose proof (run_event_ok _ _ _ _ _ _ _ Hrun E) as He.
    fold n in He. rewrite Hmax in He. cbn [event_ok] in He.
    destruct phase; try (destruct He as [He _]; exact He).
    destruct He as (_ & Hs & _). discriminate.
Qed.

(** C10: [_fan_out_search] never raises [ZeroDivisionError]: the divisor
    [max(num_subs, 1)] is positive.  With an empty list of subreddits the
    limit is [max(2, min(5, post_limit))], neither phase makes a query, and
    the engine reaches the global-fallback check with no post, so that the
    fallback runs unless the deadline has passed. *)
Theorem fan_out_total_without_subreddits md w :
  (exists r, engine md w = Ok r)
  /\ (subreddits plan = [] ->
      per_query_limit plan post_limit = Ok (Z.max 2 (Z.min 5 post_limit))
      /\ exists posts st,
           engine md w = Ok (posts, st)
           /\ trace (before_fallback md w) = []
           /\ Forall (fun e => ev_phase e = GlobalFallback) (trace st)
           /\ global_fallback_triggered (search_metadata st)
              = global_fallback_triggered md || negb (deadline <? monotonic w)).
Proof.
  split.
  { rewrite fan_out_eq. eauto. }
  intros Hsubs. split.
  { rewrite per_query_limit_eq, Hsubs. simpl. rewrite Z.div_1_r. reflexivity. }
  destruct (engine md w) as [[posts st]|e] eqn:Hrun.
  2:{ rewrite fan_out_eq in Hrun. discriminate. }
  exists posts, st. split; [reflexivity|].
  destruct (fan_out_run _ _ _ _ _ _ _ _ _ _ _ _ Hrun)
    as (_ & _ & _ & (t12 & Ht12 & _ & Hm & Hg)).
  assert (E0 : before_fallback md w
               = with_metadata World
                   (fun md0 => set_phase2_counts md0 0 0)
                   (with_metadata World (fun md0 => set_phase1_counts md0 0 0)
                      (initial_state World md w))).
  { unfold after_phases. rewrite Hsubs. cbn [phase1 length].
    rewrite phase2_without_yield by reflexivity. reflexivity. }
  assert (Ht0 : trace (before_fallback md w) = []) by (rewrite E0; reflexivity).
  assert (Hc0 : count (before_fallback md w) = 0) by (rewrite E0; reflexivity).
  assert (Hx0 : expired (before_fallback md w) = (deadline <? monotonic w))
    by (rewrite E0; reflexivity).
  split; [exact Ht0|].
  rewrite Hc0, Hx0 in Hg.
  assert (Hthr : (0 <? Z.max 5 (post_limit / 4)) = true) by (apply Z.ltb_lt; lia).
  rewrite Hthr in Hg. simpl in Hg.
  destruct (deadline <? monotonic w); simpl in Hg |- *.
  - rewrite Hg, Ht0, orb_false_r. split; [constructor|exact Hm].
  - destruct Hg as (Hflag & t & k & Ht & Hpt & _).
    rewrite Ht, <- Ht12, Ht0, Hflag, orb_true_r. simpl. split; [exact Hpt|reflexivity].
Qed.

End FanOutClaims.

(** ** 8. Runs in the scripted world *)

(** Overlapping results: each identifier once, in first-seen order, and
    the post kept for [p2] is the one of the first subreddit. *)
Example overlap_run :
  match run_scripted overlap_respond overlap_plan 20 1000 with
  | Ok (posts, _) => Some ((fun p => (post_id p, post_subreddit p)) <$> posts)
  | Raise _ => None
  end
  = Some [("p1", "first"); ("p2", "first"); ("p3", "second")].
Proof. vm_compute. reflexivity. Qed.

(** A deadline that passes during the first Phase 1 query: the run stops
    with what it has and a warning, and the global fallback is not tried. *)
Example deadline_run :
  match run_scripted three_subs_respond three_subs_plan 20 3 with
  | Ok (posts, st) =>
      Some (post_id <$> posts, warnings (search_metadata st),
            global_fallback_triggered (search_metadata st),
            query_events (trace st))
  | Raise _ => None
  end
  = Some (["desks-wobble-1"; "desks-wobble-2"],
          ["Pipeline timeout during Phase 1 breadth"],
          false,
          [(Breadth, false, Some "desks", "wobble", 5)]).
Proof. vm_compute. reflexivity. Qed.

Example espresso_run :
  observe (run_scripted espresso_respond espresso_plan 10 1000)
  = Some (["espresso1"; "espresso2"; "espresso3"; "espresso4"; "espresso5";
           "coffee1"; "coffee2"; "coffee3"; "coffee4"; "coffee5"],
          false,
          [(Breadth, false, Some "espresso", "leak OR broken", 5);
           (Breadth, false, Some "coffee", "machine problem", 5)]).
Proof. vm_compute. reflexivity. Qed.

Example board_games_run :
  observe (run_scripted silent_respond board_games_plan 20 1000)
  = Some ([], true,
          [(Breadth, false, Some "boardgames",
            quoted "rare" +:+ " OR " +:+ quoted "out of print", 5);
           (Breadth, true, Some "boardgames", "rare OR out of print", 5);
           (GlobalFallback, false, None, "rare board games", 20)]).
Proof. vm_compute. reflexivity. Qed.

Example three_subs_run :
  observe (run_scripted three_subs_respond three_subs_plan 20 1000)
  = Some (["desks-wobble-1"; "desks-wobble-2";
           "ergonomics-standing-1"; "ergonomics-standing-2";
           "desks-motor-1"; "desks-motor-2";
           "ergonomics-back pain-1"; "ergonomics-back pain-2"],
          false,
          [(Breadth, false, Some "desks", "wobble", 5);
           (Breadth, false, Some "quiet", "wobble", 5);
           (Breadth, false, Some "ergonomics", "standing", 5);
           (Depth, false, Some "desks", "motor", 5);
           (Depth, false, Some "ergonomics", "back pain", 5)]).
Proof. vm_compute. reflexivity. Qed.

Example fan_out_without_subreddits :
  observe (run_scripted silent_respond two_global_plan 20 1000)
  = Some ([], true, [(GlobalFallback, false, None, "a", 20);
                     (GlobalFallback, false, None, "b", 20)]).
Proof. vm_compute. reflexivity. Qed.

Lemma fan_out_returns_first_seen_posts_witness :
  exists posts st,
    run_scripted espresso_respond espresso_plan 10 1000 = Ok (posts, st)
    /\ posts = take 10 (first_seen ∅ (collected (trace st)))
    /\ NoDup (post_id <$> posts)
    /\ (0 <= 10 -> Z.of_nat (length posts) <= 10).
Proof.
  destruct (run_scripted espresso_respond espresso_plan 10 1000)
    as [[posts st]|e] eqn:E; [|vm_compute in E; discriminate E].
  exists posts, st. split; [reflexivity|].
  pose proof (fan_out_returns_first_seen_posts Z (scripted_search espresso_respond)
                (fun w => w) scripted_sleep espresso_plan 10 "relevance" 1000
                initial_metadata 0 posts st E) as H.
  cbv zeta in H. destruct H as (_ & Htake & _ & _ & _ & _ & _ & Hnd & _ & _ & Hlen & _).
  split; [exact (proj1 (Htake ltac:(lia)))|]. split; [exact Hnd|exact Hlen].
Defined.

(** C3, counterexample: the deadline passes while the first global query
    runs; the second is not run although no post was collected. *)
Lemma fallback_stops_at_deadline :
  observe (run_scripted silent_respond two_global_plan 20 2)
  = Some ([], true, [(GlobalFallback, false, None, "a", 20)])
  /\ ~ fallback_runs_to_cap_or_exhaustion.
Proof.
  split; [vm_compute; reflexivity|].
  intros H.
  destruct (run_scripted silent_respond two_global_plan 20 2) as [[posts st]|e] eqn:E;
    [|vm_compute in E; discriminate E].
  specialize (H silent_respond two_global_plan 20 2 posts st E).
  vm_compute in E. injection E as <- <-.
  destruct (H eq_refl) as [H'|H']; [discriminate H'|].
  vm_compute in H'. apply H'. reflexivity.
Qed.

Lemma global_fallback_runs_on_low_yield_witness :
  exists posts st,
    run_scripted silent_respond two_global_plan 20 2 = Ok (posts, st)
    /\ (forall pre retry sub q lim clk r post,
          trace st = pre ++ EvQuery GlobalFallback retry sub q lim clk r :: post ->
          retry = false /\ sub = None /\ q ∈ global_queries two_global_plan
          /\ lim = 20 - total_added pre
          /\ total_added pre < 20 /\ clk <= 2).
Proof.
  destruct (run_scripted silent_respond two_global_plan 20 2) as [[posts st]|e] eqn:E;
    [|vm_compute in E; discriminate E].
  exists posts, st. split; [reflexivity|].
  exact (proj2 (proj2 (proj2
    (global_fallback_runs_on_low_yield Z (scripted_search silent_respond)
       (fun w => w) scripted_sleep two_global_plan 20 "relevance" 2
       initial_metadata 0 posts st E)))).
Defined.

(** C4, counterexample: the deadline is 4.  The second query of the
    subreddit is begun at clock 4 and returns nothing; its quote-stripped
    retry is sent at clock 5, after the deadline has passed. *)
Lemma phase2_retry_after_deadline :
  exists posts st,
    run_scripted first_query_respond quoted_depth_plan 20 4 = Ok (posts, st)
    /\ trace st
       = [EvQuery Breadth false (Some "desks") "wobble" 5 0
            [post "d1" "desks"; post "d2" "desks"];
          EvCollect Breadth (Some "desks") [post "d1" "desks"; post "d2" "desks"] 2;
          EvQuery Depth false (Some "desks") (quoted "motor noise") 5 4 [];
          EvQuery Depth true (Some "desks") "motor noise" 5 5 [];
          EvCollect Depth (Some "desks") [] 0]
    /\ ~ phase2_stops_at_deadline 4 (trace st).
Proof.
  destruct (run_scripted first_query_respond quoted_depth_plan 20 4)
    as [[posts st]|e] eqn:E; [|vm_compute in E; discriminate E].
  exists posts, st. split; [reflexivity|].
  assert (Ht : trace st
       = [EvQuery Breadth false (Some "desks") "wobble" 5 0
            [post "d1" "desks"; post "d2" "desks"];
          EvCollect Breadth (Some "desks") [post "d1" "desks"; post "d2" "desks"] 2;
          EvQuery Depth false (Some "desks") (quoted "motor noise") 5 4 [];
          EvQuery Depth true (Some "desks") "motor noise" 5 5 [];
          EvCollect Depth (Some "desks") [] 0]).
  { vm_compute in E. injection E as <- <-. vm_compute. reflexivity. }
  split; [exact Ht|].
  intros H.
  specialize (H [EvQuery Breadth false (Some "desks") "wobble" 5 0
                   [post "d1" "desks"; post "d2" "desks"];
                 EvCollect Breadth (Some "desks")
                   [post "d1" "desks"; post "d2" "desks"] 2;
                 EvQuery Depth false (Some "desks") (quoted "motor noise") 5 4 []]
                true (Some "desks") "motor noise" 5 5 []
                [EvCollect Depth (Some "desks") [] 0]).
  rewrite Ht in H. specialize (H eq_refl). lia.
Qed.

Lemma phase2_queries_only_yielding_subs_witness :
  exists posts st,
    run_scripted three_subs_respond three_subs_plan 20 1000 = Ok (posts, st)
    /\ yielding_subs st = yielded (trace st).
Proof.
  destruct (run_scripted three_subs_respond three_subs_plan 20 1000)
    as [[posts st]|e] eqn:E; [|vm_compute in E; discriminate E].
  exists posts, st. split; [reflexivity|].
  exact (proj1
    (phase2_queries_only_yielding_subs Z (scripted_search three_subs_respond)
       (fun w => w) scripted_sleep three_subs_plan 20 "relevance" 1000
       initial_metadata 0 posts st E)).
Defined.

(** C5, counterexample: a global query with double quotes that returns
    nothing is not retried. *)
Lemma global_query_not_retried :
  observe (run_scripted silent_respond quoted_global_plan 20 1000)
  = Some ([], true, [(GlobalFallback, false, None, quoted "x", 20)])
  /\ exists posts st,
       run_scripted silent_respond quoted_global_plan 20 1000 = Ok (posts, st)
       /\ ~ every_empty_quoted_query_retried (trace st).
Proof.
  split; [vm_compute; reflexivity|].
  destruct (run_scripted silent_respond quoted_global_plan 20 1000)
    as [[posts st]|e] eqn:E; [|vm_compute in E; discriminate E].
  exists posts, st. split; [reflexivity|].
  vm_compute in E. injection E as <- <-.
  intros H.
  destruct (H [] GlobalFallback None (quoted "x") 20 0
              [EvCollect GlobalFallback None [] 0] eq_refl eq_refl)
    as (clk' & r & post' & Hpost).
  discriminate Hpost.
Qed.

Lemma quote_fallback_once_per_sub_query_witness :
  exists posts st,
    run_scripted silent_respond board_games_plan 20 1000 = Ok (posts, st)
    /\ Blocks (trace st) /\ quote_retries st = retries (trace st).
Proof.
  destruct (run_scripted silent_respond board_games_plan 20 1000)
    as [[posts st]|e] eqn:E; [|vm_compute in E; discriminate E].
  exists posts, st. split; [reflexivity|].
  pose proof (quote_fallback_once_per_sub_query Z (scripted_search silent_respond)
                (fun w => w) scripted_sleep board_games_plan 20 "relevance" 1000
                initial_metadata 0 posts st E) as (Hb & Hr & _).
  split; [exact Hb|exact Hr].
Defined.

Lemma per_query_budget_witness :
  (1 <= length (subreddits espresso_plan))%nat
  /\ per_query_limit espresso_plan 10 = Ok 5.
Proof.
  split; [simpl; lia|].
  exact (proj1 (per_query_budget Z (scripted_search espresso_respond) (fun w => w)
                  scripted_sleep espresso_plan 10 "relevance" 1000
                  ltac:(simpl; lia))).
Defined.

(** ** 9. The fan-out engine: counters, metadata and the breadth of Phase 1 *)

Lemma sent_app t1 t2 : sent (t1 ++ t2) = sent t1 + sent t2.
Proof.
  induction t1 as [|e t1 IH]; [reflexivity|].
  simpl. destruct e as [ph r sb q l c ps|ph sb ps a]; [|exact IH].
  destruct (String.eqb (_sanitize_query q) ""); lia.
Qed.

Lemma scoped_events_app t1 t2 : scoped_events (t1 ++ t2) = scoped_events t1 ++ scoped_events t2.
Proof. unfold scoped_events. apply List.filter_app. Qed.

Lemma scoped_events_all t :
  Forall (fun e => ev_phase e <> GlobalFallback) t -> scoped_events t = t.
Proof.
  induction 1 as [|e t He _ IH]; [reflexivity|].
  unfold scoped_events in *. simpl. destruct (ev_phase e); [| |contradiction]; rewrite IH;
    reflexivity.
Qed.

Lemma scoped_events_none t :
  Forall (fun e => ev_phase e = GlobalFallback) t -> scoped_events t = [].
Proof.
  induction 1 as [|e t He _ IH]; [reflexivity|].
  unfold scoped_events in *. simpl. rewrite He. exact IH.
Qed.

Lemma breadth_calls_app t1 t2 : breadth_calls (t1 ++ t2) = breadth_calls t1 ++ breadth_calls t2.
Proof. apply flat_map_app. Qed.

Lemma breadth_calls_other_phase t :
  Forall (fun e => ev_phase e <> Breadth) t -> breadth_calls t = [].
Proof.
  induction 1 as [|e t He _ IH]; [reflexivity|].
  change (e :: t) with ([e] ++ t). rewrite breadth_calls_app, IH, app_nil_r.
  destruct e as [ph r sb q l c ps|ph sb ps a]; [|reflexivity].
  destruct ph; [contradiction He; reflexivity| |]; reflexivity.
Qed.

Lemma breadth_calls_visit sub q lim clk batch n b :
  visit_shape Breadth (Some sub) q lim clk batch n b -> breadth_calls b = [(sub, q)].
Proof. intros [[-> _]|(clk' & -> & _)]; reflexivity. Qed.

Section FanOutPreserved.

Variable World : Type.
Variable search_posts : World -> string -> string -> option string -> Z -> list Post * World.
Variable monotonic : World -> Z.
Variable sleep : World -> World.
Variable plan : QueryPlan.
Variable post_limit : Z.
Variable sort : string.
Variable deadline : Z.

(** A property of the state that every step of the engine keeps. *)
Variable P : FanState World -> Prop.

Hypothesis P_run_query : forall phase retry sub q lim st,
  P st -> P (_run_query World search_posts monotonic sort phase retry sub q lim st).2.
Hypothesis P_collect : forall phase sub posts st,
  P st -> P (_collect World phase sub posts st).2.
Hypothesis P_sleep : forall st, P st -> P (_sleep World sleep st).
Hypothesis P_bump : forall st, P st -> P (bump_quote_retries World st).
Hypothesis P_mark : forall sub st, P st -> P (mark_yielding World sub st).
Hypothesis P_warning : forall st,
  P st -> P (with_metadata World (fun md => add_warning md phase1_timeout_warning) st).
Hypothesis P_triggered : forall st,
  P st -> P (with_metadata World set_global_fallback_triggered st).
Hypothesis P_counts1 : forall a b st,
  P st -> P (with_metadata World (fun md => set_phase1_counts md a b) st).
Hypothesis P_counts2 : forall a b st,
  P st -> P (with_metadata World (fun md => set_phase2_counts md a b) st).

Lemma scoped_visit_preserves phase sub q lim st :
  P st -> P (scoped_visit World search_posts monotonic sort phase sub q lim st).2.
Proof.
  intros H. unfold scoped_visit, query_with_quote_fallback.
  pose proof (P_run_query phase false (Some sub) q lim st H) as H1.
  destruct (_run_query World search_posts monotonic sort phase false (Some sub) q lim st)
    as [posts st1]. cbn [snd] in H1.
  destruct posts as [|p posts]; [|apply P_collect, H1].
  destruct (has_quote q); [|apply P_collect, H1].
  pose proof (P_run_query phase true (Some sub) (strip_quotes q) lim st1 H1) as H2.
  destruct (_run_query World search_posts monotonic sort phase true (Some sub)
              (strip_quotes q) lim st1) as [posts2 st2]. cbn [snd] in H2.
  apply P_collect, P_bump, H2.
Qed.

Lemma global_visit_preserves gq st :
  P st -> P (global_visit World search_posts monotonic post_limit sort gq st).2.
Proof.
  intros H. unfold global_visit.
  pose proof (P_run_query GlobalFallback false None gq
                (post_limit - num_posts World st) st H) as H1.
  destruct (_run_query World search_posts monotonic sort GlobalFallback false None gq
              (post_limit - num_posts World st) st) as [posts st1]. cbn [snd] in H1.
  apply P_collect, H1.
Qed.

Lemma phase1_preserves pql subs : forall st,
  P st -> P (phase1 World search_posts monotonic sleep plan sort deadline pql subs st).
Proof.
  induction subs as [|sub rest IH]; intros st H; [exact H|].
  cbn [phase1]. destruct (_timed_out World monotonic deadline st); [apply P_warning, H|].
  destruct (queries_for_sub plan sub) as [|q qs]; [apply IH, H|].
  pose proof (scoped_visit_preserves Breadth sub q pql st H) as H1.
  destruct (scoped_visit World search_posts monotonic sort Breadth sub q pql st)
    as [n st1]. cbn [snd] in H1.
  apply IH, P_sleep. destruct (0 <? n); [apply P_mark, H1|exact H1].
Qed.

Lemma phase2_queries_preserves pql sub qs : forall st,
  P st ->
  P (phase2_queries World search_posts monotonic sleep post_limit sort deadline pql sub qs st).
Proof.
  induction qs as [|q rest IH]; intros st H; [exact H|].
  cbn [phase2_queries].
  destruct ((post_limit <=? num_posts World st) || _timed_out World monotonic deadline st);
    [exact H|].
  pose proof (scoped_visit_preserves Depth sub q pql st H) as H1.
  destruct (scoped_visit World search_posts monotonic sort Depth sub q pql st)
    as [n st1]. cbn [snd] in H1.
  apply IH, P_sleep, H1.
Qed.

Lemma phase2_preserves pql st :
  P st -> P (phase2 World search_posts monotonic sleep plan post_limit sort deadline pql st).
Proof.
  intros H. unfold phase2.
  destruct ((num_posts World st <? post_limit) && negb (bool_decide (yielding_subs st = [])));
    [|exact H].
  generalize (yielding_subs st). intros subs. revert st H.
  induction subs as [|sub rest IH]; intros st H; [exact H|].
  cbn [phase2_subs].
  destruct ((post_limit <=? num_posts World st) || _timed_out World monotonic deadline st);
    [exact H|].
  apply IH, phase2_queries_preserves, H.
Qed.

Lemma global_fallback_preserves threshold st :
  P st ->
  P (global_fallback World search_posts monotonic sleep plan post_limit sort deadline
       threshold st).
Proof.
  intros H. unfold global_fallback.
  destruct ((num_posts World st <? threshold) && negb (_timed_out World monotonic deadline st));
    [|exact H].
  apply P_triggered in H. revert H.
  generalize (with_metadata World set_global_fallback_triggered st).
  generalize (global_queries plan). intros qs.
  induction qs as [|gq rest IH]; intros st' H; [exact H|].
  cbn [global_loop].
  destruct ((post_limit <=? num_posts World st') || _timed_out World monotonic deadline st');
    [exact H|].
  pose proof (global_visit_preserves gq st' H) as H1.
  destruct (global_visit World search_posts monotonic post_limit sort gq st')
    as [n st1]. cbn [snd] in H1.
  apply IH, P_sleep, H1.
Qed.

(** The whole run keeps the property. *)
Lemma fan_out_preserves md w posts st :
  P (initial_state World md w) ->
  _fan_out_search World search_posts monotonic sleep plan post_limit sort deadline md w
  = Ok (posts, st) ->
  P st.
Proof.
  intros H0. rewrite fan_out_eq. intros [= _ <-].
  apply global_fallback_preserves. unfold after_phases.
  apply P_counts2, phase2_preserves, P_counts1, phase1_preserves, H0.
Qed.

End FanOutPreserved.

Section FanOutCounters.

Variable World : Type.
Variable search_posts : World -> string -> string -> option string -> Z -> list Post * World.
Variable monotonic : World -> Z.
Variable sleep : World -> World.
Variable plan : QueryPlan.
Variable post_limit : Z.
Variable sort : string.
Variable deadline : Z.

Local Abbreviation engine :=
  (_fan_out_search World search_posts monotonic sleep plan post_limit sort deadline).
Local Abbreviation budget :=
  (Z.max 2 (Z.min 5 (post_limit / Z.max (Z.of_nat (length (subreddits plan))) 1))).
Local Abbreviation threshold := (Z.max 5 (post_limit / 4)).
Local Abbreviation Inv := (Inv World plan post_limit deadline budget).
Local Abbreviation breadth :=
  (phase1 World search_posts monotonic sleep plan sort deadline budget).
Local Abbreviation depth :=
  (phase2 World search_posts monotonic sleep plan post_limit sort deadline budget).
Local Abbreviation fallback :=
  (global_fallback World search_posts monotonic sleep plan post_limit sort deadline threshold).

(** [queries_executed] counts the searches sent. *)
Lemma run_query_counts phase retry sub q lim (st : FanState World) :
  queries_executed st = sent (trace st) ->
  let st' := (_run_query World search_posts monotonic sort phase retry sub q lim st).2 in
  queries_executed st' = sent (trace st').
Proof.
  intros H. unfold _run_query.
  destruct (String.eqb (_sanitize_query q) "") eqn:E.
  - cbn [snd queries_executed trace]. rewrite sent_app, H. simpl. rewrite E. lia.
  - destruct (search_posts (world st) (_sanitize_query q) sort sub lim) as [posts w'].
    cbn [snd queries_executed trace]. rewrite sent_app, H. simpl. rewrite E. lia.
Qed.

Lemma collect_counts phase sub posts (st : FanState World) :
  queries_executed st = sent (trace st) ->
  let st' := (_collect World phase sub posts st).2 in
  queries_executed st' = sent (trace st').
Proof.
  intros H. rewrite collect_spec. cbn [snd queries_executed trace].
  rewrite sent_app, H. simpl. lia.
Qed.

(** The three stages of a run, with what the earlier sections prove of
    each of them. *)
Lemma fan_out_stages md w posts st :
  engine md w = Ok (posts, st) ->
  exists st1 st2 t2 t3,
    st1 = breadth (subreddits plan) (initial_state World md w)
    /\ Inv st1
    /\ yielding_subs st1 = yielded (trace st1)
    /\ Forall (fun e => ev_phase e = Breadth) (trace st1)
    /\ st2 = depth (with_metadata World
                      (fun md => set_phase1_counts md
                                   (Z.of_nat (length (subreddits plan)))
                                   (Z.of_nat (length (yielding_subs st1)))) st1)
    /\ Inv st2
    /\ trace st2 = trace st1 ++ t2
    /\ Forall (fun e => ev_phase e = Depth) t2
    /\ search_metadata st2
       = set_phase1_counts (search_metadata st1)
           (Z.of_nat (length (subreddits plan)))
           (Z.of_nat (length (yielding_subs st1)))
    /\ st = fallback (with_metadata World
                        (fun md => set_phase2_counts md (queries_executed st2)
                                     (num_posts World st2)) st2)
    /\ trace st = trace st2 ++ t3
    /\ Forall (fun e => ev_phase e = GlobalFallback) t3.
Proof.
  rewrite fan_out_eq. intros [= _ <-]. unfold after_phases.
  destruct (phase1_spec World search_posts monotonic sleep plan post_limit sort deadline
              budget (subreddits plan) (initial_state World md w))
    as (st1 & Est1 & HI1 & Hy1 & (t1 & Ht1 & Hp1) & _).
  { apply Inv_initial. }
  { auto. }
  { reflexivity. }
  rewrite <- Est1. cbv zeta.
  match goal with |- context [phase2 _ _ _ _ _ _ _ _ _ ?s] => set (st1' := s) end.
  destruct (phase2_spec World search_posts monotonic sleep plan post_limit sort deadline
              budget st1') as (st2 & Est2 & HI2 & _ & (t2 & Ht2 & Hp2) & Hm2).
  { apply Inv_with_metadata, HI1. }
  { exact Hy1. }
  rewrite <- Est2.
  match goal with |- context [global_fallback _ _ _ _ _ _ _ _ _ ?s] => set (st2' := s) end.
  assert (HI2' : Inv st2') by (apply Inv_with_metadata, HI2).
  destruct (global_fallback_spec World search_posts monotonic sleep plan post_limit sort
              deadline budget threshold st2' HI2') as (st' & Est' & _ & _ & Hg).
  exists st1, st2, t2.
  assert (Ht3 : exists t3, trace st' = trace st2 ++ t3
                           /\ Forall (fun e => ev_phase e = GlobalFallback) t3).
  { destruct ((num_posts World st2' <? threshold)
              && negb (_timed_out World monotonic deadline st2')).
    - destruct Hg as (_ & t & k & Ht & Hpt & _). exists t. split; assumption.
    - exists []. rewrite Hg, app_nil_r. split; [reflexivity|constructor]. }
  destruct Ht3 as (t3 & Ht3 & Hp3). exists t3.
  rewrite <- Est'.
  refine (conj eq_refl (conj HI1 (conj Hy1 (conj _ (conj Est2 (conj HI2
            (conj Ht2 (conj Hp2 (conj Hm2 (conj Est' (conj Ht3 Hp3))))))))))).
  rewrite Ht1. exact Hp1.
Qed.

Lemma counts_preserved md w posts st :
  engine md w = Ok (posts, st) -> queries_executed st = sent (trace st).
Proof.
  apply (fan_out_preserves World search_posts monotonic sleep plan post_limit sort deadline
           (fun s => queries_executed s = sent (trace s))).
  - intros. apply run_query_counts. assumption.
  - intros. apply collect_counts. assumption.
  - intros s H. exact H.
  - intros s H. exact H.
  - intros sub s H. exact H.
  - intros s H. exact H.
  - intros s H. exact H.
  - intros a b s H. exact H.
  - intros a b s H. exact H.
  - reflexivity.
Qed.

Lemma counts_after_depth (st0 : FanState World) :
  queries_executed st0 = sent (trace st0) ->
  queries_executed (depth st0) = sent (trace (depth st0)).
Proof.
  apply (phase2_preserves World search_posts monotonic sleep plan post_limit sort deadline
           (fun s => queries_executed s = sent (trace s))).
  - intros. apply run_query_counts. assumption.
  - intros. apply collect_counts. assumption.
  - intros s H. exact H.
  - intros s H. exact H.
Qed.

Lemma counts_after_breadth subs (st0 : FanState World) :
  queries_executed st0 = sent (trace st0) ->
  queries_executed (breadth subs st0) = sent (trace (breadth subs st0)).
Proof.
  apply (phase1_preserves World search_posts monotonic sleep plan sort deadline
           (fun s => queries_executed s = sent (trace s))).
  - intros. apply run_query_counts. assumption.
  - intros. apply collect_counts. assumption.
  - intros s H. exact H.
  - intros s H. exact H.
  - intros sub s H. exact H.
  - intros s H. exact H.
Qed.

(** The fallback changes nothing in the metadata but its own flag. *)
Lemma fallback_metadata (st0 : FanState World) :
  search_metadata (fallback st0) = search_metadata st0
  \/ search_metadata (fallback st0) = set_global_fallback_triggered (search_metadata st0).
Proof.
  apply (global_fallback_preserves World search_posts monotonic sleep plan post_limit sort
           deadline
           (fun s => search_metadata s = search_metadata st0
                     \/ search_metadata s
                        = set_global_fallback_triggered (search_metadata st0))).
  - intros phase retry sub q lim s H.
    destruct (run_query_spec World search_posts monotonic sort phase retry sub q lim s)
      as (ps & w' & k & ->). exact H.
  - intros phase sub ps s H. rewrite collect_spec. exact H.
  - intros s H. exact H.
  - intros s [H|H]; right; cbn [with_metadata search_metadata]; rewrite H; reflexivity.
  - left. reflexivity.
Qed.

(** X1: what the engine writes into the metadata.  [subreddits_searched]
    is the size of the plan; [subreddits_yielded] the number of subreddits
    whose Phase 1 collect returned a positive count;
    [total_queries_executed] and [posts_before_dedup] both hold the number
    of searches sent in Phases 1 and 2, so the searches of the global
    fallback are not in them; [posts_after_dedup] is the number of posts
    collected before the fallback; and the engine's own counter agrees with
    the searches of the whole run. *)
Theorem fan_out_metadata_counters md w posts st :
  engine md w = Ok (posts, st) ->
  let md' := search_metadata st in
  let before := scoped_events (trace st) in
  subreddits_searched md' = Z.of_nat (length (subreddits plan))
  /\ subreddits_yielded md' = Z.of_nat (length (yielded (trace st)))
  /\ total_queries_executed md' = sent before
  /\ posts_before_dedup md' = sent before
  /\ posts_after_dedup md' = total_added before
  /\ queries_executed st = sent (trace st)
  /\ sent before <= sent (trace st).
Proof.
  intros E. pose proof (counts_preserved md w posts st E) as Hq.
  destruct (fan_out_stages md w posts st E)
    as (st1 & st2 & t2 & t3 & Est1 & HI1 & Hy1 & Hp1 & Est2 & HI2 & Ht2 & Hp2 & Hm2
        & Est & Ht3 & Hp3).
  cbv zeta.
  assert (Hbefore : scoped_events (trace st) = trace st2).
  { rewrite Ht3, scoped_events_app, (scoped_events_none t3 Hp3), app_nil_r.
    apply scoped_events_all. rewrite Ht2. apply Forall_app. split.
    - eapply Forall_impl; [exact Hp1|]. intros e ->. discriminate.
    - eapply Forall_impl; [exact Hp2|]. intros e ->. discriminate. }
  assert (Hq2 : queries_executed st2 = sent (trace st2)).
  { rewrite Est2. apply counts_after_depth. cbn [with_metadata queries_executed trace].
    rewrite Est1. apply counts_after_breadth. reflexivity. }
  assert (Hyield : yielded (trace st) = yielding_subs st1).
  { rewrite Ht3, Ht2, !yielded_app, (yielded_other_phase t2), (yielded_other_phase t3),
      !app_nil_r; [symmetry; exact Hy1| |].
    - eapply Forall_impl; [exact Hp3|]. intros e ->. discriminate.
    - eapply Forall_impl; [exact Hp2|]. intros e ->. discriminate. }
  assert (Hn2 : num_posts World st2 = total_added (trace st2)).
  { apply (inv_count World plan post_limit deadline budget st2 HI2). }
  assert (Hmd : search_metadata st
                = set_phase2_counts (search_metadata st2) (queries_executed st2)
                    (num_posts World st2)
                \/ search_metadata st
                   = set_global_fallback_triggered
                       (set_phase2_counts (search_metadata st2) (queries_executed st2)
                          (num_posts World st2))).
  { rewrite Est. apply fallback_metadata. }
  rewrite Hbefore, Hyield.
  assert (Hle : sent (trace st2) <= sent (trace st)).
  { rewrite Ht3, sent_app.
    assert (0 <= sent t3); [|lia].
    clear. induction t3 as [|e t IH]; [simpl; lia|].
    simpl. destruct e as [ph r sb q l c ps|ph sb ps a]; [|exact IH].
    destruct (String.eqb (_sanitize_query q) ""); lia. }
  destruct Hmd as [-> | ->];
    cbn [set_global_fallback_triggered set_phase2_counts subreddits_searched
         subreddits_yielded total_queries_executed posts_before_dedup posts_after_dedup];
    rewrite Hm2;
    cbn [set_phase1_counts subreddits_searched subreddits_yielded];
    rewrite Hq2, Hn2; auto 10.
Qed.

(** Phase 1 in terms of its first calls: it works through [subs] in order
    and stops early only at a reading of the clock past the deadline, which
    it reports. *)
Lemma phase1_breadth subs : forall st : FanState World,
  exists k,
    breadth_calls (trace (breadth subs st))
    = breadth_calls (trace st) ++ take k (first_queries plan subs)
    /\ ((k = length (first_queries plan subs)
         /\ search_metadata (breadth subs st) = search_metadata st)
        \/ search_metadata (breadth subs st)
           = add_warning (search_metadata st) phase1_timeout_warning)
    /\ ((forall w, monotonic w <= deadline) -> k = length (first_queries plan subs)).
Proof.
  induction subs as [|sub rest IH]; intros st.
  { exists 0%nat. simpl. rewrite app_nil_r. auto. }
  cbn [phase1]. destruct (_timed_out World monotonic deadline st) eqn:Et.
  { exists 0%nat. cbn [with_metadata trace search_metadata take]. rewrite app_nil_r.
    split; [reflexivity|]. split; [right; reflexivity|].
    intros Hclk. unfold _timed_out in Et. apply Z.ltb_lt in Et.
    specialize (Hclk (world st)). lia. }
  unfold first_queries. cbn [flat_map]. fold (first_queries plan rest).
  destruct (queries_for_sub plan sub) as [|q qs].
  { rewrite app_nil_l. apply IH. }
  destruct (visit_spec World search_posts monotonic sort Breadth sub q budget st)
    as (batch & w' & n & b & -> & Hshape); [discriminate|].
  match goal with |- context [phase1 _ _ _ _ _ _ _ _ rest ?s] => set (st' := s) end.
  assert (Htr : trace st' = trace st ++ b).
  { unfold st'. destruct (0 <? _); reflexivity. }
  assert (Hmd : search_metadata st' = search_metadata st).
  { unfold st'. destruct (0 <? _); reflexivity. }
  destruct (IH st') as (k & Hcalls & Hwarn & Hall).
  exists (S k). rewrite Hcalls, Htr, breadth_calls_app.
  rewrite (breadth_calls_visit _ _ _ _ _ _ _ Hshape).
  split; [rewrite <- app_assoc; reflexivity|].
  split.
  - destruct Hwarn as [[-> Hsame]|Hw].
    + left. split; [reflexivity|]. rewrite Hsame. exact Hmd.
    + right. rewrite Hw, Hmd. reflexivity.
  - intros Hclk. rewrite (Hall Hclk). reflexivity.
Qed.


(** Without a second query per subreddit, Phase 2 has nothing to run. *)
Lemma depth_idle (st0 : FanState World) :
  (forall s, (length (queries_for_sub plan s) <= 1)%nat) -> depth st0 = st0.
Proof.
  intros Hone. unfold phase2.
  destruct ((num_posts World st0 <? post_limit)
            && negb (bool_decide (yielding_subs st0 = []))); [|reflexivity].
  generalize (yielding_subs st0). intros subs.
  induction subs as [|sub rest IH]; [reflexivity|].
  cbn [phase2_subs].
  destruct ((post_limit <=? num_posts World st0) || _timed_out World monotonic deadline st0);
    [reflexivity|].
  specialize (Hone sub). destruct (queries_for_sub plan sub) as [|q [|q' qs]];
    [exact IH|exact IH|simpl in Hone; lia].
Qed.

Lemma single_query_no_depth md w posts st :
  (forall s, (length (queries_for_sub plan s) <= 1)%nat) ->
  engine md w = Ok (posts, st) ->
  Forall (fun e => ev_phase e <> Depth) (trace st)
  /\ Forall (fun e => ev_phase e = Breadth) (scoped_events (trace st)).
Proof.
  intros Hone E.
  destruct (fan_out_stages md w posts st E)
    as (st1 & st2 & t2 & t3 & Est1 & HI1 & Hy1 & Hp1 & Est2 & HI2 & Ht2 & Hp2 & Hm2
        & Est & Ht3 & Hp3).
  rewrite (depth_idle _ Hone) in Est2.
  assert (Htr : trace st2 = trace st1) by (rewrite Est2; reflexivity).
  rewrite Ht3, Htr. split.
  - apply Forall_app. split.
    + eapply Forall_impl; [exact Hp1|]. intros e ->. discriminate.
    + eapply Forall_impl; [exact Hp3|]. intros e ->. discriminate.
  - rewrite scoped_events_app, (scoped_events_none t3 Hp3), app_nil_r.
    rewrite scoped_events_all; [exact Hp1|].
    eapply Forall_impl; [exact Hp1|]. intros e ->. discriminate.
Qed.

(** X3: a plan in which no subreddit has a second query is searched in one
    pass.  Phase 2 sends nothing, so every scoped call belongs to Phase 1,
    and the number of posts before the fallback is what Phase 1 found. *)
Theorem single_query_plan_skips_phase2 md w posts st :
  (forall s, (length (queries_for_sub plan s) <= 1)%nat) ->
  engine md w = Ok (posts, st) ->
  Forall (fun e => ev_phase e <> Depth) (trace st)
  /\ Forall (fun e => ev_phase e = Breadth) (scoped_events (trace st)).
Proof. exact (single_query_no_depth md w posts st). Qed.

End FanOutCounters.

Example metadata_counters_run :
  match run_scripted silent_respond board_games_plan 20 1000 with
  | Ok (_, st) =>
      Some (total_queries_executed (search_metadata st),
            posts_before_dedup (search_metadata st),
            queries_executed st,
            subreddits_searched (search_metadata st),
            subreddits_yielded (search_metadata st))
  | Raise _ => None
  end
  = Some (2, 2, 3, 1, 0).
Proof. vm_compute. reflexivity. Qed.

Lemma fan_out_metadata_counters_witness :
  exists posts st,
    run_scripted silent_respond board_games_plan 20 1000 = Ok (posts, st)
    /\ total_queries_executed (search_metadata st) = sent (scoped_events (trace st))
    /\ queries_executed st = sent (trace st).
Proof.
  destruct (run_scripted silent_respond board_games_plan 20 1000)
    as [[posts st]|e] eqn:E; [|vm_compute in E; discriminate E].
  exists posts, st. split; [reflexivity|].
  pose proof (fan_out_metadata_counters Z (scripted_search silent_respond)
                (fun w => w) scripted_sleep board_games_plan 20 "relevance" 1000
                initial_metadata 0 posts st E) as H.
  cbv zeta in H. destruct H as (_ & _ & Ht & _ & _ & Hq & _).
  split; [exact Ht|exact Hq].
Defined.


Lemma single_query_plan_one_each s :
  (length (queries_for_sub single_query_plan s) <= 1)%nat.
Proof.
  unfold queries_for_sub.
  destruct (sub_queries single_query_plan !! s) as [[|q qs]|] eqn:E; [simpl; lia| |simpl; lia].
  unfold single_query_plan in E. cbn [sub_queries] in E.
  apply lookup_insert_Some in E as [[_ E]|[_ E]].
  - injection E as <- <-. simpl. lia.
  - apply lookup_singleton_Some in E as [_ E]. injection E as <- <-. simpl. lia.
Defined.

Lemma single_query_plan_skips_phase2_witness :
  exists posts st,
    run_scripted three_subs_respond single_query_plan 20 1000 = Ok (posts, st)
    /\ Forall (fun e => ev_phase e <> Depth) (trace st).
Proof.
  destruct (run_scripted three_subs_respond single_query_plan 20 1000)
    as [[posts st]|e] eqn:E; [|vm_compute in E; discriminate E].
  exists posts, st. split; [reflexivity|].
  exact (proj1 (single_query_plan_skips_phase2 Z (scripted_search three_subs_respond)
                  (fun w => w) scripted_sleep single_query_plan 20 "relevance" 1000
                  initial_metadata 0 posts st single_query_plan_one_each E)).
Defined.

(** ** 10. The fetch client: the answer that ends the back-off *)

Section FetchRoundsFacts.

Variable World : Type.
Variable Json : Type.
Variable session_get :
  World -> string -> option (list (string * string)) -> Result (Response Json) * World.
Variable time_sleep : World -> Z -> World.

Local Abbreviation fetch_attempts := (fetch_attempts World Json session_get time_sleep).
Local Abbreviation _fetch_json := (_fetch_json World Json session_get time_sleep).
Local Abbreviation after_429s := (after_429s World Json session_get time_sleep).

Lemma settle_answer attempt rest url params (st : Net World) r w' :
  session_get (net_world st) url params = (r, w') ->
  (forall resp, r = Ok resp -> status_code resp <> 429) ->
  fetch_attempts (attempt :: rest) url params st
  = (settled r, {| net_world := w'; net_trace := net_trace st ++ [EvGet url] |}).
Proof.
  intros Eg Hs. cbn [fetch_attempts]. unfold do_get. rewrite Eg.
  destruct r as [resp|e].
  - specialize (Hs resp eq_refl). apply Z.eqb_neq in Hs. rewrite Hs.
    unfold settled, decoded, raise_for_status, resp_json.
    destruct (str_contains "json" (content_type resp)),
             (str_contains "javascript" (content_type resp));
      cbn [negb andb orb]; try reflexivity;
      destruct ((400 <=? status_code resp) && (status_code resp <? 600));
      cbn [negb andb]; try reflexivity;
      destruct (json_body resp); reflexivity.
  - destruct e; reflexivity.
Qed.

Lemma fetch_attempts_rounds url params r : forall j a n (st : Net World) wj w',
  (a + n = 4)%nat -> (a + j <= 3)%nat ->
  after_429s (take j (drop a _429_BACKOFF_DELAYS)) url params (net_world st) = Some wj ->
  session_get wj url params = (r, w') ->
  (forall resp, r = Ok resp -> status_code resp <> 429) ->
  fetch_attempts (seq a n) url params st
  = (settled r,
     {| net_world := w';
        net_trace := net_trace st
                     ++ flat_map (fun d => [EvGet url; EvSleep d])
                          (take j (drop a _429_BACKOFF_DELAYS))
                     ++ [EvGet url] |}).
Proof.
  induction j as [|j IH]; intros a n st wj w' Ha Hj Hr Eg Hs.
  { cbn [take] in Hr. injection Hr as <-.
    destruct n as [|n]; [lia|]. cbn [seq take flat_map app].
    apply settle_answer; assumption. }
  destruct n as [|n]; [lia|].
  destruct (_429_BACKOFF_DELAYS !! a) as [delay|] eqn:Ed.
  2:{ apply lookup_ge_None in Ed. simpl in Ed. lia. }
  rewrite (drop_S _ delay a Ed) in Hr |- *. cbn [take after_429s] in Hr.
  cbn [seq fetch_attempts take flat_map]. unfold do_get.
  destruct (session_get (net_world st) url params) as [[resp|e] w1]; [|discriminate Hr].
  destruct (status_code resp =? 429); [|discriminate Hr].
  assert (Elt : (a <? length _429_BACKOFF_DELAYS)%nat = true).
  { apply Nat.ltb_lt. simpl. lia. }
  rewrite Elt, Ed.
  rewrite (IH (S a) n (do_sleep World time_sleep
                         {| net_world := w1; net_trace := net_trace st ++ [EvGet url] |}
                         delay) wj w'); [|lia|lia|exact Hr|exact Eg|exact Hs].
  cbn [do_sleep net_trace]. rewrite <- !app_assoc. reflexivity.
Qed.

(** X4: the answer that ends the back-off decides the call.  After [k]
    rate-limit rounds ([k] at most 3: a GET answered 429, then the sleep of
    5, 10, 20 seconds), the next outcome that is not a 429 is final: a
    response gives its decoded body when its content type mentions JSON or
    JavaScript and its status is not an error, and [None] otherwise; a
    [RequestException] or [ValueError] gives [None]; any other exception
    reaches the caller.  In each case there is no further GET and no
    further sleep. *)
Theorem fetch_json_settles_after_backoff (st : Net World) url params k wk r w' :
  (k <= 3)%nat ->
  after_429s (take k _429_BACKOFF_DELAYS) url params (net_world st) = Some wk ->
  session_get wk url params = (r, w') ->
  (forall resp, r = Ok resp -> status_code resp <> 429) ->
  _fetch_json st url params
  = (settled r,
     {| net_world := w'; net_trace := net_trace st ++ backoff_trace url k |}).
Proof.
  intros Hk Hr Eg Hs. unfold _fetch_json, backoff_trace.
  change (length _429_BACKOFF_DELAYS + 1)%nat with 4%nat.
  apply (fetch_attempts_rounds url params r k 0 4 st wk w'); try assumption; lia.
Qed.

End FetchRoundsFacts.

(** Two rate-limit rounds followed by an exception. *)
Example fetch_json_failing_after_two_rounds :
  _fetch_json nat string (failing_get RequestException) (fun w _ => w) (mkNet 0%nat []) "u" None
  = (Ok None, mkNet 3%nat [EvGet "u"; EvSleep 5; EvGet "u"; EvSleep 10; EvGet "u"])
  /\ fst (_fetch_json nat string (failing_get OtherError) (fun w _ => w)
            (mkNet 0%nat []) "u" None)
     = Raise OtherError.
Proof. split; reflexivity. Qed.

Lemma fetch_json_settles_after_backoff_witness :
  _fetch_json nat string (failing_get OtherError) (fun w _ => w) (mkNet 0%nat []) "u" None
  = (Raise OtherError, mkNet 3%nat ([] ++ backoff_trace "u" 2)).
Proof.
  apply (fetch_json_settles_after_backoff nat string (failing_get OtherError)
           (fun w _ => w) (mkNet 0%nat []) "u" None 2 2%nat (Raise OtherError) 3%nat).
  - lia.
  - reflexivity.
  - reflexivity.
  - intros resp H. discriminate H.
Defined.

(** ** 11. Strings: lower case, words and joins *)

Lemma chars_of_append a b :
  list_ascii_of_string (a +:+ b) = list_ascii_of_string a ++ list_ascii_of_string b.
Proof. induction a as [|c a IH]; [reflexivity|]. simpl. rewrite IH. reflexivity. Qed.

Lemma string_length_chars s : String.length s = length (list_ascii_of_string s).
Proof. induction s as [|c s IH]; [reflexivity|]. simpl. rewrite IH. reflexivity. Qed.

Lemma string_of_chars_inj a b : string_of_list_ascii a = string_of_list_ascii b -> a = b.
Proof.
  intros H. apply (f_equal list_ascii_of_string) in H.
  rewrite !list_ascii_of_string_of_list_ascii in H. exact H.
Qed.

Lemma lower_char_idem c : lower_char (lower_char c) = lower_char c.
Proof. destruct c as [[] [] [] [] [] [] [] []]; reflexivity. Qed.

Lemma lower_char_space c : is_space (lower_char c) = is_space c.
Proof. destruct c as [[] [] [] [] [] [] [] []]; reflexivity. Qed.

Lemma chars_of_lower s :
  list_ascii_of_string (py_lower s) = map lower_char (list_ascii_of_string s).
Proof. unfold py_lower. apply list_ascii_of_string_of_list_ascii. Qed.

Lemma py_lower_idem s : py_lower (py_lower s) = py_lower s.
Proof.
  unfold py_lower at 1. rewrite chars_of_lower, map_map. unfold py_lower. f_equal.
  apply map_ext. intros c. apply lower_char_idem.
Qed.

Lemma py_lower_length s : String.length (py_lower s) = String.length s.
Proof. rewrite !string_length_chars, chars_of_lower. apply length_map. Qed.

Lemma py_lower_append a b : py_lower (a +:+ b) = py_lower a +:+ py_lower b.
Proof.
  rewrite <- (string_of_list_ascii_of_string (py_lower a +:+ py_lower b)).
  unfold py_lower at 1. f_equal.
  rewrite !chars_of_append, !chars_of_lower, map_app. reflexivity.
Qed.

Lemma split_from_tokens s : forall word,
  forallb (fun c => negb (is_space c)) word = true ->
  Forall (fun w => w <> [] /\ forallb (fun c => negb (is_space c)) w = true)
         (split_from word s).
Proof.
  induction s as [|c t IH]; intros word Hw.
  { destruct word; constructor; [|constructor]. split; [discriminate|exact Hw]. }
  cbn [split_from]. destruct (is_space c) eqn:Ec.
  - destruct word as [|x word]; [apply IH; reflexivity|].
    constructor; [split; [discriminate|exact Hw]|apply IH; reflexivity].
  - apply IH. rewrite forallb_app, Hw. simpl. rewrite Ec. reflexivity.
Qed.

Lemma split_from_word w : forall word rest,
  forallb (fun c => negb (is_space c)) w = true ->
  split_from word (w ++ rest) = split_from (word ++ w) rest.
Proof.
  induction w as [|c w IH]; intros word rest Hw.
  { rewrite app_nil_r. reflexivity. }
  simpl in Hw. apply andb_true_iff in Hw as [Hc Hw]. apply negb_true_iff in Hc.
  cbn [app split_from]. rewrite Hc, IH by exact Hw. rewrite <- app_assoc. reflexivity.
Qed.

Lemma is_token_chars w :
  is_token w = true ->
  list_ascii_of_string w <> []
  /\ forallb (fun c => negb (is_space c)) (list_ascii_of_string w) = true.
Proof.
  unfold is_token. destruct (list_ascii_of_string w) as [|c cs]; [discriminate|].
  intros H. split; [discriminate|exact H].
Qed.

Lemma py_split_tokens s : Forall (fun w => is_token w = true) (py_split s).
Proof.
  unfold py_split. apply Forall_fmap.
  eapply Forall_impl; [apply (split_from_tokens _ []); reflexivity|].
  intros w [Hne Hw]. unfold compose, is_token.
  rewrite list_ascii_of_string_of_list_ascii. destruct w; [contradiction|exact Hw].
Qed.

(** [" ".join(words).split()] gives the words back. *)
Lemma py_split_join ws :
  Forall (fun w => is_token w = true) ws -> py_split (py_join " " ws) = ws.
Proof.
  intros H. unfold py_split.
  assert (Hs : split_from [] (list_ascii_of_string (py_join " " ws))
               = list_ascii_of_string <$> ws).
  { induction H as [|x rest Hx Hrest IH]; [reflexivity|].
    apply is_token_chars in Hx as [Hne Hx].
    destruct rest as [|y rest].
    - cbn [py_join fmap list_fmap].
      rewrite <- (app_nil_r (list_ascii_of_string x)) at 1.
      rewrite split_from_word by exact Hx. cbn [app split_from].
      destruct (list_ascii_of_string x); [contradiction|reflexivity].
    - change (py_join " " (x :: y :: rest)) with (x +:+ " " +:+ py_join " " (y :: rest)).
      rewrite !chars_of_append, split_from_word by exact Hx.
      cbn [app list_ascii_of_string split_from].
      change (is_space " "%char) with true. cbv iota.
      rewrite IH. cbn [fmap list_fmap].
      destruct (list_ascii_of_string x); [contradiction|reflexivity]. }
  rewrite Hs, <- list_fmap_compose.
  rewrite <- (list_fmap_id ws) at 2. apply list_fmap_ext.
  intros _ w _. apply string_of_list_ascii_of_string.
Qed.

Lemma filter_all {A} (f : A -> bool) l :
  Forall (fun x => f x = true) l -> List.filter f l = l.
Proof.
  induction 1 as [|x l Hx _ IH]; [reflexivity|]. simpl. rewrite Hx, IH. reflexivity.
Qed.

Lemma is_token_lower w : is_token (py_lower w) = is_token w.
Proof.
  unfold is_token. rewrite chars_of_lower.
  destruct (list_ascii_of_string w) as [|c cs]; [reflexivity|].
  simpl. rewrite lower_char_space. f_equal.
  induction cs as [|d cs IH]; [reflexivity|]. simpl. rewrite lower_char_space, IH.
  reflexivity.
Qed.

Lemma query_keywords_are_keywords query :
  Forall (fun kw => is_keyword kw = true) (_query_keywords query).
Proof.
  unfold _query_keywords. apply Forall_fmap, Forall_forall.
  intros w Hw. apply list_elem_of_In, filter_In in Hw as [Hin Hf].
  apply andb_true_iff in Hf as [Hlen Hstop].
  pose proof (py_split_tokens query) as Ht. rewrite Forall_forall in Ht.
  specialize (Ht w (proj2 (list_elem_of_In _ _) Hin)).
  unfold compose, is_keyword.
  rewrite is_token_lower, Ht, py_lower_length, Hlen, py_lower_idem, String.eqb_refl, Hstop.
  reflexivity.
Qed.

(** A list of keywords is what [_query_keywords] finds in its join. *)
Lemma query_keywords_of_join ks :
  Forall (fun kw => is_keyword kw = true) ks ->
  _query_keywords (py_join " " ks) = ks.
Proof.
  intros H. unfold _query_keywords.
  rewrite py_split_join.
  2:{ eapply Forall_impl; [exact H|]. intros kw Hk. unfold is_keyword in Hk.
      rewrite !andb_true_iff in Hk. tauto. }
  rewrite filter_all.
  2:{ eapply Forall_impl; [exact H|]. intros kw Hk. unfold is_keyword in Hk.
      rewrite !andb_true_iff in Hk. destruct Hk as [[[_ Hl] He] Hs].
      apply String.eqb_eq in He. rewrite He, Hl, Hs. reflexivity. }
  rewrite <- (list_fmap_id ks) at 2. apply Forall_fmap_ext_1.
  eapply Forall_impl; [exact H|]. intros kw Hk. unfold is_keyword in Hk.
  rewrite !andb_true_iff in Hk. destruct Hk as [[[_ _] He] _].
  apply String.eqb_eq in He. exact He.
Qed.

(** X5: [_query_keywords] returns keywords in normal form: words without
    whitespace, longer than two characters, in lower case, none of them a
    stopword, and no more of them than the query has words.  Extracting the
    keywords of their own join gives them back, so the extraction is
    idempotent. *)
Theorem query_keywords_normal_form query :
  Forall (fun kw => is_keyword kw = true) (_query_keywords query)
  /\ _query_keywords (py_join " " (_query_keywords query)) = _query_keywords query
  /\ (length (_query_keywords query) <= length (py_split query))%nat.
Proof.
  split; [apply query_keywords_are_keywords|].
  split; [apply query_keywords_of_join, query_keywords_are_keywords|].
  unfold _query_keywords. rewrite length_fmap. apply filter_length_le.
Qed.

Example query_keywords_example :
  _query_keywords "My DOG is the Best toy for dogs" = ["dog"; "best"; "toy"; "dogs"]
  /\ _query_keywords "an AI of my own" = ["own"].
Proof. split; vm_compute; reflexivity. Qed.

(** ** 12. Relevance scores *)

Lemma prefix_append a : forall n b,
  String.prefix n a = true -> String.prefix n (a +:+ b) = true.
Proof.
  induction a as [|d a IH]; intros n b H.
  - destruct n; [|discriminate H]. destruct b; reflexivity.
  - destruct n as [|c n]; [reflexivity|].
    simpl in H |- *. destruct (ascii_dec c d); [apply IH, H|discriminate H].
Qed.

Lemma str_contains_append n a b :
  str_contains n a = true -> str_contains n (a +:+ b) = true.
Proof.
  induction a as [|d a IH]; intros H.
  - simpl in H. destruct n; [|discriminate H].
    destruct b; reflexivity.
  - cbn [str_contains] in H.
    change (String d a +:+ b) with (String d (a +:+ b)). cbn [str_contains].
    apply orb_true_iff in H as [H|H].
    + apply (prefix_append _ _ b) in H.
      change (String d a +:+ b) with (String d (a +:+ b)) in H. rewrite H. reflexivity.
    + rewrite (IH H). apply orb_true_r.
Qed.

Lemma append_assoc a b c : (a +:+ b) +:+ c = a +:+ b +:+ c.
Proof.
  induction a as [|x a IH]; [reflexivity|].
  change (String x ((a +:+ b) +:+ c) = String x (a +:+ b +:+ c)). rewrite IH. reflexivity.
Qed.

Lemma append_empty_r a : a +:+ "" = a.
Proof.
  induction a as [|x a IH]; [reflexivity|].
  change (String x (a +:+ "") = String x a). rewrite IH. reflexivity.
Qed.

Lemma filter_length_mono {A} (f g : A -> bool) l :
  (forall x, f x = true -> g x = true) ->
  (length (List.filter f l) <= length (List.filter g l))%nat.
Proof.
  intros H. induction l as [|x l IH]; [reflexivity|].
  simpl. destruct (f x) eqn:Ef.
  - rewrite (H x Ef). simpl. lia.
  - destruct (g x); simpl; lia.
Qed.

(** X6: the relevance score counts keywords, so it lies between zero and
    the number of keywords; it reads the name and the description in lower
    case, so their letter case does not matter; and a description can only
    add to the score of the name alone. *)
Theorem relevance_score_bounds name description keywords :
  0 <= _relevance_score name description keywords <= Z.of_nat (length keywords)
  /\ _relevance_score (py_lower name) (py_lower description) keywords
     = _relevance_score name description keywords
  /\ _relevance_score name "" keywords <= _relevance_score name description keywords.
Proof.
  unfold _relevance_score. split; [|split].
  - split; [lia|]. apply Nat2Z.inj_le, filter_length_le.
  - rewrite !py_lower_append, !py_lower_idem. reflexivity.
  - apply Nat2Z.inj_le, filter_length_mono. intros kw H.
    rewrite !py_lower_append in H |- *.
    change (py_lower "") with "" in H. rewrite append_empty_r in H.
    rewrite <- !append_assoc. apply str_contains_append. exact H.
Qed.

Example relevance_score_example :
  _relevance_score "DogToys" "All about dog toys" ["dog"; "toy"; "dogs"] = 2
  /\ _relevance_score "DogToys" "" ["dog"; "toy"; "dogs"] = 2
  /\ _relevance_score "dogs" "" ["Dog"] = 0.
Proof. repeat split; vm_compute; reflexivity. Qed.

(** ** 13. Quoted terms survive the sanitizer *)

Local Abbreviation hq := (existsb (Ascii.eqb dquote)).

Lemma quote_not_space c : Ascii.eqb dquote c = true -> is_space c = false.
Proof. intros H. apply Ascii.eqb_eq in H. subst c. reflexivity. Qed.

Lemma quote_not_paren c : Ascii.eqb dquote c = true -> is_paren c = false.
Proof. intros H. apply Ascii.eqb_eq in H. subst c. reflexivity. Qed.

Lemma hq_re_sub_AND n : forall s pw,
  (length s <= n)%nat -> hq s = true -> hq (re_sub_AND pw s) = true.
Proof.
  induction n as [|n IH]; intros s pw Hn H.
  { destruct s; [discriminate H|simpl in Hn; lia]. }
  destruct s as [|c t]; [discriminate H|].
  rewrite re_sub_AND_cons. destruct (fires pw (c :: t)) eqn:Ef.
  - apply fires_inv in Ef as (r & E & _ & _). rewrite E in H |- *.
    change (drop 3 ("A"%char :: "N"%char :: "D"%char :: r)) with r.
    apply IH; [rewrite E in Hn; simpl in Hn; lia|exact H].
  - simpl in H |- *. apply orb_true_iff in H as [H|H].
    + rewrite H. reflexivity.
    + rewrite (IH t (is_word c)); [apply orb_true_r|simpl in Hn; lia|exact H].
Qed.

Lemma hq_re_sub_parens s : hq s = true -> hq (re_sub_parens s) = true.
Proof.
  induction s as [|c t IH]; intros H; [discriminate H|].
  simpl in H. apply orb_true_iff in H as [H|H].
  - cbn [re_sub_parens]. rewrite (quote_not_paren c H). simpl. rewrite H. reflexivity.
  - cbn [re_sub_parens]. destruct (is_paren c); [apply IH, H|].
    simpl. rewrite (IH H). apply orb_true_r.
Qed.

Lemma hq_re_sub_ws s : forall in_ws, hq s = true -> hq (re_sub_ws in_ws s) = true.
Proof.
  induction s as [|c t IH]; intros in_ws H; [discriminate H|].
  simpl in H. apply orb_true_iff in H as [H|H].
  - cbn [re_sub_ws]. rewrite (quote_not_space c H). simpl. rewrite H. reflexivity.
  - cbn [re_sub_ws]. destruct (is_space c).
    + destruct in_ws; [apply IH, H|]. simpl. apply IH, H.
    + simpl. rewrite (IH false H). apply orb_true_r.
Qed.

Lemma hq_lstrip s : hq s = true -> hq (lstrip s) = true.
Proof.
  induction s as [|c t IH]; intros H; [discriminate H|].
  cbn [lstrip]. destruct (is_space c) eqn:Ec; [|exact H].
  simpl in H. apply orb_true_iff in H as [H|H]; [|apply IH, H].
  rewrite (quote_not_space c H) in Ec. discriminate Ec.
Qed.

Lemma hq_rstrip s : hq s = true -> hq (rstrip s) = true.
Proof.
  induction s as [|c t IH]; intros H; [discriminate H|].
  simpl in H. cbn [rstrip]. apply orb_true_iff in H as [H|H].
  - destruct (rstrip t) as [|x r].
    + rewrite (quote_not_space c H). simpl. rewrite H. reflexivity.
    + simpl. rewrite H. reflexivity.
  - specialize (IH H). destruct (rstrip t) as [|x r]; [discriminate IH|].
    cbn [existsb] in IH |- *. rewrite IH. apply orb_true_r.
Qed.

(** A double quote in a query is still there after [_sanitize_query]. *)
Lemma sanitize_keeps_quotes q : has_quote q = true -> has_quote (_sanitize_query q) = true.
Proof.
  unfold has_quote, _sanitize_query, sanitize_chars, strip. intros H.
  rewrite list_ascii_of_string_of_list_ascii.
  apply hq_rstrip, hq_lstrip, hq_re_sub_ws, hq_re_sub_parens.
  apply (hq_re_sub_AND (length (list_ascii_of_string q))); [lia|exact H].
Qed.

Lemma quoted_query_intro q : has_quote q = true -> quoted_query q.
Proof.
  intros H. pose proof (sanitize_keeps_quotes q H) as Hs.
  split; [exact H|]. split; [exact Hs|].
  intros E. rewrite E in Hs. discriminate Hs.
Qed.

Lemma has_quote_append a b : has_quote (a +:+ b) = has_quote a || has_quote b.
Proof. unfold has_quote. rewrite chars_of_append. apply existsb_app. Qed.

Lemma has_quote_in_quotes t : has_quote (in_quotes t) = true.
Proof. unfold has_quote, in_quotes. simpl. reflexivity. Qed.

Lemma has_quote_or_of_quoted t ts : has_quote (or_of_quoted (t :: ts)) = true.
Proof.
  unfold or_of_quoted. rewrite fmap_cons. cbn [py_join].
  destruct (in_quotes <$> ts).
  - apply has_quote_in_quotes.
  - rewrite has_quote_append, has_quote_in_quotes. reflexivity.
Qed.

Lemma has_quote_wrapped a t ts b :
  has_quote (a +:+ or_of_quoted (t :: ts) +:+ b) = true.
Proof. rewrite !has_quote_append, has_quote_or_of_quoted. apply orb_true_r. Qed.

Lemma fromkeys_head x l : fromkeys [] (x :: l) = x :: fromkeys [x] l.
Proof. reflexivity. Qed.

(** The terms of a pain query are never empty. *)
Lemma pain_terms_cons sentiment :
  exists t ts, fromkeys [] (sentiment ++ _PAIN_SEARCH_TERMS) = t :: ts.
Proof.
  destruct sentiment as [|s rest]; [eexists _, _; reflexivity|].
  eexists _, _. cbn [app]. apply fromkeys_head.
Qed.

(** X7: in pain and in market mode, the query of [mode_to_search] and the
    query of [_build_sub_query] always carry double-quoted terms, whatever
    the topic.  The sanitizer keeps the quotes, so such a query is never
    emptied and is always sent; and when a subreddit answers it with
    nothing, the engine has a quote to strip for its retry. *)
Theorem pain_and_market_queries_are_quoted topic :
  Forall quoted_query
    [sc_query (mode_to_search topic "pain"); _build_sub_query topic "pain";
     sc_query (mode_to_search topic "market"); _build_sub_query topic "market"].
Proof.
  repeat (apply List.Forall_cons; [apply quoted_query_intro|]); [| | | |apply List.Forall_nil].
  - unfold mode_to_search. cbn [String.eqb Ascii.eqb Bool.eqb sc_query].
    rewrite !has_quote_append, has_quote_or_of_quoted, !orb_true_r. reflexivity.
  - unfold _build_sub_query. cbv zeta. change (String.eqb "pain" "pain") with true.
    cbv iota.
    destruct (pain_terms_cons
                (List.filter (fun w => bool_decide (w ∈ _SENTIMENT_WORDS))
                   (py_split (py_lower topic)))) as (t & ts & ->).
    destruct (List.filter _ _).
    + apply has_quote_or_of_quoted.
    + rewrite !has_quote_append, has_quote_or_of_quoted, !orb_true_r. reflexivity.
  - unfold mode_to_search. cbn [String.eqb Ascii.eqb Bool.eqb sc_query].
    rewrite !has_quote_append, has_quote_or_of_quoted, !orb_true_r. reflexivity.
  - unfold _build_sub_query. cbv zeta. change (String.eqb "market" "pain") with false.
    change (String.eqb "market" "market") with true. cbv iota.
    unfold _MARKET_SEARCH_TERMS. destruct (List.filter _ _).
    + apply has_quote_or_of_quoted.
    + rewrite !has_quote_append, has_quote_or_of_quoted, !orb_true_r. reflexivity.
Qed.

Example pain_query_sanitized :
  _sanitize_query (sc_query (mode_to_search "  espresso machine " "pain"))
  = "espresso machine " +:+ or_of_quoted ["help"; "issue"; "stuck"; "fail"].
Proof. vm_compute. reflexivity. Qed.

(** ** 14. The plan for a subreddit named by the user *)

(** X8: the plan built for a user-specified subreddit lists that subreddit
    alone.  Its query list starts with the query of [mode_to_search], has
    the lighter query of [_build_sub_query] as its only other entry when the
    two differ, and never holds the same query twice; the global queries are
    the first query alone, which is also what any other name falls back to;
    so [queries_for_sub] returns no empty list for this plan. *)
Theorem user_specified_plan_queries topic mode subreddit :
  let plan := _build_user_specified_plan topic mode subreddit in
  let main := sc_query (mode_to_search topic mode) in
  let light := _build_sub_query topic mode in
  subreddits plan = [subreddit]
  /\ queries_for_sub plan subreddit = (if String.eqb light main then [main] else [main; light])
  /\ NoDup (queries_for_sub plan subreddit)
  /\ global_queries plan = [main]
  /\ (forall s, s <> subreddit -> queries_for_sub plan s = [main])
  /\ (forall s, queries_for_sub plan s <> [])
  /\ intent plan = topic
  /\ source plan = "user_specified".
Proof.
  cbv zeta. unfold _build_user_specified_plan.
  set (main := sc_query (mode_to_search topic mode)).
  set (light := _build_sub_query topic mode).
  assert (Hown : queries_for_sub
                   {| intent := topic; subreddits := [subreddit];
                      sub_queries := {[ subreddit :=
                        if negb (String.eqb light main) then [main; light] else [main] ]};
                      global_queries := [main]; mode := mode; source := "user_specified" |}
                   subreddit
                 = if String.eqb light main then [main] else [main; light]).
  { unfold queries_for_sub. cbn [sub_queries]. rewrite lookup_singleton_eq.
    destruct (String.eqb light main); reflexivity. }
  assert (Hother : forall s, s <> subreddit ->
            queries_for_sub
              {| intent := topic; subreddits := [subreddit];
                 sub_queries := {[ subreddit :=
                   if negb (String.eqb light main) then [main; light] else [main] ]};
                 global_queries := [main]; mode := mode; source := "user_specified" |} s
            = [main]).
  { intros s Hs. unfold queries_for_sub. cbn [sub_queries global_queries].
    rewrite lookup_singleton_ne by congruence. reflexivity. }
  refine (conj eq_refl (conj Hown (conj _ (conj eq_refl (conj Hother
            (conj _ (conj eq_refl eq_refl))))))).
  - rewrite Hown. destruct (String.eqb light main) eqn:E.
    + apply NoDup_singleton.
    + apply String.eqb_neq in E. apply NoDup_cons. split.
      * intros H. apply list_elem_of_singleton in H. congruence.
      * apply NoDup_singleton.
  - intros s. destruct (decide (s = subreddit)) as [->|Hs].
    + rewrite Hown. destruct (String.eqb light main); discriminate.
    + rewrite (Hother s Hs). discriminate.
Qed.

Example user_specified_plan_example :
  queries_for_sub (_build_user_specified_plan "dogs" "general" "pets") "pets" = ["dogs"]
  /\ queries_for_sub (_build_user_specified_plan "Dogs" "general" "pets") "pets"
     = ["Dogs"; "dogs"].
Proof. split; vm_compute; reflexivity. Qed.

(** ** 15. Ranking and selection of subreddits *)

Lemma insert_ranked_perm x l : insert_ranked x l ≡ₚ x :: l.
Proof.
  induction l as [|y t IH]; [reflexivity|].
  cbn [insert_ranked]. destruct (key_ltb (rank_key x) (rank_key y)); [|reflexivity].
  rewrite IH. apply Permutation_swap.
Qed.

Lemma sorted_desc_perm items : sorted_desc items ≡ₚ items.
Proof.
  induction items as [|x l IH]; [reflexivity|].
  cbn [sorted_desc foldr]. fold (sorted_desc l). rewrite insert_ranked_perm, IH. reflexivity.
Qed.

Lemma key_ltb_trans a b c :
  key_ltb a b = false -> key_ltb b c = false -> key_ltb a c = false.
Proof.
  unfold key_ltb. destruct a as [a1 a2], b as [b1 b2], c as [c1 c2]. cbn [fst snd].
  rewrite !orb_false_iff, !andb_false_iff, !Z.ltb_ge, !Z.eqb_neq. lia.
Qed.

Lemma key_ltb_total a b : key_ltb a b = true -> key_ltb b a = false.
Proof.
  unfold key_ltb. destruct a as [a1 a2], b as [b1 b2]. cbn [fst snd].
  rewrite orb_true_iff, andb_true_iff, orb_false_iff, andb_false_iff,
    !Z.ltb_lt, !Z.ltb_ge, Z.eqb_eq, Z.eqb_neq. lia.
Qed.

(** The head of a ranked list has the greatest key. *)
Lemma insert_ranked_head x l :
  Forall (fun y => key_ltb (rank_key (hd x l)) (rank_key y) = false) l ->
  Forall (fun y => key_ltb (rank_key (hd x (insert_ranked x l))) (rank_key y) = false)
         (x :: l).
Proof.
  intros H. destruct l as [|y t]; cbn [insert_ranked hd] in *.
  { constructor; [|constructor]. unfold key_ltb. rewrite Z.ltb_irrefl, Z.ltb_irrefl.
    rewrite andb_false_r. reflexivity. }
  destruct (key_ltb (rank_key x) (rank_key y)) eqn:E; cbn [hd].
  - constructor; [apply key_ltb_total, E|exact H].
  - constructor.
    + unfold key_ltb. rewrite !Z.ltb_irrefl, andb_false_r. reflexivity.
    + eapply Forall_impl; [exact H|]. intros z Hz. cbv beta in Hz.
      eapply key_ltb_trans; [exact E|exact Hz].
Qed.

Lemma sorted_desc_head items x rest :
  sorted_desc items = x :: rest ->
  Forall (fun y => key_ltb (rank_key x) (rank_key y) = false) items.
Proof.
  revert x rest. induction items as [|a l IH]; intros x rest E; [constructor|].
  cbn [sorted_desc foldr] in E. fold (sorted_desc l) in E.
  assert (Hl : Forall (fun y => key_ltb (rank_key (hd a (sorted_desc l))) (rank_key y) = false)
                 (sorted_desc l)).
  { destruct (sorted_desc l) as [|y t] eqn:El; [constructor|].
    cbn [hd]. rewrite <- El, sorted_desc_perm. apply (IH y t eq_refl). }
  pose proof (insert_ranked_head a (sorted_desc l) Hl) as H.
  rewrite E in H. cbn [hd] in H.
  inversion H as [|? ? Ha Hrest]; subst. constructor; [exact Ha|].
  rewrite <- (sorted_desc_perm l). exact Hrest.
Qed.

(** The first loop only appends, never beyond [max_subs], and takes names
    of [ranked]. *)
Lemma select_loop_spec max_subs niche_slots ranked : forall selected niche_count,
  exists picked,
    select_loop max_subs niche_slots ranked selected niche_count = selected ++ picked
    /\ picked `sublist_of` (sd_name <$> ranked)
    /\ Z.of_nat (length (selected ++ picked))
       <= Z.max max_subs (Z.of_nat (length selected)).
Proof.
  induction ranked as [|x rest IH]; intros selected niche_count.
  { exists []. rewrite app_nil_r. split; [reflexivity|]. split; [constructor|lia]. }
  cbn [select_loop].
  destruct (max_subs <=? Z.of_nat (length selected)) eqn:Efull.
  { exists []. rewrite app_nil_r. split; [reflexivity|].
    split; [apply sublist_nil_l|lia]. }
  apply Z.leb_gt in Efull.
  assert (Htake : exists picked,
            select_loop max_subs niche_slots rest (selected ++ [sd_name x])
              (if sd_subs x <? 1000 then niche_count + 1 else niche_count)
            = selected ++ picked
            /\ picked `sublist_of` (sd_name <$> x :: rest)
            /\ Z.of_nat (length (selected ++ picked))
               <= Z.max max_subs (Z.of_nat (length selected))).
  { destruct (IH (selected ++ [sd_name x])
                 (if sd_subs x <? 1000 then niche_count + 1 else niche_count))
      as (picked & E & Hsub & Hlen).
    exists (sd_name x :: picked). rewrite E, <- app_assoc. split; [reflexivity|].
    split; [rewrite fmap_cons; apply sublist_skip, Hsub|].
    rewrite <- app_assoc in Hlen. cbn [app] in Hlen.
    rewrite length_app in Hlen |- *. rewrite length_app in Hlen. simpl length in *. lia. }
  assert (Hskip : exists picked,
            select_loop max_subs niche_slots rest selected niche_count = selected ++ picked
            /\ picked `sublist_of` (sd_name <$> x :: rest)
            /\ Z.of_nat (length (selected ++ picked))
               <= Z.max max_subs (Z.of_nat (length selected))).
  { destruct (IH selected niche_count) as (picked & E & Hsub & Hlen).
    exists picked. split; [exact E|]. split; [|exact Hlen].
    rewrite fmap_cons. apply sublist_cons, Hsub. }
  destruct (sd_subs x <? 1000).
  - destruct (niche_count <? niche_slots); [exact Htake|exact Hskip].
  - exact Htake.
Qed.

(** With room left, the top-ranked subreddit is the first one taken. *)
Lemma select_loop_head max_subs niche_slots x rest :
  1 <= max_subs -> 1 <= niche_slots ->
  head (select_loop max_subs niche_slots (x :: rest) [] 0) = Some (sd_name x).
Proof.
  intros Hm Hn. cbn [select_loop length].
  destruct (max_subs <=? Z.of_nat 0) eqn:E; [apply Z.leb_le in E; simpl in E; lia|].
  assert (Hnc : (0 <? niche_slots) = true) by (apply Z.ltb_lt; lia). rewrite Hnc.
  cbn [app].
  assert (H : forall nc, head (select_loop max_subs niche_slots rest [sd_name x] nc)
                         = Some (sd_name x)).
  { intros nc. destruct (select_loop_spec max_subs niche_slots rest [sd_name x] nc)
      as (picked & -> & _). reflexivity. }
  destruct (sd_subs x <? 1000); apply H.
Qed.

Lemma filter_agree {A} (P Q : A -> Prop) `{!forall x, Decision (P x)}
    `{!forall x, Decision (Q x)} (l : list A) :
  Forall (fun x => P x <-> Q x) l -> filter P l = filter Q l.
Proof.
  induction 1 as [|x l Hx _ IH]; [reflexivity|].
  destruct (decide (P x)) as [HP|HP].
  - rewrite (filter_cons_True P) by exact HP.
    rewrite (filter_cons_True Q) by (apply Hx, HP). rewrite IH. reflexivity.
  - rewrite (filter_cons_False P) by exact HP.
    rewrite (filter_cons_False Q) by (intros HQ; apply HP, Hx, HQ). exact IH.
Qed.

(** The backfill appends the names that are missing, in rank order, until
    the slots are used up. *)
Lemma backfill_loop_spec max_subs ranked : forall selected,
  NoDup (sd_name <$> ranked) ->
  Z.of_nat (length selected) < max_subs ->
  backfill_loop max_subs ranked selected
  = selected
    ++ take (Z.to_nat (max_subs - Z.of_nat (length selected)))
         (filter (fun name => name ∉ selected) (sd_name <$> ranked)).
Proof.
  induction ranked as [|x rest IH]; intros selected Hnd Hroom.
  { cbn [backfill_loop fmap list_fmap]. rewrite filter_nil, take_nil, app_nil_r. reflexivity. }
  rewrite fmap_cons in Hnd |- *. apply NoDup_cons in Hnd as [Hx Hnd].
  cbn [backfill_loop]. destruct (bool_decide (sd_name x ∈ selected)) eqn:Ein.
  - apply bool_decide_eq_true in Ein. rewrite filter_cons_False by (intros H; apply H, Ein).
    apply IH; assumption.
  - apply bool_decide_eq_false in Ein. rewrite filter_cons_True by exact Ein.
    cbv zeta.
    assert (Hk : Z.to_nat (max_subs - Z.of_nat (length selected))
                 = S (Z.to_nat (max_subs - Z.of_nat (length (selected ++ [sd_name x]))))).
    { rewrite length_app. simpl length. lia. }
    rewrite Hk. cbn [take].
    destruct (max_subs <=? Z.of_nat (length (selected ++ [sd_name x]))) eqn:Efull.
    + apply Z.leb_le in Efull.
      replace (Z.to_nat (max_subs - Z.of_nat (length (selected ++ [sd_name x])))) with 0%nat
        by lia.
      rewrite take_0. reflexivity.
    + apply Z.leb_gt in Efull. rewrite IH by assumption.
      rewrite <- app_assoc. cbn [app]. do 3 f_equal.
      apply filter_agree. apply Forall_forall. intros name Hname. cbv beta.
      rewrite elem_of_app, list_elem_of_singleton.
      split; [tauto|]. intros H [H' | ->]; [exact (H H')|exact (Hx Hname)].
Qed.

(** The names still missing from a selection made among [names]. *)
Lemma missing_length (selected names : list string) :
  NoDup selected -> NoDup names -> (forall x, x ∈ selected -> x ∈ names) ->
  (length (filter (fun name => name ∉ selected) names)
   = length names - length selected)%nat.
Proof.
  intros Hs Hn Hin.
  pose proof (filter_app_complement (fun name => name ∈ selected) names) as Hp.
  apply Permutation_length in Hp. rewrite length_app in Hp.
  assert (Hsel : filter (fun name => name ∈ selected) names ≡ₚ selected).
  { apply NoDup_Permutation; [apply NoDup_filter, Hn|exact Hs|].
    intros x. rewrite list_elem_of_filter. split; [tauto|]. intros H. split; auto. }
  apply Permutation_length in Hsel. lia.
Qed.

(** X9: the selection at the end of [find_subreddits].  From candidates
    with distinct names it returns distinct names, all of them candidates,
    and exactly as many as there are slots or candidates, whichever is
    fewer: the quota for small subreddits never leaves a slot empty.  With
    no more candidates than slots, every candidate is returned.  With at
    least one slot, the first name returned is that of a candidate with the
    greatest key (score, then subscribers). *)
Theorem rank_and_select_fills_slots scored max_subs :
  NoDup (sd_name <$> scored) ->
  let selected := rank_and_select scored max_subs in
  NoDup selected
  /\ (forall name, name ∈ selected -> name ∈ sd_name <$> scored)
  /\ Z.of_nat (length selected) = Z.min (Z.max 0 max_subs) (Z.of_nat (length scored))
  /\ (Z.of_nat (length scored) <= max_subs -> selected ≡ₚ sd_name <$> scored)
  /\ (1 <= max_subs -> scored <> [] ->
      exists top,
        top ∈ scored /\ head selected = Some (sd_name top)
        /\ Forall (fun y => key_ltb (rank_key top) (rank_key y) = false) scored).
Proof.
  intros Hnd. cbv zeta.
  assert (Hcore : NoDup (rank_and_select scored max_subs)
            /\ (forall name, name ∈ rank_and_select scored max_subs ->
                             name ∈ sd_name <$> scored)
            /\ Z.of_nat (length (rank_and_select scored max_subs))
               = Z.min (Z.max 0 max_subs) (Z.of_nat (length scored))
            /\ (1 <= max_subs -> scored <> [] ->
                exists top,
                  top ∈ scored /\ head (rank_and_select scored max_subs) = Some (sd_name top)
                  /\ Forall (fun y => key_ltb (rank_key top) (rank_key y) = false) scored)).
  { destruct (decide (scored = [])) as [->|Hne].
    { cbn [rank_and_select length]. split; [constructor|].
      split; [intros name H; apply elem_of_nil in H; contradiction|].
      split; [simpl; lia|]. intros _ H. contradiction. }
    assert (Hunfold : rank_and_select scored max_subs
              = if Z.of_nat (length (select_loop max_subs (Z.max (max_subs / 4) 1)
                                       (sorted_desc scored) [] 0)) <? max_subs
                then backfill_loop max_subs (sorted_desc scored)
                       (select_loop max_subs (Z.max (max_subs / 4) 1)
                          (sorted_desc scored) [] 0)
                else select_loop max_subs (Z.max (max_subs / 4) 1)
                       (sorted_desc scored) [] 0).
    { destruct scored; [contradiction|reflexivity]. }
    rewrite Hunfold. clear Hunfold.
    set (ranked := sorted_desc scored).
    assert (Hperm : sd_name <$> ranked ≡ₚ sd_name <$> scored)
      by (apply fmap_Permutation, sorted_desc_perm).
    assert (Hndr : NoDup (sd_name <$> ranked)) by (rewrite Hperm; exact Hnd).
    assert (Hlenr : length (sd_name <$> ranked) = length scored).
    { rewrite (Permutation_length Hperm), length_fmap. reflexivity. }
    destruct (select_loop_spec max_subs (Z.max (max_subs / 4) 1) ranked [] 0)
      as (picked & Esel & Hsub & Hlen).
    cbn [app length] in Esel, Hlen. rewrite Esel.
    assert (Hndp : NoDup picked) by (eapply sublist_NoDup; eassumption).
    assert (Hinp : forall x, x ∈ picked -> x ∈ sd_name <$> ranked).
    { intros x Hx. eapply elem_of_submseteq; [exact Hx|]. apply sublist_submseteq, Hsub. }
    pose proof (sublist_length _ _ Hsub) as Hlp. rewrite Hlenr in Hlp.
    assert (Hhead : 1 <= max_subs -> scored <> [] ->
              exists top, top ∈ scored /\ head picked = Some (sd_name top)
                /\ Forall (fun y => key_ltb (rank_key top) (rank_key y) = false) scored).
    { intros Hm _. destruct ranked as [|x rest] eqn:Er.
      { apply Permutation_length in Hperm. rewrite length_fmap in Hperm.
        destruct scored; [contradiction|discriminate Hperm]. }
      exists x. split.
      { rewrite <- (sorted_desc_perm scored). fold ranked. rewrite Er.
        apply elem_of_cons. auto. }
      split; [|apply (sorted_desc_head scored x rest Er)].
      rewrite <- Esel. apply select_loop_head; lia. }
    destruct (Z.of_nat (length picked) <? max_subs) eqn:Eroom.
    - apply Z.ltb_lt in Eroom.
      rewrite backfill_loop_spec by assumption.
      set (more := take (Z.to_nat (max_subs - Z.of_nat (length picked)))
                     (filter (fun name => name ∉ picked) (sd_name <$> ranked))).
      assert (Hmore : forall x, x ∈ more -> (x ∉ picked) /\ x ∈ sd_name <$> ranked).
      { intros x Hx. apply elem_of_take in Hx as (i & Hi & _).
        apply list_elem_of_lookup_2 in Hi. apply list_elem_of_filter in Hi. exact Hi. }
      split.
      { apply NoDup_app. split; [exact Hndp|]. split.
        - intros x Hx Hx'. apply Hmore in Hx' as [Hn _]. exact (Hn Hx).
        - apply (sublist_NoDup more
                   (filter (fun name => name ∉ picked) (sd_name <$> ranked)));
            [apply NoDup_filter, Hndr|unfold more; apply sublist_take]. }
      split.
      { intros x Hx. rewrite <- Hperm. apply elem_of_app in Hx as [Hx|Hx];
          [apply Hinp, Hx|apply Hmore, Hx]. }
      split.
      { rewrite length_app. unfold more. rewrite length_take, missing_length by assumption.
        rewrite Hlenr. lia. }
      intros Hm _. destruct (Hhead Hm Hne) as (top & Hin & Hh & Hmax).
      exists top. split; [exact Hin|]. split; [|exact Hmax].
      destruct picked; [discriminate Hh|exact Hh].
    - apply Z.ltb_ge in Eroom.
      split; [exact Hndp|].
      split; [intros x Hx; rewrite <- Hperm; apply Hinp, Hx|].
      split; [lia|exact Hhead]. }
  destruct Hcore as (H1 & H2 & H3 & H4).
  refine (conj H1 (conj H2 (conj H3 (conj _ H4)))).
  intros Hall. apply submseteq_length_Permutation.
  - apply NoDup_submseteq; assumption.
  - rewrite length_fmap. lia.
Qed.

Example rank_and_select_example :
  rank_and_select example_scored 30 = ["Dogtoys"; "dogs"; "DogAdvice"; "puppy101"; "toys"]
  /\ rank_and_select example_scored 3 = ["Dogtoys"; "dogs"; "DogAdvice"]
  /\ rank_and_select example_scored 0 = [].
Proof. repeat split; vm_compute; reflexivity. Qed.

Lemma example_scored_distinct : NoDup (sd_name <$> example_scored).
Proof.
  apply (bool_decide_unpack _). vm_compute. exact I.
Defined.

Lemma rank_and_select_fills_slots_witness :
  NoDup (rank_and_select example_scored 3)
  /\ Z.of_nat (length (rank_and_select example_scored 3))
     = Z.min (Z.max 0 3) (Z.of_nat (length example_scored)).
Proof.
  pose proof (rank_and_select_fills_slots example_scored 3 example_scored_distinct) as H.
  cbv zeta in H. destruct H as (H1 & _ & H3 & _). split; [exact H1|exact H3].
Defined.

(** ** 16. Pagination: [_search_posts] *)

Lemma idset_nil : idset [] = ∅.
Proof. reflexivity. Qed.

Lemma idset_cons p posts : idset (p :: posts) = {[pd_id p]} ∪ idset posts.
Proof. reflexivity. Qed.

Lemma idset_app a b : idset (a ++ b) = idset a ∪ idset b.
Proof. unfold idset. rewrite fmap_app. apply list_to_set_app_L. Qed.

Lemma elem_of_idset x posts : x ∈ idset posts <-> x ∈ pd_id <$> posts.
Proof. unfold idset. apply elem_of_list_to_set. Qed.

Lemma fresh_app a : forall seen b,
  fresh seen (a ++ b) = fresh seen a ++ fresh (idset a ∪ seen) b.
Proof.
  induction a as [|p a IH]; intros seen b.
  { simpl. rewrite idset_nil, (left_id_L ∅ (∪)). reflexivity. }
  simpl. rewrite idset_cons. destruct (decide (pd_id p ∈ seen)) as [Hin|Hin].
  - rewrite IH. f_equal. f_equal. set_eq_by_membership.
  - simpl. rewrite IH. f_equal. f_equal. f_equal. set_eq_by_membership.
Qed.

Lemma fresh_idset posts : forall seen,
  idset (fresh seen posts) ∪ seen = idset posts ∪ seen.
Proof.
  induction posts as [|p rest IH]; intros seen; [reflexivity|].
  simpl. rewrite idset_cons. destruct (decide (pd_id p ∈ seen)) as [Hin|Hin].
  - rewrite IH. set_eq_by_membership.
  - rewrite idset_cons. specialize (IH ({[pd_id p]} ∪ seen)).
    apply set_eq. intros x.
    assert (IHx : x ∈ idset (fresh ({[pd_id p]} ∪ seen) rest) ∪ ({[pd_id p]} ∪ seen)
                  <-> x ∈ idset rest ∪ ({[pd_id p]} ∪ seen)) by (rewrite IH; reflexivity).
    revert IHx. rewrite !elem_of_union, !elem_of_singleton. tauto.
Qed.

Lemma fresh_not_seen posts : forall seen p, p ∈ fresh seen posts -> pd_id p ∉ seen.
Proof.
  induction posts as [|q rest IH]; intros seen p Hin.
  { apply elem_of_nil in Hin. contradiction. }
  simpl in Hin. destruct (decide (pd_id q ∈ seen)) as [Hq|Hq].
  - apply IH, Hin.
  - apply elem_of_cons in Hin as [->|Hin]; [exact Hq|].
    apply IH in Hin. intros Hp. apply Hin, elem_of_union. auto.
Qed.

Lemma fresh_NoDup posts : forall seen, NoDup (pd_id <$> fresh seen posts).
Proof.
  induction posts as [|p rest IH]; intros seen; [constructor|].
  simpl. destruct (decide (pd_id p ∈ seen)) as [Hin|Hin]; [apply IH|].
  simpl. constructor; [|apply IH].
  intros Hp. apply list_elem_of_fmap in Hp as (q & Hq & Hin').
  apply fresh_not_seen in Hin'. rewrite <- Hq in Hin'.
  apply Hin', elem_of_union. left. apply elem_of_singleton. reflexivity.
Qed.

Lemma fresh_sublist posts : forall seen, fresh seen posts `sublist_of` posts.
Proof.
  induction posts as [|p rest IH]; intros seen; [constructor|].
  simpl. destruct (decide (pd_id p ∈ seen)).
  - apply sublist_cons, IH.
  - apply sublist_skip, IH.
Qed.

Lemma received_app a b : received (a ++ b) = received a ++ received b.
Proof. apply flat_map_app. Qed.

(** The inner loop adds the fresh posts of the page, up to the limit. *)
Lemma add_page_spec limit page : forall collected seen,
  Z.of_nat (length collected) < limit ->
  exists seen',
    add_page limit page collected seen
    = (collected ++ take (Z.to_nat (limit - Z.of_nat (length collected))) (fresh seen page),
       seen')
    /\ (Z.of_nat (length collected) + Z.of_nat (length (fresh seen page)) < limit ->
        seen' = idset page ∪ seen).
Proof.
  induction page as [|p rest IH]; intros collected seen Hroom.
  { exists seen. cbn [add_page fresh]. rewrite take_nil, app_nil_r.
    split; [reflexivity|]. intros _. rewrite idset_nil. set_eq_by_membership. }
  cbn [add_page fresh]. destruct (decide (pd_id p ∈ seen)) as [Hin|Hin].
  - destruct (IH collected seen Hroom) as (seen' & -> & Hseen).
    exists seen'. split; [reflexivity|]. intros Hlen. rewrite (Hseen Hlen), idset_cons.
    set_eq_by_membership.
  - cbv zeta.
    assert (Hk : Z.to_nat (limit - Z.of_nat (length collected))
                 = S (Z.to_nat (limit - Z.of_nat (length (collected ++ [p]))))).
    { rewrite length_app. simpl length. lia. }
    rewrite Hk. cbn [take].
    destruct (limit <=? Z.of_nat (length (collected ++ [p]))) eqn:Efull.
    + apply Z.leb_le in Efull. eexists. split.
      * replace (Z.to_nat (limit - Z.of_nat (length (collected ++ [p])))) with 0%nat by lia.
        rewrite take_0. reflexivity.
      * intros Hlen. rewrite length_app in Efull. simpl length in Efull, Hlen. lia.
    + apply Z.leb_gt in Efull.
      destruct (IH (collected ++ [p]) ({[pd_id p]} ∪ seen) Efull) as (seen' & -> & Hseen).
      exists seen'. split; [rewrite <- app_assoc; reflexivity|].
      intros Hlen. rewrite Hseen.
      * rewrite idset_cons. set_eq_by_membership.
      * rewrite length_app. simpl length in Hlen |- *. lia.
Qed.

Lemma cursor_after_snoc pages request data :
  cursor_after (pages ++ [(request, data)])
  = match data with
    | Some listing => given (li_after listing)
    | None => None
    end.
Proof. unfold cursor_after. rewrite last_snoc. reflexivity. Qed.

Lemma follows_cursor_nil : follows_cursor [].
Proof. intros pre request data post E. destruct pre; discriminate E. Qed.

Lemma follows_cursor_snoc pages request data :
  follows_cursor pages ->
  rq_after request = cursor_after pages ->
  (pages <> [] -> rq_after request <> None) ->
  follows_cursor (pages ++ [(request, data)]).
Proof.
  intros H Hc Hn pre request' data' post E.
  destruct post as [|y post _] using rev_ind.
  - apply app_inj_tail in E as [-> [= -> ->]]. split; assumption.
  - rewrite app_comm_cons, app_assoc in E. apply app_inj_tail in E as [E _].
    apply (H pre request' data' post E).
Qed.

Lemma fresh_nothing posts : forall seen,
  (forall x, x ∈ idset posts -> x ∈ seen) -> fresh seen posts = [].
Proof.
  induction posts as [|p rest IH]; intros seen H; [reflexivity|].
  simpl. destruct (decide (pd_id p ∈ seen)) as [Hin|Hin].
  - apply IH. intros x Hx. apply H. rewrite idset_cons. apply elem_of_union. auto.
  - contradiction Hin. apply H. rewrite idset_cons. apply elem_of_union. left.
    apply elem_of_singleton. reflexivity.
Qed.

Lemma given_None_or_Some s : given s = None \/ exists c, given s = Some c /\ s = Some c.
Proof. destruct s as [[|c t]|]; simpl; eauto. Qed.

Section PaginationFacts.

Variable World : Type.
Variable fetch_listing : World -> SearchRequest -> option Listing * World.
Variable sleep : World -> World.
Variable query : string.
Variable sort : string.
Variable subreddit : option string.
Variable limit : Z.

Local Abbreviation loop := (search_loop World fetch_listing sleep).
Local Abbreviation search := (_search_posts World fetch_listing sleep).

(** What holds of the local variables whenever the loop condition is
    evaluated. *)
Record PageInv (st : Pager World) : Prop := mkPageInv {
  pi_collected :
    pg_collected st = take (Z.to_nat limit) (fresh ∅ (received (pg_pages st)));
  pi_open :
    Z.of_nat (length (pg_collected st)) < limit ->
    pg_seen_ids st = idset (received (pg_pages st))
    /\ pg_collected st = fresh ∅ (received (pg_pages st));
  pi_requests : Forall (page_request_ok query sort subreddit limit) (pg_pages st);
  pi_chain : follows_cursor (pg_pages st)
}.

(** What holds besides when a turn of the loop begins: the cursor in hand
    is the one of the last answer. *)
Definition at_turn (st : Pager World) : Prop :=
  given (pg_after st) = cursor_after (pg_pages st)
  /\ (pg_pages st <> [] -> cursor_after (pg_pages st) <> None).

Lemma PageInv_empty_page (st : Pager World) request data w :
  PageInv st -> at_turn st ->
  Z.of_nat (length (pg_collected st)) < limit ->
  request = {| rq_subreddit := given subreddit; rq_q := query; rq_sort := sort;
               rq_limit := Z.min _MAX_PER_PAGE
                             (limit - Z.of_nat (length (pg_collected st)));
               rq_after := given (pg_after st) |} ->
  _parse_posts data = [] ->
  PageInv {| pg_collected := pg_collected st; pg_after := pg_after st;
             pg_seen_ids := pg_seen_ids st; pg_world := w;
             pg_pages := pg_pages st ++ [(request, data)] |}.
Proof.
  intros [Hc Ho Hr Hch] [Ha Hn] Hroom -> Hempty.
  assert (Hrec : received (pg_pages st ++ [(mkSearchRequest (given subreddit) query sort
                    (Z.min _MAX_PER_PAGE (limit - Z.of_nat (length (pg_collected st))))
                    (given (pg_after st)), data)])
                 = received (pg_pages st)).
  { rewrite received_app. unfold received at 2. cbn [flat_map snd]. rewrite Hempty.
    rewrite !app_nil_r. reflexivity. }
  constructor; cbn [pg_collected pg_seen_ids pg_pages].
  - rewrite Hrec. exact Hc.
  - rewrite Hrec. exact Ho.
  - apply Forall_app. split; [exact Hr|]. constructor; [|constructor].
    unfold page_request_ok, _MAX_PER_PAGE. cbn [fst rq_q rq_sort rq_subreddit rq_limit].
    repeat split; try reflexivity; lia.
  - apply follows_cursor_snoc; [exact Hch|exact Ha|].
    intros Hne. cbn [rq_after]. rewrite Ha. apply Hn, Hne.
Qed.

Lemma search_loop_spec fuel : forall st st' : Pager World,
  loop fuel query sort subreddit limit st = Some st' ->
  PageInv st -> at_turn st ->
  PageInv st' /\ (length (pg_pages st') <= length (pg_pages st) + fuel)%nat.
Proof.
  induction fuel as [|fuel IH]; intros st st' E HI Ht.
  { cbn [search_loop] in E.
    destruct (limit <=? Z.of_nat (length (pg_collected st))); [|discriminate E].
    injection E as <-. split; [exact HI|lia]. }
  cbn [search_loop] in E.
  destruct (limit <=? Z.of_nat (length (pg_collected st))) eqn:Efull.
  { injection E as <-. split; [exact HI|lia]. }
  apply Z.leb_gt in Efull. cbv zeta in E.
  set (request := {| rq_subreddit := given subreddit; rq_q := query; rq_sort := sort;
                     rq_limit := Z.min _MAX_PER_PAGE
                                   (limit - Z.of_nat (length (pg_collected st)));
                     rq_after := given (pg_after st) |}) in *.
  destruct (fetch_listing (pg_world st) request) as [data w].
  destruct data as [listing|].
  2:{ injection E as <-. split.
      - apply PageInv_empty_page; [exact HI|exact Ht|exact Efull|reflexivity|reflexivity].
      - cbn [pg_pages]. rewrite length_app. simpl. lia. }
  destruct (_parse_posts (Some listing)) as [|p ps] eqn:Epage.
  { injection E as <-. split.
    - apply PageInv_empty_page; [exact HI|exact Ht|exact Efull|reflexivity|exact Epage].
    - cbn [pg_pages]. rewrite length_app. simpl. lia. }
  rewrite <- Epage in E.
  destruct (add_page_spec limit (_parse_posts (Some listing)) (pg_collected st)
              (pg_seen_ids st) Efull) as (seen' & Eadd & Hseen).
  rewrite Eadd in E.
  destruct HI as [Hc Ho Hr Hch]. destruct (Ho Efull) as [Hs Hall].
  destruct Ht as [Ha Hn].
  set (page := _parse_posts (Some listing)) in *.
  set (k := Z.to_nat (limit - Z.of_nat (length (pg_collected st)))) in *.
  assert (Hrec : received (pg_pages st ++ [(request, Some listing)])
                 = received (pg_pages st) ++ page).
  { rewrite received_app. unfold received at 2. cbn [flat_map snd].
    rewrite app_nil_r. reflexivity. }
  assert (Hfresh : fresh ∅ (received (pg_pages st) ++ page)
                   = pg_collected st ++ fresh (pg_seen_ids st) page).
  { rewrite fresh_app, <- Hall, Hs. f_equal. f_equal. set_eq_by_membership. }
  assert (HI' : forall after w',
            PageInv {| pg_collected := pg_collected st ++ take k (fresh (pg_seen_ids st) page);
                       pg_after := after; pg_seen_ids := seen'; pg_world := w';
                       pg_pages := pg_pages st ++ [(request, Some listing)] |}).
  { intros after w'. constructor; cbn [pg_collected pg_seen_ids pg_pages].
    - rewrite Hrec, Hfresh, take_app.
      rewrite (take_ge (pg_collected st)) by lia.
      f_equal. f_equal. unfold k. lia.
    - rewrite length_app, length_take. intros Hopen.
      assert (Hshort : (length (fresh (pg_seen_ids st) page) < k)%nat) by (unfold k; lia).
      rewrite Hrec, Hfresh, idset_app, <- Hs.
      rewrite take_ge by lia. split; [|reflexivity].
      rewrite Hseen by lia. set_eq_by_membership.
    - apply Forall_app. split; [exact Hr|]. constructor; [|constructor].
      unfold page_request_ok, request, _MAX_PER_PAGE.
      cbn [fst rq_q rq_sort rq_subreddit rq_limit]. repeat split; try reflexivity; lia.
    - apply follows_cursor_snoc; [exact Hch|exact Ha|].
      intros Hne. unfold request. cbn [rq_after]. rewrite Ha. apply Hn, Hne. }
  destruct (given (li_after listing)) as [c|] eqn:Eafter.
  - apply IH in E.
    + destruct E as [HI'' Hlen]. split; [exact HI''|].
      cbn [pg_pages] in Hlen. rewrite length_app in Hlen. simpl in Hlen. lia.
    + apply HI'.
    + unfold at_turn. cbn [pg_after pg_pages]. rewrite cursor_after_snoc, Eafter.
      split; [reflexivity|discriminate].
  - injection E as <-. split; [apply HI'|].
    cbn [pg_pages]. rewrite length_app. simpl. lia.
Qed.

(** X10: what [_search_posts] returns when it returns.  The result is made
    of the first [limit] posts with distinct identifiers among the posts of
    the pages received, in the order received; so it holds no identifier
    twice and at most [limit] posts.  Every request carries the query, the
    sort order and the scope of the call, asks for between 1 and 100 posts
    and never for more than [limit], and carries the cursor of the answer
    before it; with a limit of zero or less no request is made. *)
Theorem search_posts_first_distinct fuel w st :
  search fuel w query sort subreddit limit = Some st ->
  pg_collected st = take (Z.to_nat limit) (fresh ∅ (received (pg_pages st)))
  /\ NoDup (pd_id <$> pg_collected st)
  /\ Z.of_nat (length (pg_collected st)) <= Z.max limit 0
  /\ Forall (page_request_ok query sort subreddit limit) (pg_pages st)
  /\ follows_cursor (pg_pages st)
  /\ (length (pg_pages st) <= fuel)%nat
  /\ (limit <= 0 -> pg_pages st = [] /\ pg_collected st = []).
Proof.
  unfold _search_posts. intros E.
  assert (Hzero : limit <= 0 -> pg_pages st = [] /\ pg_collected st = []).
  { intros Hl. destruct fuel; cbn [search_loop pg_collected length] in E;
      (destruct (limit <=? Z.of_nat 0) eqn:El;
       [injection E as <-; split; reflexivity|apply Z.leb_gt in El; simpl in El; lia]). }
  apply search_loop_spec in E.
  - destruct E as [[Hc Ho Hr Hch] Hlen]. cbn [pg_pages length] in Hlen.
    refine (conj Hc (conj _ (conj _ (conj Hr (conj Hch (conj Hlen Hzero)))))).
    + rewrite Hc, fmap_take.
      eapply sublist_NoDup; [apply (fresh_NoDup (received (pg_pages st)) ∅)|apply sublist_take].
    + rewrite Hc, length_take. lia.
  - constructor; cbn [pg_collected pg_seen_ids pg_pages].
    + unfold received. cbn [flat_map fresh]. rewrite take_nil. reflexivity.
    + intros _. split; reflexivity.
    + constructor.
    + apply follows_cursor_nil.
  - split; [reflexivity|]. intros H. contradiction.
Qed.

(** Against a server that repeats one page, the loop turns for ever. *)
Lemma search_loop_repeats listing c :
  (forall w request, (fetch_listing w request).1 = Some listing) ->
  given (li_after listing) = Some c ->
  _parse_posts (Some listing) <> [] ->
  Z.of_nat (length (fresh ∅ (_parse_posts (Some listing)))) < limit ->
  forall fuel (st : Pager World),
    (pg_collected st = [] /\ pg_seen_ids st = ∅)
    \/ (pg_collected st = fresh ∅ (_parse_posts (Some listing))
        /\ pg_seen_ids st = idset (_parse_posts (Some listing))) ->
    loop fuel query sort subreddit limit st = None.
Proof.
  intros Hsame Hcur Hposts Hfew. set (page := _parse_posts (Some listing)) in *.
  induction fuel as [|fuel IH]; intros st Hst.
  { cbn [search_loop].
    destruct (limit <=? Z.of_nat (length (pg_collected st))) eqn:E; [|reflexivity].
    apply Z.leb_le in E. destruct Hst as [[Hc _]|[Hc _]]; rewrite Hc in E; simpl in E; lia. }
  cbn [search_loop].
  destruct (limit <=? Z.of_nat (length (pg_collected st))) eqn:Efull.
  { apply Z.leb_le in Efull.
    destruct Hst as [[Hc _]|[Hc _]]; rewrite Hc in Efull; simpl in Efull; lia. }
  apply Z.leb_gt in Efull. cbv zeta.
  match goal with |- context [fetch_listing ?w ?r] =>
    pose proof (Hsame w r) as Hans; destruct (fetch_listing w r) as [data w'] end.
  cbn [fst] in Hans. subst data. fold page.
  destruct page as [|p ps] eqn:Epage; [contradiction|]. rewrite <- Epage in *.
  destruct (add_page_spec limit page (pg_collected st) (pg_seen_ids st) Efull)
    as (seen' & -> & Hseen).
  rewrite Hcur. apply IH. right. cbn [pg_collected pg_seen_ids].
  destruct Hst as [[Hc Hs]|[Hc Hs]]; rewrite Hc, Hs in *.
  - cbn [app length] in *. rewrite take_ge by lia. split; [reflexivity|].
    rewrite Hseen by lia. set_eq_by_membership.
  - assert (Hnone : fresh (idset page) page = []) by (apply fresh_nothing; auto).
    rewrite Hnone in *. rewrite take_nil, app_nil_r. split; [reflexivity|].
    rewrite Hseen by (simpl; lia). set_eq_by_membership.
Qed.

(** X11: whether [_search_posts] returns is up to the server.  If no
    answer carries a cursor, one turn of the loop is enough and at most one
    request is made.  If the server answers every request with the same
    page, a page with a post and a cursor but with fewer distinct
    identifiers than [limit], the loop never ends: no number of turns is
    enough. *)
Theorem search_posts_termination w :
  ((forall w request listing w',
       fetch_listing w request = (Some listing, w') -> given (li_after listing) = None) ->
   forall fuel, (1 <= fuel)%nat ->
     exists st, search fuel w query sort subreddit limit = Some st
                /\ (length (pg_pages st) <= 1)%nat)
  /\ (forall listing c,
        (forall w request, (fetch_listing w request).1 = Some listing) ->
        given (li_after listing) = Some c ->
        _parse_posts (Some listing) <> [] ->
        Z.of_nat (length (fresh ∅ (_parse_posts (Some listing)))) < limit ->
        forall fuel, search fuel w query sort subreddit limit = None).
Proof.
  split.
  - intros Hnocursor fuel Hfuel. destruct fuel as [|fuel]; [lia|].
    unfold _search_posts. cbn [search_loop pg_collected pg_world pg_after pg_pages
                               pg_seen_ids length].
    destruct (limit <=? Z.of_nat 0); [eexists; split; [reflexivity|simpl; lia]|].
    cbv zeta.
    match goal with |- context [fetch_listing ?w0 ?r] =>
      pose proof (Hnocursor w0 r) as Hans; destruct (fetch_listing w0 r) as [data w'] end.
    destruct data as [listing|]; [|eexists; split; [reflexivity|simpl; lia]].
    destruct (_parse_posts (Some listing)) as [|p ps] eqn:Epage;
      [eexists; split; [reflexivity|simpl; lia]|].
    rewrite <- Epage.
    destruct (add_page limit (_parse_posts (Some listing)) [] ∅) as [collected seen].
    rewrite (Hans listing w' eq_refl). eexists. split; [reflexivity|simpl; lia].
  - intros listing c Hsame Hcur Hposts Hfew fuel. unfold _search_posts.
    apply (search_loop_repeats listing c Hsame Hcur Hposts Hfew). left. split; reflexivity.
Qed.

End PaginationFacts.

(** Three pages against a limit of four: the repeated post is taken once
    and the last page is cut. *)
Example search_posts_three_pages :
  match _search_posts nat three_page_server S 10 0%nat "q" "new" (Some "pets") 4 with
  | Some st =>
      Some (pd_id <$> pg_collected st,
            (fun page => (rq_limit page.1, rq_after page.1)) <$> pg_pages st)
  | None => None
  end
  = Some (["a"; "b"; "c"; "d"], [(4, None); (2, Some "c1"); (1, Some "c2")]).
Proof. vm_compute. reflexivity. Qed.

Lemma search_posts_first_distinct_witness :
  exists st,
    _search_posts nat three_page_server S 10 0%nat "q" "new" (Some "pets") 4 = Some st
    /\ NoDup (pd_id <$> pg_collected st)
    /\ Z.of_nat (length (pg_collected st)) <= Z.max 4 0.
Proof.
  destruct (_search_posts nat three_page_server S 10 0%nat "q" "new" (Some "pets") 4)
    as [st|] eqn:E; [|vm_compute in E; discriminate E].
  exists st. split; [reflexivity|].
  pose proof (search_posts_first_distinct nat three_page_server S "q" "new" (Some "pets") 4
                10 0%nat st E) as (_ & Hnd & Hlen & _).
  split; [exact Hnd|exact Hlen].
Defined.

Example search_posts_repeating_server :
  _search_posts nat repeating_server S 50 0%nat "q" "new" None 5 = None
  /\ (exists st, _search_posts nat repeating_server S 1 0%nat "q" "new" None 2 = Some st
                 /\ pd_id <$> pg_collected st = ["a"; "b"]).
Proof. split; [vm_compute; reflexivity|]. eexists. split; vm_compute; reflexivity. Qed.

Lemma search_posts_termination_witness :
  _search_posts nat repeating_server S 1000 0%nat "q" "new" None 5 = None.
Proof.
  refine (proj2 (search_posts_termination nat repeating_server S "q" "new" None 5 0%nat)
            repeating_listing "t3_b" _ _ _ _ 1000%nat).
  - intros w request. reflexivity.
  - reflexivity.
  - discriminate.
  - vm_compute. reflexivity.
Defined.

(** ** 17. Comments and parsed posts *)

Lemma comments_loop_spec limit children : forall comments,
  comments_loop limit children comments
  = comments
    ++ take (Z.to_nat (Z.max 1 (limit - Z.of_nat (length comments))))
         (comment_of_child <$> List.filter (fun c => kind_is "t1" (cc_kind c)) children).
Proof.
  induction children as [|child rest IH]; intros comments.
  { cbn [comments_loop List.filter fmap list_fmap]. rewrite take_nil, app_nil_r. reflexivity. }
  cbn [comments_loop List.filter]. destruct (kind_is "t1" (cc_kind child)); cbn [negb].
  2:{ apply IH. }
  cbv zeta. rewrite fmap_cons.
  assert (Hk : Z.to_nat (Z.max 1 (limit - Z.of_nat (length comments)))
               = S (Z.to_nat (Z.max 1 (limit - Z.of_nat (length comments))) - 1)) by lia.
  rewrite Hk. cbn [take].
  destruct (limit <=? Z.of_nat (length (comments ++ [comment_of_child child]))) eqn:Efull.
  - apply Z.leb_le in Efull. rewrite length_app in Efull. simpl length in Efull.
    replace (Z.to_nat (Z.max 1 (limit - Z.of_nat (length comments))) - 1)%nat with 0%nat
      by lia.
    rewrite take_0. reflexivity.
  - apply Z.leb_gt in Efull. rewrite IH, <- app_assoc. cbn [app]. do 3 f_equal.
    rewrite length_app in Efull |- *. simpl length in Efull |- *. lia.
Qed.

Lemma comment_author_nonempty child : cm_author (comment_of_child child) <> "".
Proof.
  unfold comment_of_child. cbn [cm_author].
  destruct (cc_author child) as [[|c t]|]; simpl; discriminate.
Qed.

Lemma comments_of_response_spec data limit :
  comments_of_response data limit
  = take (Z.to_nat (Z.max 1 limit))
      (comment_of_child
         <$> List.filter (fun c => kind_is "t1" (cc_kind c)) (comment_children data)).
Proof.
  unfold comments_of_response, comment_children.
  destruct data as [[|first [|second rest]]|];
    try (cbn [List.filter fmap list_fmap]; rewrite take_nil; reflexivity).
  rewrite comments_loop_spec. cbn [app length]. rewrite Z.sub_0_r. reflexivity.
Qed.

(** X12: [_fetch_comments] returns the first comments of the thread, in
    order: the children of kind [t1] of the second listing of the response,
    cut after [limit] of them, and after the first one when [limit] is zero
    or negative, because the count is checked after the append.  Every
    comment has an author, deleted ones the author [[deleted]]; a response
    that is empty or has fewer than two listings gives no comment. *)
Theorem fetch_comments_first_comments (World : Type)
    (fetch_thread : World -> string -> string -> Z
                    -> option (list (list CommentChild)) * World)
    (w : World) (subreddit post_id : string) (limit : Z) :
  let data := (fetch_thread w subreddit post_id limit).1 in
  let comments := (_fetch_comments World fetch_thread w subreddit post_id limit).1 in
  comments
  = take (Z.to_nat (Z.max 1 limit))
      (comment_of_child
         <$> List.filter (fun c => kind_is "t1" (cc_kind c)) (comment_children data))
  /\ Z.of_nat (length comments) <= Z.max 1 limit
  /\ Forall (fun c => cm_author c <> "") comments
  /\ (_fetch_comments World fetch_thread w subreddit post_id limit).2
     = (fetch_thread w subreddit post_id limit).2.
Proof.
  cbv zeta. unfold _fetch_comments.
  destruct (fetch_thread w subreddit post_id limit) as [data w']. cbn [fst snd].
  rewrite comments_of_response_spec. split; [reflexivity|].
  split; [rewrite length_take; lia|]. split; [|reflexivity].
  apply Forall_take, Forall_fmap, Forall_forall. intros c _. apply comment_author_nonempty.
Qed.

Example fetch_comments_example :
  cm_author <$> comments_of_response example_thread 5 = ["ann"; "[deleted]"; "[deleted]"; "bob"; "cy"]
  /\ cm_author <$> comments_of_response example_thread 0 = ["ann"]
  /\ comments_of_response (Some [[]]) 5 = [].
Proof. repeat split; vm_compute; reflexivity. Qed.

Lemma parse_children_spec children :
  parse_children children
  = post_of_child <$> List.filter (fun c => kind_is "t3" (ch_kind c)) children.
Proof.
  induction children as [|c rest IH]; [reflexivity|].
  cbn [parse_children List.filter]. destruct (kind_is "t3" (ch_kind c)); cbn [negb].
  - rewrite fmap_cons, IH. reflexivity.
  - exact IH.
Qed.

(** X13: [_parse_posts] keeps the children of kind [t3], in order, one
    post each.  In every post it builds, [thread_url] is empty or begins
    with the base URL, [url] is empty only when [thread_url] is, the source
    is [reddit_noapi] and the comments are still to come. *)
Theorem parse_posts_links data :
  let posts := _parse_posts data in
  pd_id <$> posts
  = ch_id <$> List.filter (fun c => kind_is "t3" (ch_kind c)) (post_children data)
  /\ (length posts <= length (post_children data))%nat
  /\ Forall (fun p =>
               (pd_thread_url p = "" \/ String.prefix _BASE_URL (pd_thread_url p) = true)
               /\ (pd_url p = "" -> pd_thread_url p = "")
               /\ pd_source p = "reddit_noapi"
               /\ pd_top_comments p = []) posts.
Proof.
  cbv zeta.
  assert (E : _parse_posts data
              = post_of_child
                  <$> List.filter (fun c => kind_is "t3" (ch_kind c)) (post_children data)).
  { destruct data as [listing|]; [apply parse_children_spec|reflexivity]. }
  rewrite E. split; [|split].
  - rewrite <- list_fmap_compose. reflexivity.
  - rewrite length_fmap. apply filter_length_le.
  - apply Forall_fmap, Forall_forall. intros c _. unfold compose, post_of_child.
    cbn [pd_thread_url pd_url pd_source pd_top_comments].
    destruct (ch_permalink c) as [|x t] eqn:Ep; cbn [nonempty].
    + split; [left; reflexivity|]. split; [|split; reflexivity].
      destruct (ch_url c); cbn [nonempty]; [reflexivity|discriminate].
    + split; [right; reflexivity|]. split; [|split; reflexivity].
      destruct (ch_url c); cbn [nonempty]; discriminate.
Qed.

(** ** 18. The engine searches the subreddits of its plan *)

Lemma scoped_subs_app t1 t2 : scoped_subs (t1 ++ t2) = scoped_subs t1 ++ scoped_subs t2.
Proof. apply flat_map_app. Qed.

Lemma elem_of_scoped_subs s tr :
  s ∈ scoped_subs tr ->
  exists pre ph r q lim clk ps post,
    tr = pre ++ EvQuery ph r (Some s) q lim clk ps :: post.
Proof.
  induction tr as [|e tr IH]; intros H.
  { apply elem_of_nil in H. contradiction. }
  change (e :: tr) with ([e] ++ tr) in H. rewrite scoped_subs_app in H.
  apply elem_of_app in H as [H|H].
  - destruct e as [ph r [s'|] q lim clk ps|ph sb ps a]; simpl in H;
      try (apply elem_of_nil in H; contradiction).
    apply list_elem_of_singleton in H. subst s'.
    exists [], ph, r, q, lim, clk, ps, tr. reflexivity.
  - destruct (IH H) as (pre & ph & r & q & lim & clk & ps & post & ->).
    exists (e :: pre), ph, r, q, lim, clk, ps, post. reflexivity.
Qed.

(** Every call of [_collect] comes after a first call of [_run_query] of
    the same phase and scope. *)
Lemma Blocks_collect_has_query tr ph sub posts added :
  Blocks tr -> EvCollect ph sub posts added ∈ tr ->
  exists pre q lim clk ps post,
    tr = pre ++ EvQuery ph false sub q lim clk ps :: post.
Proof.
  intros (blocks & -> & Hb) Hin.
  induction Hb as [|b blocks Hblock _ IH].
  { apply elem_of_nil in Hin. contradiction. }
  cbn [concat] in Hin |- *. apply elem_of_app in Hin as [Hin|Hin].
  - inversion Hblock as [ph0 sub0 q lim clk ps0 added0 _ Eb
                        |ph0 sub0 q lim clk clk' ps0 added0 _ _ Eb]; subst b.
    + apply elem_of_cons in Hin as [Hin|Hin]; [discriminate Hin|].
      apply list_elem_of_singleton in Hin. injection Hin as -> -> -> ->.
      exists [], q, lim, clk, ps0. eexists. reflexivity.
    + apply elem_of_cons in Hin as [Hin|Hin]; [discriminate Hin|].
      apply elem_of_cons in Hin as [Hin|Hin]; [discriminate Hin|].
      apply list_elem_of_singleton in Hin. injection Hin as -> -> -> ->.
      exists [], q, lim, clk, []. eexists. reflexivity.
  - destruct (IH Hin) as (pre & q & lim & clk & ps & post & E).
    exists (b ++ pre), q, lim, clk, ps, post. rewrite E, <- app_assoc. reflexivity.
Qed.

Section FanOutScope.

Variable World : Type.
Variable search_posts : World -> string -> string -> option string -> Z -> list Post * World.
Variable monotonic : World -> Z.
Variable sleep : World -> World.
Variable plan : QueryPlan.
Variable post_limit : Z.
Variable sort : string.
Variable deadline : Z.

Local Abbreviation engine :=
  (_fan_out_search World search_posts monotonic sleep plan post_limit sort deadline).
Local Abbreviation budget :=
  (Z.max 2 (Z.min 5 (post_limit / Z.max (Z.of_nat (length (subreddits plan))) 1))).

Lemma yielded_in_plan tr s :
  events_ok_from plan post_limit deadline budget [] tr -> Blocks tr ->
  s ∈ yielded tr -> s ∈ subreddits plan.
Proof.
  intros Hok Hb Hs. apply elem_of_yielded in Hs as (batch & added & Hin & _).
  destruct (Blocks_collect_has_query tr Breadth (Some s) batch added Hb Hin)
    as (pre & q & lim & clk & ps & post & E).
  pose proof (events_ok_from_split plan post_limit deadline budget tr [] pre _ post Hok E)
    as He.
  cbn [event_ok] in He. destruct He as (_ & s0 & first & rest & [= <-] & Hplan & _).
  exact Hplan.
Qed.

Lemma scoped_in_plan tr s :
  events_ok_from plan post_limit deadline budget [] tr -> Blocks tr ->
  s ∈ scoped_subs tr -> s ∈ subreddits plan.
Proof.
  intros Hok Hb Hs.
  destruct (elem_of_scoped_subs s tr Hs) as (pre & ph & r & q & lim & clk & ps & post & E).
  pose proof (events_ok_from_split plan post_limit deadline budget tr [] pre _ post Hok E)
    as He.
  destruct ph; cbn [event_ok] in He.
  - destruct He as (_ & s0 & first & rest & [= <-] & Hplan & _). exact Hplan.
  - destruct He as (_ & s0 & q0 & [= <-] & Hy & _).
    apply (yielded_in_plan tr s Hok Hb). rewrite E, yielded_app.
    apply elem_of_app. left. exact Hy.
  - destruct He as (_ & Hnone & _). discriminate Hnone.
Qed.

Lemma run_scoped_in_plan md w posts st :
  engine md w = Ok (posts, st) ->
  Forall (fun s => s ∈ subreddits plan) (scoped_subs (trace st)).
Proof.
  intros E.
  destruct (fan_out_run World search_posts monotonic sleep plan post_limit sort deadline
              md w posts st E) as (_ & HI & _).
  apply Forall_forall. intros s Hs.
  apply (scoped_in_plan (trace st) s); [apply HI|apply HI|exact Hs].
Qed.

(** X14: the engine searches where the plan says.  Every subreddit-scoped
    call of a run, in either phase and retries included, goes to a subreddit
    listed in the plan, and so does every subreddit recorded as yielding;
    a call without a subreddit is a call of the global fallback. *)
Theorem fan_out_searches_plan_subreddits md w posts st :
  engine md w = Ok (posts, st) ->
  Forall (fun s => s ∈ subreddits plan) (scoped_subs (trace st))
  /\ Forall (fun s => s ∈ subreddits plan) (yielding_subs st)
  /\ (forall pre ph r q lim clk ps post,
        trace st = pre ++ EvQuery ph r None q lim clk ps :: post -> ph = GlobalFallback).
Proof.
  intros E. split; [apply (run_scoped_in_plan md w posts st E)|].
  destruct (fan_out_run World search_posts monotonic sleep plan post_limit sort deadline
              md w posts st E) as (_ & HI & Hy & _).
  split.
  - rewrite Hy. apply Forall_forall. intros s Hs.
    apply (yielded_in_plan (trace st) s); [apply HI|apply HI|exact Hs].
  - intros pre ph r q lim clk ps post Etr.
    pose proof (events_ok_from_split plan post_limit deadline budget (trace st) [] pre _ post
                  (inv_events World plan post_limit deadline budget st HI) Etr) as He.
    destruct ph; cbn [event_ok] in He; [| |reflexivity].
    + destruct He as (_ & s0 & first & rest & Hnone & _). discriminate Hnone.
    + destruct He as (_ & s0 & q0 & Hnone & _). discriminate Hnone.
Qed.

End FanOutScope.

Lemma fan_out_searches_plan_subreddits_witness :
  exists posts st,
    run_scripted three_subs_respond three_subs_plan 20 1000 = Ok (posts, st)
    /\ Forall (fun s => s ∈ subreddits three_subs_plan) (scoped_subs (trace st)).
Proof.
  destruct (run_scripted three_subs_respond three_subs_plan 20 1000)
    as [[posts st]|e] eqn:E; [|vm_compute in E; discriminate E].
  exists posts, st. split; [reflexivity|].
  exact (proj1 (fan_out_searches_plan_subreddits Z (scripted_search three_subs_respond)
                  (fun w => w) scripted_sleep three_subs_plan 20 "relevance" 1000
                  initial_metadata 0 posts st E)).
Defined.

(** ** 19. The public entry point *)

Lemma nonempty_false s : nonempty s = false <-> s = "".
Proof. destruct s; simpl; split; congruence. Qed.

Section PipelineFacts.

Variable World : Type.
Variable llm_response : World -> string -> string -> option ParsedPlan * World.
Variable find_subreddits : World -> string -> list string * World.
Variable fetch_about : World -> string -> option About * World.
Variable search_posts : World -> string -> string -> option string -> Z -> list Post * World.
Variable fetch_thread :
  World -> string -> string -> Z -> option (list (list CommentChild)) * World.
Variable monotonic : World -> Z.
Variable sleep : World -> World.
Variable ticks_per_second : Z.
Variable seconds_text : Z -> string.

Local Abbreviation pipeline :=
  (fetch_posts_noapi World llm_response find_subreddits fetch_about search_posts
     fetch_thread monotonic sleep ticks_per_second seconds_text).
Local Abbreviation planning :=
  (plan_stage World llm_response find_subreddits fetch_about sleep).
Local Abbreviation comments :=
  (comment_loop World fetch_thread monotonic sleep seconds_text).
Local Abbreviation wanted :=
  (fun p : Post => nonempty (post_id p) && nonempty (post_subreddit p)).
Local Abbreviation key := (fun p : Post => (post_subreddit p, post_id p)).

(** The loop of step 4 returns the posts it was given, in order, each with
    at most five comments; it asks for the comments of posts that have an
    identifier and a subreddit, in order, and only at a reading of the
    clock that is not past the deadline. *)
Lemma comment_loop_spec start deadline posts : forall st : CommentStage World,
  exists calls,
    (comments start deadline posts st).1.*1 = posts
    /\ Forall (fun pc : Post * list Comment => (length pc.2 <= 5)%nat)
         (comments start deadline posts st).1
    /\ Forall (fun pc : Post * list Comment => wanted pc.1 = false -> pc.2 = [])
         (comments start deadline posts st).1
    /\ cs_fetched (comments start deadline posts st).2 = cs_fetched st ++ calls
    /\ calls.*1 `sublist_of` (key <$> List.filter wanted posts)
    /\ Forall (fun c : string * string * Z => c.2 <= deadline) calls
    /\ (cs_metadata (comments start deadline posts st).2 = cs_metadata st
        \/ exists elapsed,
             cs_metadata (comments start deadline posts st).2
             = add_warning (cs_metadata st)
                 ("Pipeline timeout at " +:+ seconds_text elapsed
                  +:+ "s during comment fetch"))
    /\ ((forall w, monotonic w <= deadline) ->
        calls.*1 = key <$> List.filter wanted posts).
Proof.
  induction posts as [|post rest IH]; intros st.
  { exists []. cbn [comment_loop fst snd fmap list_fmap List.filter]. rewrite app_nil_r.
    repeat split; auto; constructor. }
  cbn [comment_loop]. destruct (deadline <? monotonic (cs_world st)) eqn:Et.
  { exists []. cbn [fst snd cs_fetched cs_metadata]. rewrite app_nil_r.
    split.
    { rewrite <- list_fmap_compose. apply list_fmap_id. }
    split.
    { apply Forall_fmap, Forall_forall. intros p _. simpl. lia. }
    split.
    { apply Forall_fmap, Forall_forall. intros p _ _. reflexivity. }
    split; [reflexivity|]. split; [apply sublist_nil_l|]. split; [constructor|].
    split; [right; eexists; reflexivity|].
    intros Hclk. apply Z.ltb_lt in Et. specialize (Hclk (cs_world st)). lia. }
  apply Z.ltb_ge in Et.
  destruct (negb (nonempty (post_id post)) || negb (nonempty (post_subreddit post)))
    eqn:Eskip.
  - assert (Hw : wanted post = false).
    { cbv beta. apply orb_true_iff in Eskip as [H|H]; apply negb_true_iff in H;
        rewrite H; [reflexivity|apply andb_false_r]. }
    destruct (IH st) as (calls & H1 & H2 & H3 & H4 & H5 & H6 & H7 & H8).
    destruct (comments start deadline rest st) as [done st'].
    cbn [fst snd] in *. exists calls.
    cbn [List.filter]. rewrite Hw.
    split; [rewrite fmap_cons; cbn [fst]; rewrite H1; reflexivity|].
    split; [constructor; [simpl; lia|exact H2]|].
    split; [constructor; [reflexivity|exact H3]|].
    auto 10.
  - assert (Hw : wanted post = true).
    { cbv beta. apply orb_false_iff in Eskip as [Ha Hb].
      apply negb_false_iff in Ha, Hb. rewrite Ha, Hb. reflexivity. }
    unfold _fetch_comments.
    destruct (fetch_thread (cs_world st) (post_subreddit post) (post_id post)
                DEFAULT_COMMENT_LIMIT) as [data w'].
    match goal with |- context [comment_loop _ _ _ _ _ _ _ rest ?s] => set (st1 := s) end.
    destruct (IH st1) as (calls & H1 & H2 & H3 & H4 & H5 & H6 & H7 & H8).
    destruct (comments start deadline rest st1) as [done st'].
    cbn [fst snd] in *.
    exists ((post_subreddit post, post_id post, monotonic (cs_world st)) :: calls).
    cbn [List.filter]. rewrite Hw.
    split; [rewrite fmap_cons; cbn [fst]; rewrite H1; reflexivity|].
    split.
    { constructor; [|exact H2]. cbn [snd].
      rewrite comments_of_response_spec, length_take. unfold DEFAULT_COMMENT_LIMIT. lia. }
    split.
    { constructor; [|exact H3]. cbn [fst]. intros Hn. cbv beta in Hw. congruence. }
    split; [rewrite H4; unfold st1; cbn [cs_fetched]; rewrite <- app_assoc; reflexivity|].
    split; [rewrite !fmap_cons; cbn [fst]; apply sublist_skip, H5|].
    split; [constructor; [exact Et|exact H6]|].
    split; [exact H7|].
    intros Hclk. rewrite !fmap_cons. cbn [fst]. rewrite (H8 Hclk). reflexivity.
Qed.


End PipelineFacts.

Lemma guard_fill_lookup (queries : list string) subs : forall (sq : gmap string (list string)) s,
  fold_left (fun sq sub => <[sub := queries]> sq) subs sq !! s
  = if bool_decide (s ∈ subs) then Some queries else sq !! s.
Proof.
  induction subs as [|sub rest IH]; intros sq s; [reflexivity|].
  cbn [fold_left]. rewrite IH.
  destruct (bool_decide (s ∈ rest)) eqn:Er.
  - apply bool_decide_eq_true in Er. rewrite bool_decide_eq_true_2; [reflexivity|].
    apply elem_of_cons. auto.
  - apply bool_decide_eq_false in Er. destruct (decide (s = sub)) as [->|Hne].
    + rewrite lookup_insert_eq, bool_decide_eq_true_2; [reflexivity|].
      apply elem_of_cons. auto.
    + rewrite lookup_insert_ne by congruence.
      rewrite bool_decide_eq_false_2; [reflexivity|].
      intros H. apply elem_of_cons in H as [H|H]; [exact (Hne H)|exact (Er H)].
Qed.

Section PipelinePlans.

Variable World : Type.
Variable llm_response : World -> string -> string -> option ParsedPlan * World.
Variable find_subreddits : World -> string -> list string * World.
Variable fetch_about : World -> string -> option About * World.
Variable search_posts : World -> string -> string -> option string -> Z -> list Post * World.
Variable fetch_thread :
  World -> string -> string -> Z -> option (list (list CommentChild)) * World.
Variable monotonic : World -> Z.
Variable sleep : World -> World.
Variable ticks_per_second : Z.
Variable seconds_text : Z -> string.

Local Abbreviation pipeline :=
  (fetch_posts_noapi World llm_response find_subreddits fetch_about search_posts
     fetch_thread monotonic sleep ticks_per_second seconds_text).
Local Abbreviation planning :=
  (plan_stage World llm_response find_subreddits fetch_about sleep).

(** The engine leaves the planning fields of the metadata alone. *)
Lemma engine_keeps_planning plan post_limit sort deadline md w posts st :
  _fan_out_search World search_posts monotonic sleep plan post_limit sort deadline md w
  = Ok (posts, st) ->
  planning_of (search_metadata st) = planning_of md.
Proof.
  apply (fan_out_preserves World search_posts monotonic sleep plan post_limit sort deadline
           (fun s => planning_of (search_metadata s) = planning_of md)).
  - intros phase retry sub q lim s H.
    destruct (run_query_spec World search_posts monotonic sort phase retry sub q lim s)
      as (ps & w' & k & ->). exact H.
  - intros phase sub ps s H. rewrite collect_spec. exact H.
  - intros s H. exact H.
  - intros s H. exact H.
  - intros sub s H. exact H.
  - intros s H. exact H.
  - intros s H. exact H.
  - intros a b s H. exact H.
  - intros a b s H. exact H.
  - reflexivity.
Qed.

(** A run is its planning step, then the engine on the plan, and the
    planning fields of the metadata reach the end unchanged. *)
Lemma pipeline_stages topic subreddit mode post_limit w out :
  pipeline topic subreddit mode post_limit w = Ok out ->
  exists md w1 posts,
    planning topic subreddit mode initial_metadata w = (out_plan out, md, w1)
    /\ _fan_out_search World search_posts monotonic sleep (out_plan out) post_limit
         (sc_sort (mode_to_search topic mode))
         (monotonic w + _PIPELINE_TIMEOUT_S * ticks_per_second) md w1
       = Ok (posts, out_engine out)
    /\ planning_of (out_metadata out) = planning_of md.
Proof.
  unfold fetch_posts_noapi.
  destruct (planning topic subreddit mode initial_metadata w) as [[plan md] w1].
  destruct (_fan_out_search World search_posts monotonic sleep plan post_limit _ _ md w1)
    as [[all engine]|e] eqn:E; [|discriminate].
  pose proof (engine_keeps_planning _ _ _ _ _ _ _ _ E) as Hkeep.
  destruct (comment_loop_spec World fetch_thread monotonic sleep seconds_text
              (monotonic w) (monotonic w + _PIPELINE_TIMEOUT_S * ticks_per_second) all
              {| cs_world := world engine; cs_metadata := search_metadata engine;
                 cs_fetched := [] |})
    as (calls & _ & _ & _ & _ & _ & _ & Hmd & _).
  destruct (comment_loop World fetch_thread monotonic sleep seconds_text _ _ all _)
    as [posts st].
  cbn [fst snd cs_metadata] in Hmd.
  intros [= <-]. cbn [out_plan out_engine out_metadata].
  exists md, w1, all. split; [reflexivity|]. split; [exact E|].
  rewrite <- Hkeep. destruct Hmd as [-> | [elapsed ->]]; reflexivity.
Qed.

(** X16: a call that names a subreddit.  The plan searched is the plan of
    [_build_user_specified_plan]; neither the language model nor any
    validation is involved, and the metadata says [user_specified] with one
    subreddit suggested and validated.  Every subreddit-scoped search of the
    run goes to the subreddit named. *)
Theorem named_subreddit_is_the_only_scope topic subreddit mode post_limit w out s :
  given subreddit = Some s ->
  pipeline topic subreddit mode post_limit w = Ok out ->
  out_plan out = _build_user_specified_plan topic mode s
  /\ planning_of (out_metadata out) = ("user_specified", topic, 1, 1)
  /\ Forall (fun s' => s' = s) (scoped_subs (trace (out_engine out)))
  /\ planning topic subreddit mode initial_metadata w
     = (_build_user_specified_plan topic mode s,
        set_planning initial_metadata "user_specified" topic 1 1, w).
Proof.
  intros Hs E.
  destruct (pipeline_stages _ _ _ _ _ _ E) as (md & w1 & posts & Hplan & Hrun & Hmd).
  assert (Hstage : planning topic subreddit mode initial_metadata w
                   = (_build_user_specified_plan topic mode s,
                      set_planning initial_metadata "user_specified" topic 1 1, w)).
  { unfold plan_stage. rewrite Hs. reflexivity. }
  rewrite Hstage in Hplan. injection Hplan as Hp <- <-.
  refine (conj (eq_sym Hp) (conj Hmd (conj _ Hstage))).
  pose proof (run_scoped_in_plan _ _ _ _ _ _ _ _ _ _ _ _ Hrun) as Hscope.
  eapply Forall_impl; [exact Hscope|]. intros s' Hin. cbv beta in Hin.
  rewrite <- Hp in Hin. cbn [_build_user_specified_plan subreddits] in Hin.
  apply list_elem_of_singleton in Hin. exact Hin.
Qed.

(** X17: a call without a subreddit for which the language model gives no
    plan.  The plan searched has the subreddits of the keyword discovery,
    each with the single query of [_build_sub_query], and the query of
    [mode_to_search] as its only global query; so Phase 2 has nothing to
    send, and every subreddit is searched at most once (and once more for
    the quote retry).  The metadata says [fallback]. *)
Theorem fallback_plan_is_searched_once topic subreddit mode post_limit w out :
  given subreddit = None ->
  _parse_query_plan (llm_response w topic mode).1 mode = None ->
  pipeline topic subreddit mode post_limit w = Ok out ->
  let subs := (find_subreddits (llm_response w topic mode).2 topic).1 in
  subreddits (out_plan out) = subs
  /\ (forall s, queries_for_sub (out_plan out) s
                = if bool_decide (s ∈ subs) then [_build_sub_query topic mode]
                  else [sc_query (mode_to_search topic mode)])
  /\ global_queries (out_plan out) = [sc_query (mode_to_search topic mode)]
  /\ Forall (fun e => ev_phase e <> Depth) (trace (out_engine out))
  /\ Forall (fun s => s ∈ subs) (scoped_subs (trace (out_engine out)))
  /\ planning_of (out_metadata out) = ("fallback", topic, Z.of_nat (length subs), 0).
Proof.
  intros Hs Hllm E. cbv zeta.
  destruct (pipeline_stages _ _ _ _ _ _ E) as (md & w1 & posts & Hplan & Hrun & Hmd).
  unfold plan_stage in Hplan. rewrite Hs in Hplan.
  destruct (llm_response w topic mode) as [parsed w0]. cbn [fst snd] in *.
  rewrite Hllm in Hplan. unfold fallback_plan in Hplan.
  destruct (find_subreddits w0 topic) as [subs w2]. cbn [fst].
  injection Hplan as Hp <- <-.
  assert (Hq : forall s, queries_for_sub (out_plan out) s
                = if bool_decide (s ∈ subs) then [_build_sub_query topic mode]
                  else [sc_query (mode_to_search topic mode)]).
  { intros s. rewrite <- Hp. unfold queries_for_sub, with_subreddits.
    cbn [sub_queries global_queries _build_fallback_query_plan].
    rewrite guard_fill_lookup. destruct (bool_decide (s ∈ subs)); [reflexivity|].
    rewrite lookup_empty. reflexivity. }
  assert (Hsubs : subreddits (out_plan out) = subs) by (rewrite <- Hp; reflexivity).
  refine (conj Hsubs (conj Hq (conj _ (conj _ (conj _ Hmd))))).
  - rewrite <- Hp. reflexivity.
  - apply (single_query_no_depth _ _ _ _ _ _ _ _ _ _ _ _) in Hrun; [apply Hrun|].
    intros s. rewrite Hq. destruct (bool_decide (s ∈ subs)); simpl; lia.
  - pose proof (run_scoped_in_plan _ _ _ _ _ _ _ _ _ _ _ _ Hrun) as Hscope.
    rewrite Hsubs in Hscope. exact Hscope.
Qed.

(** X18: a call without a subreddit for which the language model gives a
    plan.  The subreddits searched are suggestions of the model that passed
    the existence check: the plan keeps, in order, the suggested names that
    are among the names accepted in the checks of the first twenty
    suggestions, and every subreddit-scoped search goes to one of them.  The
    metadata says [llm], with the number of suggestions and the number of
    accepted names. *)
Theorem llm_plan_searches_validated_only topic subreddit mode post_limit w out plan0 :
  given subreddit = None ->
  _parse_query_plan (llm_response w topic mode).1 mode = Some plan0 ->
  pipeline topic subreddit mode post_limit w = Ok out ->
  let valid := checked_names fetch_about sleep (subreddits plan0)
                 (llm_response w topic mode).2 in
  subreddits (out_plan out) = filter (fun s => s ∈ valid) (subreddits plan0)
  /\ Forall (fun s => s ∈ subreddits plan0 /\ s ∈ valid)
       (scoped_subs (trace (out_engine out)))
  /\ global_queries (out_plan out) = global_queries plan0
  /\ planning_of (out_metadata out)
     = ("llm", intent plan0, Z.of_nat (length (subreddits plan0)), Z.of_nat (size valid)).
Proof.
  intros Hs Hllm E. cbv zeta.
  destruct (pipeline_stages _ _ _ _ _ _ E) as (md & w1 & posts & Hplan & Hrun & Hmd).
  unfold plan_stage in Hplan. rewrite Hs in Hplan.
  destruct (llm_response w topic mode) as [parsed w0]. cbn [fst snd] in *.
  rewrite Hllm in Hplan.
  unfold llm_validation_pass, _validate_subreddits in Hplan.
  destruct (validate_loop_spec World fetch_about sleep (take 20 (subreddits plan0)) ∅
              (mkVState w0 [])) as (w' & Hloop).
  rewrite Hloop in Hplan. cbn [v_world] in Hplan.
  injection Hplan as Hp Hm _. unfold checked_names.
  set (validated := fold_left record_answer
                      (about_answers World fetch_about sleep (take 20 (subreddits plan0)) w0)
                      ∅) in *.
  assert (Hsubs : subreddits (out_plan out)
                  = filter (fun s => s ∈ dom validated) (subreddits plan0))
    by (rewrite <- Hp; reflexivity).
  split; [exact Hsubs|]. split.
  - pose proof (run_scoped_in_plan _ _ _ _ _ _ _ _ _ _ _ _ Hrun) as Hscope.
    eapply Forall_impl; [exact Hscope|]. intros s Hin. cbv beta in Hin.
    rewrite Hsubs in Hin. apply list_elem_of_filter in Hin as [Hv Hin]. auto.
  - split; [rewrite <- Hp; reflexivity|].
    rewrite Hmd, <- Hm, size_dom.
    destruct (0 <? Z.min (Z.of_nat (length (subreddits plan0))) 20);
      [destruct (fail_rate_high _ _)|]; reflexivity.
Qed.

End PipelinePlans.

(** Runs of the pipeline in the scripted world. *)
Example pipeline_named_subreddit :
  observe_pipeline
    (run_pipeline None [] three_subs_respond "Standing desks" (Some "desks") "general" 3)
  = Some ([("desks-Standing desks-1", 5%nat); ("desks-Standing desks-2", 5%nat);
           ("desks-standing OR desks-1", 5%nat)],
          "user_specified", ["desks"], ["desks"; "desks"]).
Proof. vm_compute. reflexivity. Qed.

Example pipeline_fallback :
  observe_pipeline
    (run_pipeline None ["desks"; "quiet"] three_subs_respond "desks" None "general" 20)
  = Some ([("desks-desks-1", 5%nat); ("desks-desks-2", 5%nat)],
          "fallback", ["desks"; "quiet"], ["desks"; "quiet"]).
Proof. vm_compute. reflexivity. Qed.

Example pipeline_llm :
  observe_pipeline
    (run_pipeline (Some example_parsed) [] silent_respond "store problems" None "pain" 20)
  = Some ([], "llm", ["shopify"; "Etsy"], ["shopify"; "Etsy"]).
Proof. vm_compute. reflexivity. Qed.

Lemma named_subreddit_is_the_only_scope_witness :
  exists out,
    run_pipeline None [] three_subs_respond "Standing desks" (Some "desks") "general" 3
    = Ok out
    /\ Forall (fun s' => s' = "desks") (scoped_subs (trace (out_engine out))).
Proof.
  destruct (run_pipeline None [] three_subs_respond "Standing desks" (Some "desks")
              "general" 3) as [out|e] eqn:E; [|vm_compute in E; discriminate E].
  exists out. split; [reflexivity|]. unfold run_pipeline in E.
  pose proof (named_subreddit_is_the_only_scope Z (scripted_llm None)
                (scripted_discovery []) scripted_about
                (scripted_search three_subs_respond) scripted_thread (fun w => w)
                scripted_sleep 1 pretty "Standing desks" (Some "desks") "general" 3 0 out
                "desks" eq_refl E) as (_ & _ & H & _).
  exact H.
Defined.

Lemma fallback_plan_is_searched_once_witness :
  exists out,
    run_pipeline None ["desks"; "quiet"] three_subs_respond "desks" None "general" 20
    = Ok out
    /\ Forall (fun e => ev_phase e <> Depth) (trace (out_engine out)).
Proof.
  destruct (run_pipeline None ["desks"; "quiet"] three_subs_respond "desks" None
              "general" 20) as [out|e] eqn:E; [|vm_compute in E; discriminate E].
  exists out. split; [reflexivity|]. unfold run_pipeline in E.
  pose proof (fallback_plan_is_searched_once Z (scripted_llm None)
                (scripted_discovery ["desks"; "quiet"]) scripted_about
                (scripted_search three_subs_respond) scripted_thread (fun w => w)
                scripted_sleep 1 pretty "desks" None "general" 20 0 out
                eq_refl eq_refl E) as H.
  cbv zeta in H. destruct H as (_ & _ & _ & H & _). exact H.
Defined.

Lemma llm_plan_searches_validated_only_witness :
  exists out plan0,
    run_pipeline (Some example_parsed) [] silent_respond "store problems" None "pain" 20
    = Ok out
    /\ _parse_query_plan (Some example_parsed) "pain" = Some plan0
    /\ subreddits (out_plan out)
       = filter (fun s => s ∈ checked_names scripted_about scripted_sleep
                               (subreddits plan0) 1)
           (subreddits plan0).
Proof.
  destruct (run_pipeline (Some example_parsed) [] silent_respond "store problems" None
              "pain" 20) as [out|e] eqn:E; [|vm_compute in E; discriminate E].
  destruct (_parse_query_plan (Some example_parsed) "pain") as [plan0|] eqn:Ep;
    [|vm_compute in Ep; discriminate Ep].
  exists out, plan0. split; [reflexivity|]. split; [reflexivity|].
  unfold run_pipeline in E.
  pose proof (llm_plan_searches_validated_only Z (scripted_llm (Some example_parsed))
                (scripted_discovery []) scripted_about
                (scripted_search silent_respond) scripted_thread (fun w => w)
                scripted_sleep 1 pretty "store problems" None "pain" 20 0 out plan0
                eq_refl Ep E) as H.
  cbv zeta in H. destruct H as (H & _). exact H.
Defined.
